(** * The remote driver client: URI query codec, transport selection and RPC engine

    A shallow embedding of [src/remote_internal.c].  C strings are lists of
    characters (the terminating NUL is implicit), C [int]s are integers in [Z]
    with their 32-bit wrap-around written out, and everything the C code does
    to the outside world (socket reads and writes, TLS shutdown, [close],
    [free]) goes through an explicit [world] that is threaded through the
    functions. *)

From Stdlib Require Import ZArith String Ascii List Bool Lia DecimalString.
Import ListNotations.

Set Implicit Arguments.

(* ------------------------------------------------------------------ *)
(** ** C strings *)

Definition cstring := list ascii.

(** A string literal of the C source. *)
Definition lit (s : string) : cstring := list_ascii_of_string s.

Definition NUL : ascii := Ascii.zero.

(** What C sees of a character buffer: the bytes before the first NUL. *)
Fixpoint c_str (s : list ascii) : cstring :=
  match s with
  | [] => []
  | c :: t => if Ascii.eqb c NUL then [] else c :: c_str t
  end.

Definition in_range (lo hi c : ascii) : bool :=
  (N_of_ascii lo <=? N_of_ascii c)%N && (N_of_ascii c <=? N_of_ascii hi)%N.

Definition is_upper (c : ascii) : bool := in_range "A" "Z" c.
Definition is_lower (c : ascii) : bool := in_range "a" "z" c.
Definition is_digit (c : ascii) : bool := in_range "0" "9" c.

(** [tolower] in the C locale. *)
Definition tolower (c : ascii) : ascii :=
  if is_upper c then ascii_of_N (N_of_ascii c + 32) else c.

(** [strcasecmp (a, b) == 0]. *)
Fixpoint strcaseeq (a b : cstring) : bool :=
  match a, b with
  | [], [] => true
  | x :: a', y :: b' => Ascii.eqb (tolower x) (tolower y) && strcaseeq a' b'
  | _, _ => false
  end.

(** [strchr (s, c)] as an offset into [s]. *)
Fixpoint strchr (s : cstring) (c : ascii) : option nat :=
  match s with
  | [] => None
  | x :: t => if Ascii.eqb x c then Some 0
              else match strchr t c with
                   | Some i => Some (S i)
                   | None => None
                   end
  end.

(** The characters of [s] before the first [c], and the rest of [s] from that
    [c] on (empty when there is no [c]). *)
Fixpoint break_at (c : ascii) (s : cstring) : cstring * cstring :=
  match s with
  | [] => ([], [])
  | x :: t => if Ascii.eqb x c then ([], s)
              else let (p, r) := break_at c t in (x :: p, r)
  end.

(* ------------------------------------------------------------------ *)
(** ** libxml2's URI escaping, as used by the query codec *)

Definition is_hex (c : ascii) : bool :=
  is_digit c || in_range "a" "f" c || in_range "A" "F" c.

Definition hex_val (c : ascii) : N :=
  if is_digit c then N_of_ascii c - N_of_ascii "0"
  else if in_range "a" "f" c then N_of_ascii c - N_of_ascii "a" + 10
  else if in_range "A" "F" c then N_of_ascii c - N_of_ascii "A" + 10
  else 0.

(** The decoding loop of [xmlURIUnescapeString] over the [len] characters it
    was given: [%XY] with two hexadecimal digits becomes one byte, every other
    character is copied. *)
Fixpoint unescape_window (w : list ascii) : list ascii :=
  match w with
  | [] => []
  | c :: t =>
      match t with
      | h1 :: h2 :: rest =>
          if Ascii.eqb c "%" && is_hex h1 && is_hex h2
          then ascii_of_N ((hex_val h1 * 16 + hex_val h2) mod 256) :: unescape_window rest
          else c :: unescape_window t
      | _ => c :: unescape_window t
      end
  end.

(** [xmlURIUnescapeString (str, len, NULL)].  A [len] of zero (or less) means
    "the whole of [str]"; the result is a C string, so it ends at the first
    NUL that decoding produced. *)
Definition xmlURIUnescapeString (str : cstring) (len : nat) : cstring :=
  let len := if Nat.eqb len 0 then length str else len in
  c_str (unescape_window (firstn len str)).

Definition is_mark (c : ascii) : bool :=
  existsb (Ascii.eqb c) (lit "-_.!~*'()").

Definition is_alphanum (c : ascii) : bool :=
  is_lower c || is_upper c || is_digit c.

Definition is_unreserved (c : ascii) : bool := is_alphanum c || is_mark c.

Definition hex_digit (v : N) : ascii :=
  if (v <=? 9)%N then ascii_of_N (N_of_ascii "0" + v)
  else ascii_of_N (N_of_ascii "A" + v - 10).

Definition escape_char (list_ : cstring) (ch : ascii) : list ascii :=
  if negb (Ascii.eqb ch "@") && negb (is_unreserved ch)
     && negb (existsb (Ascii.eqb ch) list_)
  then ["%"%char; hex_digit (N_of_ascii ch / 16); hex_digit (N_of_ascii ch mod 16)]
  else [ch].

(** [xmlURIEscapeStr (str, list)]: every character other than ['@'], the
    unreserved ones and those of [list] is written as [%XY]. *)
Definition xmlURIEscapeStr (str list_ : cstring) : cstring :=
  flat_map (escape_char list_) str.

(* ------------------------------------------------------------------ *)
(** ** Query fields *)

Record query_fields : Type := mk_field {
  name : cstring;      (* Field name (unescaped). *)
  value : cstring;     (* Field value (unescaped). *)
  ignore : bool        (* Ignore field in query_create. *)
}.

(** One turn of the [while] loop of [query_parse] with the default
    separator ["&"]: the field found in the section that starts at [query]
    (if any) and the position the loop continues from. *)
Definition query_parse_step (query : cstring) : option query_fields * cstring :=
  let (section, end_) := break_at "&" query in
  (* Find the first '=' character between here and end. *)
  let eq := match strchr query "=" with
            | Some i => if length section <=? i then None else Some i
            | None => None
            end in
  let field :=
    match section with
    | [] => None                                   (* Empty section (eg. "?&"). *)
    | _ =>
        match eq with
        | None =>                                  (* just "name" *)
            Some (mk_field (xmlURIUnescapeString query (length section)) [] false)
        | Some i =>
            if S i =? length section then          (* "name=" *)
              Some (mk_field (xmlURIUnescapeString query i) [] false)
            else if i =? 0 then None               (* "=value" *)
            else                                   (* "name=value" *)
              Some (mk_field (xmlURIUnescapeString query i)
                             (xmlURIUnescapeString (skipn (S i) query)
                                                   (length section - S i))
                             false)
        end
    end in
  (field, match end_ with [] => [] | _ :: after => after end).

Fixpoint query_parse_loop (fuel : nat) (query : cstring) : list query_fields :=
  match fuel with
  | O => []
  | S fuel' =>
      match query with
      | [] => []
      | _ =>
          let (field, next) := query_parse_step query in
          match field with
          | Some f => f :: query_parse_loop fuel' next
          | None => query_parse_loop fuel' next
          end
      end
  end.

(** [query_parse (query, NULL, &fields)] when no allocation fails.  Every turn
    of the loop moves [query] forward by at least one character, so the length
    of the string bounds the number of turns. *)
Definition query_parse (query : list ascii) : list query_fields :=
  let q := c_str query in query_parse_loop (length q) q.

(** The body of the [while (fields)] loop of [query_create], default
    separator, appending to the buffer [buf]. *)
Fixpoint query_create_loop (fields : list query_fields) (append_sep : bool)
         (buf : cstring) : cstring :=
  match fields with
  | [] => buf
  | f :: rest =>
      if ignore f then query_create_loop rest append_sep buf
      else
        let buf := if append_sep then buf ++ lit "&" else buf in
        let buf := buf ++ xmlURIEscapeStr (name f) [] in
        let buf := buf ++ lit "=" in
        let buf := buf ++ xmlURIEscapeStr (value f) [] in
        query_create_loop rest true buf
  end.

(** [query_create (fields, NULL, &query_out)] when no allocation fails:
    [None] is the NULL that an empty list of fields leaves in the output parameter. *)
Definition query_create (fields : list query_fields) : option cstring :=
  match fields with
  | [] => None
  | _ => Some (query_create_loop fields false [])
  end.

(** The names and values of a list of fields. *)
Definition pairs (fs : list query_fields) : list (cstring * cstring) :=
  map (fun f => (name f, value f)) fs.

(* ------------------------------------------------------------------ *)
(** ** Notions used to state the properties of the query codec *)

(** The names [remoteOpen] takes for itself. *)
Definition reserved (n : cstring) : bool :=
  strcaseeq n (lit "name") || strcaseeq n (lit "command")
  || strcaseeq n (lit "socket") || strcaseeq n (lit "netcat")
  || strcaseeq n (lit "no_verify").

(** A query string read section by section: sections separated by ['&'],
    each a name and a value separated by its first ['='], both
    percent-decoded.  Unlike [query_parse], this reader keeps every section,
    also one whose name is empty. *)
Fixpoint split_on (c : ascii) (s : cstring) : list cstring :=
  match s with
  | [] => [[]]
  | x :: t =>
      if Ascii.eqb x c then [] :: split_on c t
      else match split_on c t with
           | h :: r => (x :: h) :: r
           | [] => [[x]]
           end
  end.

Definition spec_decode_section (sec : cstring) : cstring * cstring :=
  let (n, r) := break_at "=" sec in
  (unescape_window n, unescape_window (tl r)).

Definition spec_decode_query (q : option cstring) : list (cstring * cstring) :=
  match q with
  | None => []
  | Some [] => []
  | Some s => map spec_decode_section (split_on "&" s)
  end.

(** One field as [query_create] writes it. *)
Definition encode_field (f : query_fields) : cstring :=
  xmlURIEscapeStr (name f) [] ++ lit "=" ++ xmlURIEscapeStr (value f) [].

(** The fields that are not ignored, as [query_create] writes them one after
    the other. *)
Fixpoint render (sep : bool) (kept : list query_fields) : cstring :=
  match kept with
  | [] => []
  | f :: rest => (if sep then lit "&" else []) ++ encode_field f ++ render true rest
  end.

Definition kept_of (fs : list query_fields) : list query_fields :=
  filter (fun f => negb (ignore f)) fs.

(** What [escape_char] must achieve for one character: either the character
    is copied and is none of ['%'], ['&'], ['='], or it is written as a
    percent sign and two hexadecimal digits that decode to it. *)
Definition escape_char_ok (ch : ascii) : bool :=
  match escape_char [] ch with
  | [c] => Ascii.eqb c ch && negb (Ascii.eqb c "%") && negb (Ascii.eqb c "&")
           && negb (Ascii.eqb c "=")
  | [p; h1; h2] =>
      Ascii.eqb p "%" && is_hex h1 && is_hex h2
      && Ascii.eqb (ascii_of_N ((hex_val h1 * 16 + hex_val h2) mod 256)) ch
      && negb (Ascii.eqb h1 "&") && negb (Ascii.eqb h1 "=")
      && negb (Ascii.eqb h2 "&") && negb (Ascii.eqb h2 "=")
  | _ => false
  end.

(** No NUL among the characters. *)
Definition no_nul (s : list ascii) : Prop := Forall (fun c => c <> NUL) s.

(** A field that can be written and read back: its name is not empty and
    neither name nor value contains a NUL. *)
Definition writable (f : query_fields) : Prop :=
  name f <> [] /\ no_nul (name f) /\ no_nul (value f).

(* ------------------------------------------------------------------ *)
(** ** Machine integers and XDR *)

Open Scope Z_scope.

(** A value brought back into the range of a C [int] (two's complement). *)
Definition int32 (x : Z) : Z := (x + 2^31) mod 2^32 - 2^31.

(** A value converted to C [unsigned]. *)
Definition uint32 (x : Z) : Z := x mod 2^32.

(** A byte on the wire, [0..255]. *)
Definition octet := Z.

(** Four bytes, big-endian, as XDR writes every 32-bit quantity. *)
Definition xdr_put32 (x : Z) : list octet :=
  let u := uint32 x in
  [u / 2^24; (u / 2^16) mod 256; (u / 2^8) mod 256; u mod 256].

Definition xdr_get32 (bs : list octet) : option (Z * list octet) :=
  match bs with
  | b0 :: b1 :: b2 :: b3 :: rest =>
      Some ((b0 mod 256) * 2^24 + (b1 mod 256) * 2^16
            + (b2 mod 256) * 2^8 + b3 mod 256, rest)
  | _ => None
  end.

(** [xdr_int] in decoding mode. *)
Definition xdr_int_decode (bs : list octet) : option (Z * list octet) :=
  match xdr_get32 bs with
  | Some (u, rest) => Some (int32 u, rest)
  | None => None
  end.

Definition xdr_void (bs : list octet) : option unit := Some tt.

(** Modelled from the spec: the message header declared in the protocol
    schema ([remote_protocol.h], not part of the sources at hand): six
    unsigned 32-bit words, 24 bytes on the wire. *)
Record remote_message_header : Type := mk_header {
  prog : Z;
  vers : Z;
  proc : Z;
  direction : Z;
  serial : Z;
  status : Z
}.

Definition xdr_remote_message_header_encode (h : remote_message_header) : list octet :=
  (xdr_put32 (prog h) ++ xdr_put32 (vers h) ++ xdr_put32 (proc h)
   ++ xdr_put32 (direction h) ++ xdr_put32 (serial h) ++ xdr_put32 (status h))%list.

Definition xdr_remote_message_header_decode (bs : list octet)
  : option (remote_message_header * list octet) :=
  match xdr_get32 bs with
  | Some (p, bs) =>
  match xdr_get32 bs with
  | Some (v, bs) =>
  match xdr_get32 bs with
  | Some (pr, bs) =>
  match xdr_get32 bs with
  | Some (d, bs) =>
  match xdr_get32 bs with
  | Some (s, bs) =>
  match xdr_get32 bs with
  | Some (st, bs) => Some (mk_header p v pr d s st, bs)
  | None => None end | None => None end | None => None end
  | None => None end | None => None end | None => None end.

(** The constants of [remote_protocol.h] and of the build configuration that
    the driver refers to; the header is not part of the sources at hand, so
    the development is parametric in them. *)
Class remote_protocol : Type := {
  REMOTE_PROGRAM : Z;
  REMOTE_PROTOCOL_VERSION : Z;
  REMOTE_MESSAGE_MAX : Z;
  REMOTE_CALL : Z;
  REMOTE_REPLY : Z;
  REMOTE_OK : Z;
  REMOTE_ERROR : Z;
  REMOTE_PROC_OPEN : Z;
  REMOTE_PROC_CLOSE : Z;
  REMOTE_PROC_GET_TYPE : Z;
  REMOTE_PROC_GET_VERSION : Z;
  REMOTE_PROC_GET_MAX_VCPUS : Z;
  REMOTE_PROC_LIST_DOMAINS : Z;
  REMOTE_PROC_NUM_OF_DOMAINS : Z;
  REMOTE_DOMAIN_ID_LIST_MAX : Z;
  LIBVIRTD_TLS_PORT : cstring;
  LIBVIRTD_TCP_PORT : cstring;
  LIBVIRTD_UNIX_SOCKET : cstring;
  LIBVIRTD_UNIX_SOCKET_RO : cstring
}.

(* ------------------------------------------------------------------ *)
(** ** Errors *)

Inductive virErrorNumber : Type :=
| VIR_ERR_INVALID_ARG
| VIR_ERR_NO_MEMORY
| VIR_ERR_SYSTEM_ERROR
| VIR_ERR_GNUTLS_ERROR
| VIR_ERR_RPC.

(** What reaches [__virRaiseError].  [on_conn] tells whether the error is
    attached to the connection ([false] is the NULL that the code passes
    while it is still inside [remoteOpen]); [msg] is the text or format
    string and [args] the integers printed into it.  [RaiseServer] is
    [server_error]: the error record the server sent, raised as it is. *)
Inductive raised (E : Type) : Type :=
| Raise (on_conn : bool) (code : virErrorNumber) (msg : string) (args : list Z)
| RaiseServer (on_conn : bool) (e : E).
Arguments Raise {E}.
Arguments RaiseServer {E}.

(** [error (conn, code, info)]. *)
Definition error {E} (on_conn : bool) (code : virErrorNumber) (info : string) : raised E :=
  Raise on_conn code info [].

(** How a function of the driver ends: with a value, with its failure code
    after raising one error, or in a failed [assert]. *)
Inductive outcome (E A : Type) : Type :=
| Ok (a : A)
| Fail (e : raised E)
| Abort.
Arguments Ok {E A}.
Arguments Fail {E A}.
Arguments Abort {E A}.

(* ------------------------------------------------------------------ *)
(** ** The outside world *)

(** What one [read] (or [gnutls_record_recv]) on the socket returns: an error
    ([errno] after a [-1], or the negative GnuTLS code), or the bytes that
    were available; the caller receives at most as many as it asked for. *)
Inductive rd_ev : Type :=
| RdErr (code : Z)
| RdData (bs : list octet).

(** What one [write] (or [gnutls_record_send]) returns: an error, or the
    number of bytes the channel is ready to take. *)
Inductive wr_ev : Type :=
| WrErr (code : Z)
| WrLen (n : nat).

Inductive sys_event : Type :=
| EvRead (len : Z) (r : rd_ev)
| EvWrite (data : list octet) (r : wr_ev)
| EvBye
| EvClose (fd : Z)
| EvFree (p : cstring)
| EvExec (command : cstring) (argv : list cstring).

(** The world as the driver sees it: [incoming] and [outgoing] say what the
    successive reads and writes on the socket will return, [events] records
    what the driver has done so far, oldest first.  Once [incoming] is
    exhausted the peer has closed the stream ([read] returns 0); once
    [outgoing] is exhausted every write is taken whole. *)
Record world : Type := mk_world {
  incoming : list rd_ev;
  outgoing : list wr_ev;
  events : list sys_event
}.

Definition EINTR : Z := 4.
Definition EAGAIN : Z := 11.
Definition GNUTLS_E_AGAIN : Z := -28.
Definition GNUTLS_E_INTERRUPTED : Z := -52.

(** The test behind the [continue] of the I/O loops. *)
Definition transient (tls : bool) (code : Z) : bool :=
  if tls then (code =? GNUTLS_E_INTERRUPTED) || (code =? GNUTLS_E_AGAIN)
  else (code =? EINTR) || (code =? EAGAIN).

(** The error raised when the channel reports a failure that is not
    transient; the text comes from [gnutls_strerror] or [strerror]. *)
Definition io_error {E} (tls in_open : bool) (code : Z) : raised E :=
  if tls then Raise (negb in_open) VIR_ERR_GNUTLS_ERROR "gnutls_strerror" [code]
  else Raise (negb in_open) VIR_ERR_SYSTEM_ERROR "strerror" [code].

(** The lengths asked for by the reads recorded in [evs], oldest first. *)
Fixpoint read_lengths (evs : list sys_event) : list Z :=
  match evs with
  | [] => []
  | EvRead len _ :: rest => len :: read_lengths rest
  | _ :: rest => read_lengths rest
  end%list.

Section Engine.

Context {P : remote_protocol}.
(** The type of the error record of the protocol and its decoder
    [xdr_remote_error], both from the generated protocol code. *)
Variable E : Type.
Variable xdr_remote_error : list octet -> option E.

(** The [do ... while (len > 0)] loop of [really_read]; a [continue] inside
    a [do]-[while] goes to the test of the loop. *)
Fixpoint really_read_loop (tls in_open : bool) (script : list rd_ev) (len : Z)
         (got : list octet) (evs : list sys_event)
  : outcome E (list octet) * list rd_ev * list sys_event :=
  match script with
  | [] =>
      (Fail (error (negb in_open) VIR_ERR_RPC "socket closed unexpectedly"),
       [], evs ++ [EvRead len (RdData [])])%list
  | RdErr code :: script' =>
      let evs := (evs ++ [EvRead len (RdErr code)])%list in
      if transient tls code then
        if 0 <? len then really_read_loop tls in_open script' len got evs
        else (Ok got, script', evs)
      else (Fail (io_error tls in_open code), script', evs)
  | RdData bs :: script' =>
      let data := firstn (Z.to_nat len) bs in
      let evs := (evs ++ [EvRead len (RdData data)])%list in
      match data with
      | [] =>
          (Fail (error (negb in_open) VIR_ERR_RPC "socket closed unexpectedly"),
           script', evs)
      | _ =>
          let len := len - Z.of_nat (length data) in
          if 0 <? len
          then really_read_loop tls in_open script' len (got ++ data)%list evs
          else (Ok (got ++ data)%list, script', evs)
      end
  end.

(** The loop of [really_write]; [p] is what is left to send and [len] its
    length. *)
Fixpoint really_write_loop (tls in_open : bool) (script : list wr_ev)
         (p : list octet) (evs : list sys_event)
  : outcome E unit * list wr_ev * list sys_event :=
  match script with
  | [] => (Ok tt, [], evs ++ [EvWrite p (WrLen (length p))])%list
  | WrErr code :: script' =>
      let evs := (evs ++ [EvWrite [] (WrErr code)])%list in
      if transient tls code then
        if 0 <? Z.of_nat (length p) then really_write_loop tls in_open script' p evs
        else (Ok tt, script', evs)
      else (Fail (io_error tls in_open code), script', evs)
  | WrLen n :: script' =>
      let sent := firstn n p in
      let evs := (evs ++ [EvWrite sent (WrLen (length sent))])%list in
      let p := skipn n p in
      if 0 <? Z.of_nat (length p) then really_write_loop tls in_open script' p evs
      else (Ok tt, script', evs)
  end.

(** Per-connection private data. *)
Record private_data : Type := mk_priv {
  magic : Z;                    (* Should be MAGIC or DEAD. *)
  sock : Z;                     (* Socket. *)
  uses_tls : bool;              (* TLS enabled on socket? *)
  session : option Z;           (* GnuTLS session (if uses_tls). *)
  type_ : option cstring;       (* Cached return from remoteType. *)
  counter : Z                   (* Generates serial numbers for RPC. *)
}.

Definition MAGIC : Z := 999.
Definition DEAD : Z := 998.

Definition really_write (priv : private_data) (in_open : bool)
           (bytes : list octet) (w : world) : outcome E unit * world :=
  let '(r, out, evs) :=
    really_write_loop (uses_tls priv) in_open (outgoing w) bytes (events w) in
  (r, mk_world (incoming w) out evs).

Definition really_read (priv : private_data) (in_open : bool)
           (len : Z) (w : world) : outcome E (list octet) * world :=
  let '(r, inc, evs) :=
    really_read_loop (uses_tls priv) in_open (incoming w) len [] (events w) in
  (r, mk_world inc (outgoing w) evs).

Definition set_counter (priv : private_data) (c : Z) : private_data :=
  mk_priv (magic priv) (sock priv) (uses_tls priv) (session priv) (type_ priv) c.

(** The reply header is checked field by field, in this order. *)
Definition check_header (in_open : bool) (proc_nr ser : Z)
           (hdr : remote_message_header) : option (raised E) :=
  let raise fmt got want :=
    Some (Raise (negb in_open) VIR_ERR_RPC fmt [got; want]) in
  if negb (prog hdr =? uint32 REMOTE_PROGRAM) then
    raise "unknown program (received %x, expected %x)"%string
          (prog hdr) REMOTE_PROGRAM
  else if negb (vers hdr =? uint32 REMOTE_PROTOCOL_VERSION) then
    raise "unknown protocol version (received %x, expected %x)"%string
          (vers hdr) REMOTE_PROTOCOL_VERSION
  else if negb (proc hdr =? uint32 proc_nr) then
    raise "unknown procedure (received %x, expected %x)"%string
          (proc hdr) proc_nr
  else if negb (direction hdr =? uint32 REMOTE_REPLY) then
    raise "unknown direction (received %x, expected %x)"%string
          (direction hdr) REMOTE_REPLY
  else if negb (serial hdr =? uint32 ser) then
    raise "unknown serial (received %x, expected %x)"%string
          (serial hdr) ser
  else None.

(** The [switch (hdr.status)] at the end of [call]; [body] is what follows
    the header in the reply. *)
Definition dispatch_status {R} (in_open : bool) (ret_filter : list octet -> option R)
           (hdr : remote_message_header) (body : list octet) : outcome E R :=
  if status hdr =? uint32 REMOTE_OK then
    match ret_filter body with
    | Some r => Ok r
    | None => Fail (error (negb in_open) VIR_ERR_RPC "unmarshalling ret")
    end
  else if status hdr =? uint32 REMOTE_ERROR then
    match xdr_remote_error body with
    | Some rerror => Fail (RaiseServer (negb in_open) rerror)
    | None => Fail (error (negb in_open) VIR_ERR_RPC "unmarshalling remote_error")
    end
  else
    Fail (Raise (negb in_open) VIR_ERR_RPC "unknown status (received %x)" [status hdr]).

(** The header of the request for procedure [proc_nr] with serial [ser]. *)
Definition request_header (proc_nr ser : Z) : remote_message_header :=
  mk_header REMOTE_PROGRAM REMOTE_PROTOCOL_VERSION proc_nr REMOTE_CALL ser REMOTE_OK.

(** The first part of [call]: serialise the header and the arguments into
    the buffer of [REMOTE_MESSAGE_MAX] bytes, then send the length word and
    the buffer.  [args] is what [args_filter] appends to the buffer for the
    arguments at hand, or [None] when it refuses them. *)
Definition call_send (priv : private_data) (in_open : bool) (proc_nr ser : Z)
           (args : option (list octet)) (w : world) : outcome E unit * world :=
  let hdr := request_header proc_nr ser in
  (* Serialise header followed by args. *)
  if REMOTE_MESSAGE_MAX <? 24 then
    (Fail (error (negb in_open) VIR_ERR_RPC "xdr_remote_message_header"), w)
  else
    match args with
    | None => (Fail (error (negb in_open) VIR_ERR_RPC "marshalling args"), w)
    | Some a =>
        if REMOTE_MESSAGE_MAX <? 24 + Z.of_nat (length a) then
          (Fail (error (negb in_open) VIR_ERR_RPC "marshalling args"), w)
        else
          let buffer := (xdr_remote_message_header_encode hdr ++ a)%list in
          (* Length must include the length word itself. *)
          let len := Z.of_nat (length buffer) + 4 in
          let buffer2 := xdr_put32 len in
          (* Send length word followed by header+args. *)
          match really_write priv in_open buffer2 w with
          | (Ok _, w) => really_write priv in_open buffer w
          | other => other
          end
    end.

(** The second part of [call], once the length word of the reply has been
    read into [buffer2]: decode it, check it, read the rest of the reply and
    decode its header. *)
Definition call_receive (priv : private_data) (in_open : bool)
           (buffer2 : list octet) (w : world)
  : outcome E (remote_message_header * list octet) * world :=
  match xdr_int_decode buffer2 with
  | None =>
      (Fail (error (negb in_open) VIR_ERR_RPC "xdr_int (length word, reply)"), w)
  | Some (len, _) =>
      (* Length includes length word - adjust to real length to read. *)
      let len := int32 (len - 4) in
      if (len <? 0) || (len >? REMOTE_MESSAGE_MAX) then
        (Fail (error (negb in_open) VIR_ERR_RPC
                     "packet received from server too large"), w)
      else
        (* Read reply header and what follows (either a ret or an error). *)
        match really_read priv in_open len w with
        | (Ok buffer, w) =>
            match xdr_remote_message_header_decode buffer with
            | None =>
                (Fail (error (negb in_open) VIR_ERR_RPC
                             "xdr_remote_message_header (reply)"), w)
            | Some reply => (Ok reply, w)
            end
        | (Fail e, w) => (Fail e, w)
        | (Abort, w) => (Abort, w)
        end
  end.

(** Request out, reply in, up to the decoded reply header. *)
Definition call_exchange (priv : private_data) (in_open : bool) (proc_nr ser : Z)
           (args : option (list octet)) (w : world)
  : outcome E (remote_message_header * list octet) * world :=
  match call_send priv in_open proc_nr ser args w with
  | (Ok _, w) =>
      (* Read and deserialise length word. *)
      match really_read priv in_open 4 w with
      | (Ok buffer2, w) => call_receive priv in_open buffer2 w
      | (Fail e, w) => (Fail e, w)
      | (Abort, w) => (Abort, w)
      end
  | (Fail e, w) => (Fail e, w)
  | (Abort, w) => (Abort, w)
  end.

(** The serial number [call] gives to the message it sends for [priv]. *)
Definition serial_assigned (priv : private_data) : Z := counter priv.

(** The private data once [priv->counter++] has been done. *)
Definition next_serial (priv : private_data) : private_data :=
  set_counter priv (int32 (counter priv + 1)).

(** [call (conn, priv, in_open, proc_nr, args_filter, args, ret_filter, ret)];
    [ret_filter] decodes what follows the header of the reply. *)
Definition call {R} (priv : private_data) (in_open : bool) (proc_nr : Z)
           (args : option (list octet)) (ret_filter : list octet -> option R)
           (w : world) : outcome E R * private_data * world :=
  (* Get a unique serial number for this message. *)
  let ser := serial_assigned priv in
  let priv := next_serial priv in
  match call_exchange priv in_open proc_nr ser args w with
  | (Ok (hdr, body), w) =>
      (* Check program, version, etc. are what we expect. *)
      match check_header in_open proc_nr ser hdr with
      | Some e => (Fail e, priv, w)
      | None => (dispatch_status in_open ret_filter hdr body, priv, w)
      end
  | (Fail e, w) => (Fail e, priv, w)
  | (Abort, w) => (Abort, priv, w)
  end.

(* ------------------------------------------------------------------ *)
(** ** Driver operations *)

(** The XDR filters of the generated protocol code that the operations below
    hand to [call]: encoders give the bytes they append (or refuse), decoders
    read what follows the reply header. *)
Class remote_xdr : Type := {
  xdr_remote_open_args : cstring -> Z -> option (list octet);
  xdr_remote_get_type_ret : list octet -> option cstring;
  xdr_remote_get_version_ret : list octet -> option Z;
  xdr_remote_get_max_vcpus_args : option cstring -> option (list octet);
  xdr_remote_get_max_vcpus_ret : list octet -> option Z;
  xdr_remote_list_domains_args : Z -> option (list octet);
  xdr_remote_list_domains_ret : list octet -> option (list Z);
  xdr_remote_num_of_domains_ret : list octet -> option Z
}.
Context {X : remote_xdr}.

(** [xdr_void] as an argument filter appends nothing. *)
Definition no_args : option (list octet) := Some []%list.

(** The connection handle as far as this driver is concerned: its
    [privateData] pointer. *)
Definition virConnect := option private_data.

Definition log (ev : sys_event) (w : world) : world :=
  mk_world (incoming w) (outgoing w) (events w ++ [ev])%list.

Definition closed_handle : raised E :=
  error true VIR_ERR_INVALID_ARG "tried to use a closed or uninitialised handle".

(** The macro at the head of every operation; [body] is the rest of the
    function. *)
Definition GET_PRIVATE {A} (conn : virConnect) (w : world)
           (body : private_data -> outcome E A * private_data * world)
  : outcome E A * virConnect * world :=
  match conn with
  | None => (Abort, conn, w)                       (* assert (priv) *)
  | Some priv =>
      if magic priv =? DEAD then (Fail closed_handle, conn, w)
      else if negb (magic priv =? MAGIC) then (Abort, conn, w)
      else let '(r, priv, w) := body priv in (r, Some priv, w)
  end.

Definition remoteClose (conn : virConnect) (w : world)
  : outcome E Z * virConnect * world :=
  GET_PRIVATE conn w (fun priv =>
    match call priv false REMOTE_PROC_CLOSE no_args xdr_void w with
    | (Ok _, priv, w) =>
        (* Close socket. *)
        let w := match uses_tls priv, session priv with
                 | true, Some _ => log EvBye w
                 | _, _ => w
                 end in
        let w := log (EvClose (sock priv)) w in
        (* See comment for remoteType. *)
        let w := match type_ priv with
                 | Some t => log (EvFree t) w
                 | None => w
                 end in
        (Ok 0, priv, w)
    | (Fail e, priv, w) => (Fail e, priv, w)
    | (Abort, priv, w) => (Abort, priv, w)
    end).

Definition set_type (priv : private_data) (t : cstring) : private_data :=
  mk_priv (magic priv) (sock priv) (uses_tls priv) (session priv) (Some t)
          (counter priv).

Definition remoteType (conn : virConnect) (w : world)
  : outcome E cstring * virConnect * world :=
  GET_PRIVATE conn w (fun priv =>
    (* Cached? *)
    match type_ priv with
    | Some t => (Ok t, priv, w)
    | None =>
        match call priv false REMOTE_PROC_GET_TYPE no_args
                   xdr_remote_get_type_ret w with
        | (Ok t, priv, w) => (Ok t, set_type priv t, w)      (* Stash. *)
        | (Fail e, priv, w) => (Fail e, priv, w)
        | (Abort, priv, w) => (Abort, priv, w)
        end
    end).

(** [remoteVersion (conn, &hvVer)] with [hvVer] not NULL: the value is the
    return code together with what is stored in [hvVer], an [unsigned long]
    of 64 bits. *)
Definition remoteVersion (conn : virConnect) (w : world)
  : outcome E (Z * Z) * virConnect * world :=
  GET_PRIVATE conn w (fun priv =>
    match call priv false REMOTE_PROC_GET_VERSION no_args
               xdr_remote_get_version_ret w with
    | (Ok hv_ver, priv, w) => (Ok (0, hv_ver mod 2^64), priv, w)
    | (Fail e, priv, w) => (Fail e, priv, w)
    | (Abort, priv, w) => (Abort, priv, w)
    end).

Definition remoteGetMaxVcpus (conn : virConnect) (type : option cstring) (w : world)
  : outcome E Z * virConnect * world :=
  GET_PRIVATE conn w (fun priv =>
    call priv false REMOTE_PROC_GET_MAX_VCPUS
         (xdr_remote_get_max_vcpus_args type) xdr_remote_get_max_vcpus_ret w).

(** [remoteListDomains (conn, ids, maxids)]: the value is the return code
    together with what has been copied into [ids]. *)
Definition remoteListDomains (conn : virConnect) (maxids : Z) (w : world)
  : outcome E (Z * list Z) * virConnect * world :=
  GET_PRIVATE conn w (fun priv =>
    if maxids >? REMOTE_DOMAIN_ID_LIST_MAX then
      (Fail (error true VIR_ERR_RPC "maxids > REMOTE_DOMAIN_ID_LIST_MAX"), priv, w)
    else
      match call priv false REMOTE_PROC_LIST_DOMAINS
                 (xdr_remote_list_domains_args maxids)
                 xdr_remote_list_domains_ret w with
      | (Ok ids, priv, w) =>
          if Z.of_nat (length ids) >? uint32 maxids then
            (Fail (error true VIR_ERR_RPC "ret.ids.ids_len > maxids"), priv, w)
          else (Ok (Z.of_nat (length ids), ids), priv, w)
      | (Fail e, priv, w) => (Fail e, priv, w)
      | (Abort, priv, w) => (Abort, priv, w)
      end).

Definition remoteNumOfDomains (conn : virConnect) (w : world)
  : outcome E Z * virConnect * world :=
  GET_PRIVATE conn w (fun priv =>
    call priv false REMOTE_PROC_NUM_OF_DOMAINS no_args
         xdr_remote_num_of_domains_ret w).

(** [remoteNetworkClose]: nothing is passed to the remote side, the caller
    is about to call [remoteClose]. *)
Definition remoteNetworkClose (conn : virConnect) (w : world)
  : outcome E Z * virConnect * world :=
  (Ok 0, conn, w).

Inductive op_value : Type :=
| RetInt (n : Z)
| RetString (s : cstring)
| RetVersion (rc hvVer : Z)
| RetIds (rc : Z) (ids : list Z).

(** The operations above behind one entry point, as the dispatch tables of
    the driver offer them.  [OpOther] stands for any of the remaining
    entries: each of them is the macro [GET_PRIVATE] followed by a body of
    its own. *)
Inductive driver_op : Type :=
| OpNetworkClose
| OpClose
| OpType
| OpVersion
| OpGetMaxVcpus (type : option cstring)
| OpListDomains (maxids : Z)
| OpNumOfDomains
| OpOther (body : private_data -> world -> outcome E op_value * private_data * world).

Definition map_outcome {A B} (f : A -> B) (r : outcome E A) : outcome E B :=
  match r with
  | Ok a => Ok (f a)
  | Fail e => Fail e
  | Abort => Abort
  end.

Definition lift_op {A} (f : A -> op_value)
           (r : outcome E A * virConnect * world)
  : outcome E op_value * virConnect * world :=
  let '(o, conn, w) := r in (map_outcome f o, conn, w).

Definition run_op (op : driver_op) (conn : virConnect) (w : world)
  : outcome E op_value * virConnect * world :=
  match op with
  | OpNetworkClose => lift_op RetInt (remoteNetworkClose conn w)
  | OpClose => lift_op RetInt (remoteClose conn w)
  | OpType => lift_op RetString (remoteType conn w)
  | OpVersion => lift_op (fun '(rc, v) => RetVersion rc v) (remoteVersion conn w)
  | OpGetMaxVcpus type => lift_op RetInt (remoteGetMaxVcpus conn type w)
  | OpListDomains maxids =>
      lift_op (fun '(rc, ids) => RetIds rc ids) (remoteListDomains conn maxids w)
  | OpNumOfDomains => lift_op RetInt (remoteNumOfDomains conn w)
  | OpOther body => GET_PRIVATE conn w (fun priv => body priv w)
  end.

(** A sequence of operations on one handle: the outcomes in order, and the
    handle and the world at the end. *)
Fixpoint run_ops (ops : list driver_op) (conn : virConnect) (w : world)
  : list (outcome E op_value) * virConnect * world :=
  match ops with
  | [] => ([], conn, w)
  | op :: rest =>
      let '(r, conn, w) := run_op op conn w in
      let '(rs, conn, w) := run_ops rest conn w in
      (r :: rs, conn, w)
  end%list.

(* ------------------------------------------------------------------ *)
(** ** Opening a connection *)

(** The fields of libxml2's [xmlURI] that [remoteOpen] looks at; a NULL
    pointer is [None], [uri_query] is the raw query string. *)
Record xmlURI : Type := mk_uri {
  uri_scheme : option cstring;
  uri_server : option cstring;
  uri_user : option cstring;
  uri_port : Z;
  uri_path : option cstring;
  uri_query : option cstring
}.

(** Supported transports. *)
Inductive transport : Type :=
| trans_tls
| trans_unix
| trans_ssh
| trans_ext
| trans_tcp.

(** In a string "driver+transport" return a pointer to "transport". *)
Definition get_transport_from_scheme (scheme : cstring) : option cstring :=
  match strchr scheme "+" with
  | Some i => Some (skipn (S i) scheme)
  | None => None
  end.

(** The chain of [strcasecmp] tests that picks the transport; [None] is the
    branch that reports an unrecognised transport. *)
Definition what_transport (transport_str : option cstring) : option transport :=
  match transport_str with
  | None => Some trans_tls
  | Some t =>
      if strcaseeq t (lit "tls") then Some trans_tls
      else if strcaseeq t (lit "unix") then Some trans_unix
      else if strcaseeq t (lit "ssh") then Some trans_ssh
      else if strcaseeq t (lit "ext") then Some trans_ext
      else if strcaseeq t (lit "tcp") then Some trans_tcp
      else None
  end.

Definition isspace (c : ascii) : bool :=
  Ascii.eqb c " " || in_range (ascii_of_N 9) (ascii_of_N 13) c.

Fixpoint atoi_digits (s : cstring) (acc : Z) : Z :=
  match s with
  | c :: t => if is_digit c
              then atoi_digits t (acc * 10 + Z.of_N (N_of_ascii c - N_of_ascii "0"))
              else acc
  | [] => acc
  end%list.

Fixpoint atoi_skip (s : cstring) : cstring :=
  match s with
  | c :: t => if isspace c then atoi_skip t else s
  | [] => []
  end%list.

Definition LONG_MAX : Z := 2^63 - 1.
Definition LONG_MIN : Z := - 2^63.

(** [strtol (s, NULL, 10)] with a [long] of 64 bits: leading white space, an
    optional sign, then decimal digits; a value out of the range of [long]
    is replaced by [LONG_MAX] or [LONG_MIN]. *)
Definition strtol (s : cstring) : Z :=
  match atoi_skip s with
  | "-"%char :: t => Z.max LONG_MIN (- atoi_digits t 0)
  | "+"%char :: t => Z.min LONG_MAX (atoi_digits t 0)
  | t => Z.min LONG_MAX (atoi_digits t 0)
  end%list.

(** [atoi] as the C library has it: [(int) strtol (s, NULL, 10)]. *)
Definition atoi (s : cstring) : Z := int32 (strtol s).

(** The variables that the loop over the query fields fills in. *)
Record open_vars : Type := mk_vars {
  v_name : option cstring;
  v_command : option cstring;
  v_sockname : option cstring;
  v_netcat : option cstring;
  v_no_verify : Z
}.

Definition set_ignore (var : query_fields) : query_fields :=
  mk_field (name var) (value var) true.

(** One turn of the loop over [vars]: a field with a reserved name is copied
    into its variable and marked to be ignored, any other field is left as it
    is. *)
Definition get_var (var : query_fields) (v : open_vars) : query_fields * open_vars :=
  if strcaseeq (name var) (lit "name") then
    (set_ignore var,
     mk_vars (Some (value var)) (v_command v) (v_sockname v) (v_netcat v) (v_no_verify v))
  else if strcaseeq (name var) (lit "command") then
    (set_ignore var,
     mk_vars (v_name v) (Some (value var)) (v_sockname v) (v_netcat v) (v_no_verify v))
  else if strcaseeq (name var) (lit "socket") then
    (set_ignore var,
     mk_vars (v_name v) (v_command v) (Some (value var)) (v_netcat v) (v_no_verify v))
  else if strcaseeq (name var) (lit "netcat") then
    (set_ignore var,
     mk_vars (v_name v) (v_command v) (v_sockname v) (Some (value var)) (v_no_verify v))
  else if strcaseeq (name var) (lit "no_verify") then
    (set_ignore var,
     mk_vars (v_name v) (v_command v) (v_sockname v) (v_netcat v) (atoi (value var)))
  else (var, v).

Fixpoint get_vars (vars : list query_fields) (v : open_vars)
  : list query_fields * open_vars :=
  match vars with
  | [] => ([], v)
  | var :: rest =>
      let (var, v) := get_var var v in
      let (rest, v) := get_vars rest v in
      (var :: rest, v)
  end%list.

(** The name handed to the server: the [name] variable of the query, or what
    [xmlSaveUri] prints for the URI stripped of transport, user, server and
    port. *)
Inductive open_name : Type :=
| NameGiven (s : cstring)
| NameSaved (uri : xmlURI).

(** What the second half of [remoteOpen] works from. *)
Record open_params : Type := mk_params {
  o_transport : transport;
  o_server : cstring;
  o_port : option cstring;
  o_username : option cstring;
  o_name : open_name;
  o_command : option cstring;
  o_sockname : option cstring;
  o_netcat : option cstring;
  o_no_verify : Z;
  o_query : option cstring
}.

Inductive open_decision : Type :=
| Declined
| OpenError (e : raised E)
| Proceed (params : open_params).

Definition print_int (n : Z) : cstring :=
  lit (NilZero.string_of_int (Z.to_int n)).

(** The scheme with the transport cut off at the ['+']. *)
Definition strip_transport (scheme : cstring) : cstring :=
  fst (break_at "+" scheme).

(** The query string of the URI parsed and run through the loop over its
    fields. *)
Definition query_fields_and_vars (uri : xmlURI) : list query_fields * open_vars :=
  get_vars match uri_query uri with
           | Some q => query_parse q
           | None => []%list
           end
           (mk_vars None None None None 0).


(** [remoteOpen] from its start to the point where it connects, when no
    allocation fails.  [uri] is what [xmlParseURI (uri_str)] returned, or
    [None] when [uri_str] is NULL or does not parse. *)
Definition remoteOpen_params (uri : option xmlURI) : open_decision :=
  match uri with
  | None => Declined
  | Some uri =>
  match uri_scheme uri with
  | None => Declined                               (* Decline - not a URL. *)
  | Some scheme =>
      let transport_str := get_transport_from_scheme scheme in
      match uri_server uri, transport_str with
      | None, None => Declined                     (* Decline - not a remote URL. *)
      | _, _ =>
      (* What transport? *)
      match what_transport transport_str with
      | None =>
          OpenError (error false VIR_ERR_INVALID_ARG
            "remote_open: transport in URL not recognised (should be tls|unix|ssh|ext|tcp)")
      | Some transport =>
          (* Remote server defaults to "localhost" if not specified. *)
          let server := match uri_server uri with
                        | Some s => s
                        | None => lit "localhost"
                        end in
          let '(port, username) :=
            if negb (uri_port uri =? 0) then (Some (print_int (uri_port uri)), None)
            else match transport with
                 | trans_tls => (Some LIBVIRTD_TLS_PORT, None)
                 | trans_tcp => (Some LIBVIRTD_TCP_PORT, None)
                 | trans_ssh => (Some (lit "22"), uri_user uri)
                 | _ => (None, None)               (* Port not used for unix, ext. *)
                 end in
          (* Get the variables from the query string. *)
          let (vars, v) := query_fields_and_vars uri in
          let query := query_create vars in
          (* For ext transport, command is required. *)
          match transport, v_command v with
          | trans_ext, None =>
              OpenError (error false VIR_ERR_INVALID_ARG
                "remote_open: for 'ext' transport, command is required")
          | _, _ =>
              (* Construct the original name. *)
              let name :=
                match v_name v with
                | Some n => NameGiven n
                | None =>
                    NameSaved (mk_uri (Some (strip_transport scheme)) None None 0
                                      (uri_path uri) query)
                end in
              Proceed (mk_params transport server port username name
                                 (v_command v) (v_sockname v) (v_netcat v)
                                 (v_no_verify v) query)
          end
      end
      end
  end
  end.

(** What [remoteOpen] asks of the system to get its socket. *)
Inductive channel_request : Type :=
| ConnectTcp (server : cstring) (port : option cstring) (tls : bool) (no_verify : Z)
| ConnectUnix (sockname : cstring)
| Spawn (command : cstring) (argv : list cstring).

(** The [cmd_argv] array of the ssh transport, without its closing NULL. *)
Definition ssh_argv (p : open_params) (command : cstring) : list cstring :=
  ([command; lit "-p"; match o_port p with Some s => s | None => []%list end]
   ++ match o_username p with
      | Some u => [lit "-l"; u]
      | None => []
      end
   ++ [o_server p;
       match o_netcat p with Some n => n | None => lit "nc" end;
       lit "-U";
       match o_sockname p with Some s => s | None => LIBVIRTD_UNIX_SOCKET end])%list.

Definition VIR_CONNECT_RO : Z := 1.

(** The [switch (transport)] of [remoteOpen] up to the system calls. *)
Definition channel_of (p : open_params) (flags : Z) : channel_request :=
  match o_transport p with
  | trans_tls => ConnectTcp (o_server p) (o_port p) true (o_no_verify p)
  | trans_tcp => ConnectTcp (o_server p) (o_port p) false (o_no_verify p)
  | trans_unix =>
      ConnectUnix match o_sockname p with
                  | Some s => s
                  | None => if Z.land flags VIR_CONNECT_RO =? 0
                            then LIBVIRTD_UNIX_SOCKET
                            else LIBVIRTD_UNIX_SOCKET_RO
                  end
  | trans_ssh =>
      let command := match o_command p with
                     | Some c => c
                     | None => lit "ssh"
                     end in
      Spawn command (ssh_argv p command)
  | trans_ext =>
      let command := match o_command p with
                     | Some c => c
                     | None => []%list
                     end in
      Spawn command [command]
  end.

(** How the system calls of the [switch (transport)] end: with a connected
    socket (and a TLS session for the tls transport), or at [goto failed]
    after the errors [errs] have been raised, with [priv.sock],
    [priv.uses_tls] and [priv.session] as they are at that point. *)
Inductive established : Type :=
| ChannelUp (fd : Z) (sess : option Z)
| ChannelDown (errs : list (raised E)) (fd : Z) (tls : bool) (sess : option Z).

(** The system side of connecting: address resolution, [socket], [connect],
    the TLS handshake, [socketpair] and [fork]. *)
Variable establish : channel_request -> world -> established * world.

(** [xmlSaveUri]; NULL is [None]. *)
Variable xmlSaveUri : xmlURI -> option cstring.

Inductive open_result : Type :=
| VIR_DRV_OPEN_SUCCESS
| VIR_DRV_OPEN_ERROR (errs : list (raised E))
| VIR_DRV_OPEN_DECLINED
| OpenAbort.

(** The private data [remoteOpen] starts from. *)
Definition fresh_priv : private_data := mk_priv DEAD (-1) false None None 0.

Definition set_magic (priv : private_data) (m : Z) : private_data :=
  mk_priv m (sock priv) (uses_tls priv) (session priv) (type_ priv) (counter priv).

(** The code after the label [failed] when [retcode] is not success: close
    the socket if there is one. *)
Definition open_failed (priv : private_data) (w : world) : world :=
  if 0 <=? sock priv then
    let w := match uses_tls priv, session priv with
             | true, Some _ => log EvBye w
             | _, _ => w
             end in
    log (EvClose (sock priv)) w
  else w.

Definition is_tls (t : transport) : bool :=
  match t with trans_tls => true | _ => false end.

Definition remoteOpen (conn : virConnect) (uri : option xmlURI) (flags : Z)
           (w : world) : open_result * virConnect * world :=
  match remoteOpen_params uri with
  | Declined => (VIR_DRV_OPEN_DECLINED, conn, w)
  | OpenError e => (VIR_DRV_OPEN_ERROR [e], conn, w)
  | Proceed p =>
      let name := match o_name p with
                  | NameGiven n => Some n
                  | NameSaved u => xmlSaveUri u
                  end in
      match name with
      | None => (OpenAbort, conn, w)               (* assert (name) *)
      | Some name =>
          (* Connect to the remote service. *)
          match establish (channel_of p flags) w with
          | (ChannelDown errs fd tls sess, w) =>
              let priv := mk_priv DEAD fd tls sess None 0 in
              (VIR_DRV_OPEN_ERROR errs, conn, open_failed priv w)
          | (ChannelUp fd sess, w) =>
              let priv := mk_priv DEAD fd (is_tls (o_transport p)) sess None 0 in
              (* Finally we can call the remote side's open function. *)
              match call priv true REMOTE_PROC_OPEN
                         (xdr_remote_open_args name flags) xdr_void w with
              | (Ok _, priv, w) =>
                  (* Finally allocate private data. *)
                  (VIR_DRV_OPEN_SUCCESS, Some (set_magic priv MAGIC), w)
              | (Fail e, priv, w) =>
                  (VIR_DRV_OPEN_ERROR [e], conn, open_failed priv w)
              | (Abort, priv, w) => (OpenAbort, conn, w)
              end
          end
      end
  end.

(** One remote procedure call as [call] receives it. *)
Record rpc : Type := mk_rpc {
  rpc_in_open : bool;
  rpc_proc : Z;
  rpc_args : option (list octet);
  rpc_ret : list octet -> option unit
}.

(** Calls made one after the other on the same private data: the serial
    numbers they were given, in order, and the state at the end. *)
Fixpoint run_calls (cs : list rpc) (priv : private_data) (w : world)
  : list Z * private_data * world :=
  match cs with
  | [] => ([], priv, w)
  | c :: rest =>
      let '(_, priv', w') :=
        call priv (rpc_in_open c) (rpc_proc c) (rpc_args c) (rpc_ret c) w in
      let '(sers, priv'', w'') := run_calls rest priv' w' in
      (serial_assigned priv :: sers, priv'', w'')
  end%list.

(** The port [remoteOpen] falls back on when the URI gives none. *)
Definition default_port (t : transport) : option cstring :=
  match t with
  | trans_tls => Some LIBVIRTD_TLS_PORT
  | trans_tcp => Some LIBVIRTD_TCP_PORT
  | trans_ssh => Some (lit "22")
  | trans_unix | trans_ext => None
  end.

(** The reply header agrees with the request: same program, version,
    procedure and serial as were sent, and the direction of a reply. *)
Definition answers (proc_nr ser : Z) (hdr : remote_message_header) : Prop :=
  let req := request_header proc_nr ser in
  prog hdr = uint32 (prog req)
  /\ vers hdr = uint32 (vers req)
  /\ proc hdr = uint32 (proc req)
  /\ serial hdr = uint32 (serial req)
  /\ direction hdr = uint32 REMOTE_REPLY.

(** What [remoteClose] does to the world once the close RPC has succeeded:
    the TLS bye when TLS is in use, then [close] on the socket, then [free]
    of the cached type. *)
Definition teardown (priv : private_data) : list sys_event :=
  ((match uses_tls priv, session priv with
    | true, Some _ => [EvBye]
    | _, _ => []
    end)
   ++ [EvClose (sock priv)]
   ++ match type_ priv with
      | Some t => [EvFree t]
      | None => []
      end)%list.

End Engine.

Arguments really_read_loop {E}.
Arguments really_write_loop {E}.
Arguments really_read {E}.
Arguments really_write {E}.
Arguments call_send {P E}.
Arguments call_receive {P E}.
Arguments call_exchange {P E}.
Arguments check_header {P E}.
Arguments closed_handle {E}.
Arguments OpNetworkClose {E}.
Arguments OpClose {E}.
Arguments OpType {E}.
Arguments OpVersion {E}.
Arguments OpGetMaxVcpus {E}.
Arguments OpListDomains {E}.
Arguments OpNumOfDomains {E}.
Arguments OpOther {E}.
Arguments Declined {E}.
Arguments OpenError {E}.
Arguments Proceed {E}.
Arguments ChannelUp {E}.
Arguments ChannelDown {E}.
Arguments VIR_DRV_OPEN_SUCCESS {E}.
Arguments VIR_DRV_OPEN_ERROR {E}.
Arguments VIR_DRV_OPEN_DECLINED {E}.
Arguments OpenAbort {E}.

(* ------------------------------------------------------------------ *)
(** ** A concrete protocol *)

(** The values of the constants in libvirt's protocol definition and build
    configuration. *)
#[export] Instance libvirt_protocol : remote_protocol := {
  REMOTE_PROGRAM := 0x20008086;
  REMOTE_PROTOCOL_VERSION := 1;
  REMOTE_MESSAGE_MAX := 262144;
  REMOTE_CALL := 0;
  REMOTE_REPLY := 1;
  REMOTE_OK := 0;
  REMOTE_ERROR := 1;
  REMOTE_PROC_OPEN := 1;
  REMOTE_PROC_CLOSE := 2;
  REMOTE_PROC_GET_TYPE := 3;
  REMOTE_PROC_GET_VERSION := 4;
  REMOTE_PROC_GET_MAX_VCPUS := 5;
  REMOTE_PROC_LIST_DOMAINS := 37;
  REMOTE_PROC_NUM_OF_DOMAINS := 51;
  REMOTE_DOMAIN_ID_LIST_MAX := 16384;
  LIBVIRTD_TLS_PORT := lit "16514";
  LIBVIRTD_TCP_PORT := lit "16509";
  LIBVIRTD_UNIX_SOCKET := lit "/var/run/libvirt/libvirt-sock";
  LIBVIRTD_UNIX_SOCKET_RO := lit "/var/run/libvirt/libvirt-sock-ro"
}.

Fixpoint xdr_get_ints (n : nat) (bs : list octet) : option (list Z) :=
  match n with
  | O => Some []
  | S n' =>
      match xdr_int_decode bs with
      | Some (x, rest) =>
          match xdr_get_ints n' rest with
          | Some xs => Some (x :: xs)
          | None => None
          end
      | None => None
      end
  end%list.

Definition xdr_string_encode (s : cstring) : list octet :=
  (xdr_put32 (Z.of_nat (length s))
   ++ map (fun c => Z.of_N (N_of_ascii c)) s
   ++ repeat 0 ((4 - length s mod 4) mod 4))%list.

(** The characters of a counted string; the bytes that pad it to a multiple
    of four must be there. *)
Definition xdr_string_decode (bs : list octet) : option cstring :=
  match xdr_get32 bs with
  | Some (n, rest) =>
      if Z.of_nat (length rest) <? n + (4 - n mod 4) mod 4 then None
      else Some (map (fun b => ascii_of_N (Z.to_N (b mod 256)))
                     (firstn (Z.to_nat n) rest))
  | None => None
  end.

Definition xdr_int_only (bs : list octet) : option Z :=
  match xdr_int_decode bs with
  | Some (x, _) => Some x
  | None => None
  end.

(** [xdr_hyper] in decoding mode: eight bytes, high word first. *)
Definition xdr_hyper_only (bs : list octet) : option Z :=
  match xdr_int_decode bs with
  | Some (hi, rest) =>
      match xdr_get32 rest with
      | Some (lo, _) => Some (hi * 2^32 + lo)
      | None => None
      end
  | None => None
  end.

(** Filters in the XDR encoding for the procedures of the driver operations:
    strings and arrays carry their length in front, an optional value a flag,
    integers are four bytes and the version is eight. *)
#[export] Instance plain_xdr : remote_xdr := {
  xdr_remote_open_args := fun name flags =>
    Some (xdr_put32 1 ++ xdr_string_encode name ++ xdr_put32 flags)%list;
  xdr_remote_get_type_ret := xdr_string_decode;
  xdr_remote_get_version_ret := xdr_hyper_only;
  xdr_remote_get_max_vcpus_args := fun type =>
    match type with
    | Some t => Some (xdr_put32 1 ++ xdr_string_encode t)%list
    | None => Some (xdr_put32 0)
    end;
  xdr_remote_get_max_vcpus_ret := xdr_int_only;
  xdr_remote_list_domains_args := fun maxids => Some (xdr_put32 maxids);
  xdr_remote_list_domains_ret := fun bs =>
    match xdr_get32 bs with
    | Some (n, rest) => xdr_get_ints (Z.to_nat n) rest
    | None => None
    end;
  xdr_remote_num_of_domains_ret := xdr_int_only
}.

(** A server that sends its error record as a single integer, a system in
    which no channel can be set up, and a URI printer for the scenarios. *)
Definition int_error : list octet -> option Z := xdr_int_only.

Definition no_channel (r : channel_request) (w : world) : established Z * world :=
  (ChannelDown [] (-1) false None, w).

Definition save_path (u : xmlURI) : option cstring := uri_path u.

(** A peer that has closed the stream and a channel that takes every write
    whole. *)
Definition quiet : world := mk_world [] [] [].

(** A peer that answers with the frame [bs]: the length word first, the rest
    of the frame in a second read. *)
Definition reply (bs : list octet) : world :=
  mk_world [RdData (firstn 4 bs); RdData (skipn 4 bs)] [] [].

(** The URIs of the scenarios, as [xmlParseURI] decomposes them. *)
Definition ssh_uri : xmlURI :=
  mk_uri (Some (lit "qemu+ssh")) (Some (lit "host")) (Some (lit "alice")) 0
         (Some (lit "/system")) (Some (lit "netcat=ncat")).


Definition upper_uri : xmlURI :=
  mk_uri (Some (lit "qemu+TLS")) (Some (lit "host")) None 0
         (Some (lit "/system")) (Some (lit "NAME=qemu:///session&mode=fast")).

(** A handle that is open, on socket 7, five calls into its life. *)
Definition up : private_data := mk_priv MAGIC 7 false None None 5.

(** A peer that sends the length word 3 and nothing else. *)
Definition short_frame : world := mk_world [RdData (xdr_put32 3)] [] [].

Definition short_frame_sent : world :=
  Eval vm_compute in
    snd (call_send (E:=Z) (next_serial up) false REMOTE_PROC_CLOSE 5 no_args short_frame).

Definition short_frame_read : world :=
  Eval vm_compute in
    snd (really_read (E:=Z) (next_serial up) false 4 short_frame_sent).

(** A well-formed reply to call number 5 of procedure [proc_nr], padded so
    that its length word is [REMOTE_MESSAGE_MAX + 1]. *)
Definition long_frame (proc_nr : Z) : list octet :=
  (xdr_put32 (REMOTE_MESSAGE_MAX + 1)
   ++ xdr_remote_message_header_encode
        (mk_header REMOTE_PROGRAM REMOTE_PROTOCOL_VERSION proc_nr REMOTE_REPLY 5 REMOTE_OK)
   ++ repeat 0 (Z.to_nat (REMOTE_MESSAGE_MAX + 1 - 4 - 24)))%list.

(** A reply to call number 5 of the close procedure that carries the serial
    9 instead. *)
Definition wrong_serial_frame : list octet :=
  (xdr_put32 28
   ++ xdr_remote_message_header_encode
        (mk_header REMOTE_PROGRAM REMOTE_PROTOCOL_VERSION REMOTE_PROC_CLOSE
                   REMOTE_REPLY 9 REMOTE_OK))%list.

Definition wrong_serial_after : world :=
  Eval vm_compute in
    snd (call_exchange (E:=Z) (next_serial up) false REMOTE_PROC_CLOSE 5 no_args
                       (reply wrong_serial_frame)).

(** Private data with the magic [DEAD], as [remoteOpen] has them on its
    stack before it installs the handle. *)
Definition dead : private_data := mk_priv DEAD 7 false None None 5.

(** An open handle over TLS with the type of the hypervisor cached. *)
Definition tls_cached : private_data :=
  mk_priv MAGIC 7 true (Some 1) (Some (lit "QEMU")) 5.

Definition close_reply : list octet :=
  (xdr_put32 28
   ++ xdr_remote_message_header_encode
        (mk_header REMOTE_PROGRAM REMOTE_PROTOCOL_VERSION REMOTE_PROC_CLOSE
                   REMOTE_REPLY 5 REMOTE_OK))%list.

(** [errno] after a system call on a descriptor that is not open. *)
Definition EBADF : Z := 9.

(** An open handle on a plain socket with the type of the hypervisor
    cached; a peer that answers the close call; and a channel that takes the
    two writes of that call and then, the descriptor being closed, fails
    the next write with [EBADF]. *)
Definition plain_cached : private_data :=
  mk_priv MAGIC 7 false None (Some (lit "QEMU")) 5.

Definition closing_peer : world :=
  mk_world (incoming (reply close_reply)) [WrLen 4; WrLen 24; WrErr EBADF] [].

(** A call of the close procedure, as [remoteClose] makes it. *)
Definition ping : rpc := mk_rpc false REMOTE_PROC_CLOSE no_args xdr_void.

(* ------------------------------------------------------------------ *)
(** ** Virtual CPUs of a domain *)

(** What [make_nonnull_domain] copies from a [virDomainPtr]. *)
Record virDomain : Type := mk_domain {
  dom_name : cstring;
  dom_uuid : list octet;
  dom_id : Z
}.

Record virVcpuInfo : Type := mk_vcpu {
  number : Z;         (* virtual CPU number *)
  state : Z;          (* value from virVcpuState *)
  cpuTime : Z;        (* CPU time used, in nanoseconds *)
  cpu : Z             (* real CPU number, or -1 if offline *)
}.

Section Vcpus.

Context {P : remote_protocol}.
Variable E : Type.
Variable xdr_remote_error : list octet -> option E.

(** The limits and the procedure number of the protocol header, and the
    XDR filters for the arguments and the result: the result is the array of
    [remote_vcpu_info] and the bytes of the CPU maps. *)
Class remote_vcpus : Type := {
  REMOTE_PROC_DOMAIN_GET_VCPUS : Z;
  REMOTE_VCPUINFO_MAX : Z;
  REMOTE_CPUMAPS_MAX : Z;
  xdr_remote_domain_get_vcpus_args : virDomain -> Z -> Z -> option (list octet);
  xdr_remote_domain_get_vcpus_ret : list octet -> option (list virVcpuInfo * list octet)
}.
Context {V : remote_vcpus}.

(** [remoteDomainGetVcpus (domain, info, maxinfo, cpumaps, maplen)] on the
    domain of the connection [conn]: the value is the return code together
    with what the call has stored from [info] and from [cpumaps] on: the
    entries and bytes of the reply, followed by the zeros of [memset] up to
    [maxinfo] entries and [maxinfo * maplen] bytes where these sizes are
    larger.  The product is the [int] the code computes.  A negative size
    reaches [memset] converted to [size_t]; the value says what the code
    copies from the reply and returns, not what such a [memset] clears
    beyond the arrays. *)
Definition remoteDomainGetVcpus (conn : virConnect) (domain : virDomain)
           (maxinfo maplen : Z) (w : world)
  : outcome E (Z * list virVcpuInfo * list octet) * virConnect * world :=
  GET_PRIVATE conn w (fun priv =>
    if maxinfo >? REMOTE_VCPUINFO_MAX then
      (Fail (error true VIR_ERR_RPC "maxinfo > REMOTE_VCPUINFO_MAX"), priv, w)
    else if int32 (maxinfo * maplen) >? REMOTE_CPUMAPS_MAX then
      (Fail (error true VIR_ERR_RPC "maxinfo * maplen > REMOTE_CPUMAPS_MAX"), priv, w)
    else
      match call xdr_remote_error priv false REMOTE_PROC_DOMAIN_GET_VCPUS
                 (xdr_remote_domain_get_vcpus_args domain maxinfo maplen)
                 xdr_remote_domain_get_vcpus_ret w with
      | (Ok (info_val, cpumaps_val), priv, w) =>
          if Z.of_nat (length info_val) >? uint32 maxinfo then
            (Fail (error true VIR_ERR_RPC "ret.info.info_len > maxinfo"), priv, w)
          else if Z.of_nat (length cpumaps_val) >? uint32 (int32 (maxinfo * maplen)) then
            (Fail (error true VIR_ERR_RPC "ret.cpumaps.cpumaps_len > maxinfo * maplen"),
             priv, w)
          else
            (* The two arrays are cleared, then filled from the front. *)
            let info :=
              (info_val
               ++ repeat (mk_vcpu 0 0 0 0) (Z.to_nat maxinfo - length info_val))%list in
            let cpumaps :=
              (cpumaps_val
               ++ repeat 0 (Z.to_nat (int32 (maxinfo * maplen)) - length cpumaps_val))%list in
            (Ok (Z.of_nat (length info_val), info, cpumaps), priv, w)
      | (Fail e, priv, w) => (Fail e, priv, w)
      | (Abort, priv, w) => (Abort, priv, w)
      end).

End Vcpus.

(* ------------------------------------------------------------------ *)
(** ** Connecting: GnuTLS and the system calls of [remoteOpen] *)

Definition GNUTLS_E_UNEXPECTED_PACKET_LENGTH : Z := -9.
Definition GNUTLS_CERT_INVALID : Z := 2.
Definition GNUTLS_CERT_REVOKED : Z := 32.
Definition GNUTLS_CERT_SIGNER_NOT_FOUND : Z := 64.
Definition GNUTLS_CERT_INSECURE_ALGORITHM : Z := 256.
Definition GNUTLS_CRT_X509 : Z := 1.

(** The characters of a string that is printed into a message, as their
    codes. *)
Definition chars (s : cstring) : list Z := map (fun c => Z.of_N (N_of_ascii c)) s.

(** What GnuTLS reports for one certificate of the chain the peer sent: the
    results of [gnutls_x509_crt_init] and [gnutls_x509_crt_import], the two
    times, and whether the certificate is good for a host name. *)
Record peer_cert : Type := mk_cert {
  crt_init : Z;
  crt_import : Z;
  expiration_time : Z;
  activation_time : Z;
  check_hostname : cstring -> bool
}.

(** The GnuTLS side of one connection: the results of the calls that set up
    the session, what the successive calls of [gnutls_handshake] return (0
    once the list is exhausted), what [gnutls_certificate_verify_peers2]
    returns and stores in [status], [time (NULL)] and [errno] after it, the
    certificate type, the chain (NULL is [None]) and the session handle. *)
Record tls_peer : Type := mk_peer {
  session_init : Z;
  default_priority : Z;
  type_priority : Z;
  credentials_set : Z;
  handshakes : list Z;
  verify_peers2 : Z * Z;
  time_now : Z;
  time_errno : Z;
  certificate_type : Z;
  peers : option (list peer_cert);
  session_handle : Z
}.

(** One address of the list [getaddrinfo] returns: what [socket] and
    [connect] return for it (with [errno]), and the GnuTLS side of the
    connection to it. *)
Record address : Type := mk_addr {
  socket_ : Z * Z;
  connect_ : Z * Z;
  tls_side : tls_peer
}.

(** The system as the [switch (transport)] of [remoteOpen] meets it: the
    flag [initialised] of [initialise_gnutls] and the results of the three
    calls it makes, [getaddrinfo] on server and port (return code and
    list), [socket] and [connect] for the Unix socket, [socketpair] (return
    code, the two descriptors, [errno]) and [fork] (pid and [errno]). *)
Record network : Type := mk_net {
  initialised : bool;
  allocate_credentials : Z;
  set_x509_trust_file : Z;
  set_x509_key_file : Z;
  getaddrinfo : cstring -> option cstring -> Z * list address;
  unix_socket : Z * Z;
  unix_connect : Z * Z;
  socketpair : Z * (Z * Z) * Z;
  fork : Z * Z
}.

(** The message of the error raised when the server does not send its
    acknowledgement; it ends in a newline. *)
Definition server_verification_failed : string :=
  String.append "server verification (of our certificate or IP address) failed"
                (String (ascii_of_nat 10) EmptyString).

Section Connect.

Variable E : Type.

Definition gnutls_error (err : Z) : raised E :=
  Raise false VIR_ERR_GNUTLS_ERROR "gnutls_strerror" [err].

Definition system_error (errno : Z) : raised E :=
  Raise false VIR_ERR_SYSTEM_ERROR "strerror" [errno].

(** [initialise_gnutls (conn)]: the error raised when it returns -1, and the
    flag [initialised] after the call. *)
Definition initialise_gnutls (net : network) : option (raised E) * bool :=
  if initialised net then (None, true)
  else if negb (allocate_credentials net =? 0) then
    (Some (gnutls_error (allocate_credentials net)), false)
  else if set_x509_trust_file net <? 0 then
    (Some (gnutls_error (set_x509_trust_file net)), false)
  else if set_x509_key_file net <? 0 then
    (Some (gnutls_error (set_x509_key_file net)), false)
  else (None, true).

(** The text chosen for a status that is not zero: the last test that
    applies decides. *)
Definition certificate_reason (status : Z) : string :=
  let reason := "Invalid certificate"%string in
  let reason := if negb (Z.land status GNUTLS_CERT_INVALID =? 0)
                then "The certificate is not trusted."%string else reason in
  let reason := if negb (Z.land status GNUTLS_CERT_SIGNER_NOT_FOUND =? 0)
                then "The certificate hasn't got a known issuer."%string else reason in
  let reason := if negb (Z.land status GNUTLS_CERT_REVOKED =? 0)
                then "The certificate has been revoked."%string else reason in
  let reason := if negb (Z.land status GNUTLS_CERT_INSECURE_ALGORITHM =? 0)
                then "The certificate uses an insecure algorithm"%string else reason in
  reason.

(** The [for] loop of [verify_certificate] from certificate number [i] on. *)
Fixpoint verify_certs (now : Z) (hostname : cstring) (i : nat) (certs : list peer_cert)
  : outcome E unit :=
  match certs with
  | [] => Ok tt
  | cert :: rest =>
      if crt_init cert <? 0 then Fail (gnutls_error (crt_init cert))
      else if crt_import cert <? 0 then Fail (gnutls_error (crt_import cert))
      else if expiration_time cert <? now then
        Fail (error false VIR_ERR_RPC "The certificate has expired")
      else if activation_time cert >? now then
        Fail (error false VIR_ERR_RPC "The certificate is not yet activated")
      else if Nat.eqb i 0 && negb (check_hostname cert hostname) then
        Fail (Raise false VIR_ERR_RPC
                    "Certificate's owner does not match the hostname (%s)" (chars hostname))
      else verify_certs now hostname (S i) rest
  end.

(** [verify_certificate (conn, session, hostname)]. *)
Definition verify_certificate (peer : tls_peer) (hostname : cstring) : outcome E unit :=
  let (ret, status) := verify_peers2 peer in
  if ret <? 0 then Fail (gnutls_error ret)
  else if time_now peer =? -1 then Fail (system_error (time_errno peer))
  else if negb (status =? 0) then Fail (error false VIR_ERR_RPC (certificate_reason status))
  else if negb (certificate_type peer =? GNUTLS_CRT_X509) then
    Fail (error false VIR_ERR_RPC "Certificate type is not X.509")
  else
    match peers peer with
    | None => Fail (error false VIR_ERR_RPC "gnutls_certificate_get_peers failed")
    | Some certs => verify_certs (time_now peer) hostname 0 certs
    end.

(** The loop at the label [again]: the code [gnutls_handshake] fails with
    for good, if it does. *)
Fixpoint handshake (script : list Z) : option Z :=
  match script with
  | [] => None
  | err :: rest =>
      if err <? 0 then
        if (err =? GNUTLS_E_AGAIN) || (err =? GNUTLS_E_INTERRUPTED) then handshake rest
        else Some err
      else None
  end.

(** The loop at the label [again_2]: one byte is asked of the session until
    the answer is not an interruption; the error raised, if any. *)
Fixpoint receive_ack (script : list rd_ev) (evs : list sys_event)
  : option (raised E) * list rd_ev * list sys_event :=
  match script with
  | [] =>
      (Some (error false VIR_ERR_RPC server_verification_failed),
       [], evs ++ [EvRead 1 (RdData [])])%list
  | RdErr len :: script' =>
      let evs := (evs ++ [EvRead 1 (RdErr len)])%list in
      if (len <? 0) && negb (len =? GNUTLS_E_UNEXPECTED_PACKET_LENGTH) then
        if (len =? GNUTLS_E_AGAIN) || (len =? GNUTLS_E_INTERRUPTED)
        then receive_ack script' evs
        else (Some (gnutls_error len), script', evs)
      else (Some (error false VIR_ERR_RPC server_verification_failed), script', evs)
  | RdData bs :: script' =>
      let data := firstn 1 bs in
      let evs := (evs ++ [EvRead 1 (RdData data)])%list in
      match data with
      | [b] =>
          if negb (b =? 1)
          then (Some (error false VIR_ERR_RPC server_verification_failed), script', evs)
          else (None, script', evs)
      | _ => (Some (error false VIR_ERR_RPC server_verification_failed), script', evs)
      end
  end.

(** [negotiate_gnutls_on_connection (conn, sock, no_verify, hostname)]: the
    session (NULL is [None]), the errors raised on the way, and the world. *)
Definition negotiate_gnutls_on_connection (peer : tls_peer) (no_verify : Z)
           (hostname : cstring) (w : world) : option Z * list (raised E) * world :=
  if negb (session_init peer =? 0) then (None, [gnutls_error (session_init peer)], w)
  else if negb (default_priority peer =? 0) then
    (None, [gnutls_error (default_priority peer)], w)
  else if negb (type_priority peer =? 0) then (None, [gnutls_error (type_priority peer)], w)
  else if negb (credentials_set peer =? 0) then
    (None, [gnutls_error (credentials_set peer)], w)
  else
    (* Perform the TLS handshake. *)
    match handshake (handshakes peer) with
    | Some err => (None, [gnutls_error err], w)
    | None =>
        (* Verify certificate. *)
        let complaints := match verify_certificate peer hostname with
                          | Fail e => [e]
                          | _ => []
                          end in
        match complaints with
        | _ :: _ => if no_verify =? 0 then (None, complaints, w) else
            let '(r, inc, evs) := receive_ack (incoming w) (events w) in
            let w := mk_world inc (outgoing w) evs in
            match r with
            | Some e => (None, complaints ++ [e], w)
            | None => (Some (session_handle peer), complaints, w)
            end
        | [] =>
            let '(r, inc, evs) := receive_ack (incoming w) (events w) in
            let w := mk_world inc (outgoing w) evs in
            match r with
            | Some e => (None, [e], w)
            | None => (Some (session_handle peer), [], w)
            end
        end
    end%list.

Definition log_close (fd : Z) (w : world) : world :=
  mk_world (incoming w) (outgoing w) (events w ++ [EvClose fd])%list.

(** The loop over the addresses, "try to connect to each returned address in
    turn"; [sock] and [session] are [priv.sock] and [priv.session], [errs]
    the errors raised so far.  [ChannelUp] has no place for errors: those
    raised for the addresses tried before the one that connects are not
    recorded when the loop ends at [tcp_connected]. *)
Fixpoint tcp_connect (uses_tls : bool) (no_verify : Z) (server : cstring)
         (res : list address) (sock : Z) (session : option Z)
         (errs : list (raised E)) (w : world) : established E * world :=
  match res with
  | [] => (ChannelDown errs sock uses_tls session, w)
  | r :: rest =>
      let sock := fst (socket_ r) in
      if sock =? -1 then
        tcp_connect uses_tls no_verify server rest sock session
                    (errs ++ [system_error (snd (socket_ r))]) w
      else if fst (connect_ r) =? -1 then
        tcp_connect uses_tls no_verify server rest sock session
                    (errs ++ [system_error (snd (connect_ r))]) (log_close sock w)
      else if uses_tls then
        match negotiate_gnutls_on_connection (tls_side r) no_verify server w with
        | (None, raised_, w) =>
            tcp_connect uses_tls no_verify server rest (-1) None
                        (errs ++ raised_) (log_close sock w)
        | (Some s, _, w) => (ChannelUp sock (Some s), w)
        end
      else (ChannelUp sock session, w)
  end%list.

(** The [switch (transport)] of [remoteOpen] on the system [net]. *)
Definition connect_channel (net : network) (req : channel_request) (w : world)
  : established E * world :=
  match req with
  | ConnectTcp server port tls no_verify =>
      match (if tls then fst (initialise_gnutls net) else None) with
      | Some e => (ChannelDown [e] (-1) false None, w)
      | None =>
          let (e, res) := getaddrinfo net server port in
          if negb (e =? 0) then
            (ChannelDown [Raise false VIR_ERR_INVALID_ARG "gai_strerror" [e]] (-1) tls None, w)
          else tcp_connect tls no_verify server res (-1) None [] w
      end
  | ConnectUnix sockname =>
      let sock := fst (unix_socket net) in
      if sock =? -1 then
        (ChannelDown [system_error (snd (unix_socket net))] sock false None, w)
      else if fst (unix_connect net) =? -1 then
        (ChannelDown [system_error (snd (unix_connect net))] sock false None, w)
      else (ChannelUp sock None, w)
  | Spawn command argv =>
      let '(ret, (sv0, sv1), errno) := socketpair net in
      if ret =? -1 then (ChannelDown [system_error errno] (-1) false None, w)
      else if fst (fork net) =? -1 then
        (ChannelDown [system_error (snd (fork net))] (-1) false None, w)
      else
        (* The child runs the external process; the parent continues here. *)
        (ChannelUp sv0 None,
         mk_world (incoming w) (outgoing w)
                  (events w ++ [EvExec command argv; EvClose sv1]))
  end%list.

End Connect.

Arguments verify_certificate {E}.
Arguments verify_certs {E}.
Arguments receive_ack {E}.
Arguments negotiate_gnutls_on_connection {E}.
Arguments tcp_connect {E}.
Arguments connect_channel {E}.
Arguments gnutls_error {E}.
Arguments initialise_gnutls {E}.
Arguments system_error {E}.

(** An address at which [socket] and [connect] both succeed. *)
Definition reachable (a : address) : bool :=
  negb (fst (socket_ a) =? -1) && negb (fst (connect_ a) =? -1).

(** The [close] of every socket that was opened for one of the addresses
    [res]. *)
Definition abandoned (res : list address) : list sys_event :=
  flat_map (fun a => if fst (socket_ a) =? -1 then [] else [EvClose (fst (socket_ a))]) res.

(** The error raised for an address that is not reachable. *)
Definition unreachable_error {E} (a : address) : raised E :=
  if fst (socket_ a) =? -1 then system_error (snd (socket_ a))
  else system_error (snd (connect_ a)).

(* ------------------------------------------------------------------ *)
(** ** Notions used to state the properties of the I/O loops *)

(** The bytes the channel has taken, in the order they were written. *)
Fixpoint wire (evs : list sys_event) : list octet :=
  match evs with
  | [] => []
  | EvWrite data _ :: rest => data ++ wire rest
  | _ :: rest => wire rest
  end%list.

(** The results of reads that are not interruptions. *)
Definition lasting (tls : bool) (ev : rd_ev) : bool :=
  match ev with
  | RdErr code => negb (transient tls code)
  | RdData _ => true
  end.

(** A read or a write on the socket, as opposed to shutting it down. *)
Definition is_io (ev : sys_event) : bool :=
  match ev with
  | EvRead _ _ | EvWrite _ _ => true
  | _ => false
  end.

(** A peer that sends five bytes in two pieces with an interrupted read in
    between, and a channel that is interrupted once and then takes the
    bytes two at a time. *)
Definition choppy : world :=
  mk_world [RdData [1; 2]; RdErr EINTR; RdData [3; 4; 5]]
           [WrErr EAGAIN; WrLen 2; WrLen 2; WrLen 2] [].

Definition choppy_read : world :=
  Eval vm_compute in snd (really_read (E:=Z) up false 4 choppy).

Definition choppy_written : world :=
  Eval vm_compute in snd (really_write (E:=Z) up false [9; 8; 7; 6; 5] choppy).

(** A step that only reads from and writes to the socket. *)
Definition io_only {A} (step : world -> A * world) : Prop :=
  forall w r w', step w = (r, w') ->
    exists tail, events w' = (events w ++ tail)%list /\ forallb is_io tail = true.

(** The errors the driver raises by itself, as opposed to those the server
    sent. *)
Definition local_failure {E A} (o : outcome E A) : Prop :=
  match o with
  | Fail (RaiseServer _ _) => False
  | _ => True
  end.

(** The last field of [vars] with the name [key], letter case aside. *)
Definition last_field (key : string) (vars : list query_fields) : option query_fields :=
  find (fun f => strcaseeq (name f) (lit key)) (rev vars).

(** A system in which every channel comes up on socket 7, with a TLS session
    when TLS was asked for. *)
Definition any_channel (r : channel_request) (w : world) : established Z * world :=
  (ChannelUp 7 match r with
               | ConnectTcp _ _ true _ => Some 1
               | _ => None
               end, w).

(** The reply of the server to the open call, the first on a connection. *)
Definition open_reply : list octet :=
  (xdr_put32 28
   ++ xdr_remote_message_header_encode
        (mk_header REMOTE_PROGRAM REMOTE_PROTOCOL_VERSION REMOTE_PROC_OPEN
                   REMOTE_REPLY 0 REMOTE_OK))%list.



Definition upper_uri_opened : world :=
  Eval vm_compute in
    snd (remoteOpen int_error any_channel save_path None (Some upper_uri) 0
                    (reply open_reply)).

Definition upper_uri_refused : world :=
  Eval vm_compute in
    snd (remoteOpen int_error any_channel save_path None (Some upper_uri) 0 quiet).

(** The world after the close call on [up] has been answered, and after two
    close calls on [up] that the peer does not answer. *)
Definition close_answered : world :=
  Eval vm_compute in
    snd (call int_error up false REMOTE_PROC_CLOSE no_args xdr_void (reply close_reply)).

Definition pinged_twice : world :=
  Eval vm_compute in snd (run_calls int_error [ping; ping] up quiet).

(** The reply to call number 5 that gives the type of the hypervisor, and the
    world after [remoteType] has read it. *)
Definition type_reply : list octet :=
  (xdr_put32 36
   ++ xdr_remote_message_header_encode
        (mk_header REMOTE_PROGRAM REMOTE_PROTOCOL_VERSION REMOTE_PROC_GET_TYPE
                   REMOTE_REPLY 5 REMOTE_OK)
   ++ xdr_string_encode (lit "QEMU"))%list.

Definition type_fetched : world :=
  Eval vm_compute in snd (remoteType int_error (Some up) (reply type_reply)).

(** The reply to call number 5 that lists the domains 11 and 12, and the
    world after [remoteListDomains] has read it. *)
Definition list_reply : list octet :=
  (xdr_put32 40
   ++ xdr_remote_message_header_encode
        (mk_header REMOTE_PROGRAM REMOTE_PROTOCOL_VERSION REMOTE_PROC_LIST_DOMAINS
                   REMOTE_REPLY 5 REMOTE_OK)
   ++ xdr_put32 2 ++ xdr_put32 11 ++ xdr_put32 12)%list.

Definition domains_listed : world :=
  Eval vm_compute in snd (remoteListDomains int_error (Some up) 10 (reply list_reply)).

(** The same with -1 for [maxids]. *)
Definition domains_listed_unbounded : world :=
  Eval vm_compute in snd (remoteListDomains int_error (Some up) (-1) (reply list_reply)).

(** The world after [remoteClose] on the TLS handle has been answered. *)
Definition tls_closed : world :=
  Eval vm_compute in snd (remoteClose int_error (Some tls_cached) (reply close_reply)).

(** A URI for ssh that names a port and a user. *)
Definition ssh_port_uri : xmlURI :=
  mk_uri (Some (lit "qemu+ssh")) (Some (lit "host")) (Some (lit "alice")) 2222
         (Some (lit "/system")) (Some (lit "socket=/tmp/s&x=1&SOCKET=/tmp/t")).

(** What [remoteOpen] works from for [upper_uri]. *)
Definition upper_params : open_params :=
  mk_params trans_tls (lit "host") (Some (lit "16514")) None
            (NameGiven (lit "qemu:///session")) None None None 0
            (Some (lit "mode=fast")).

(** A certificate for the host [host] that is valid at time 1500, a peer
    that presents it after a handshake that is interrupted once, and the
    same peer with a certificate GnuTLS does not trust. *)
Definition host_cert : peer_cert :=
  mk_cert 0 0 2000 1000 (fun h => strcaseeq h (lit "host")).

Definition trusted_peer : tls_peer :=
  mk_peer 0 0 0 0 [GNUTLS_E_AGAIN; 0] (0, 0) 1500 0 GNUTLS_CRT_X509 (Some [host_cert]) 42.

Definition untrusted_peer : tls_peer :=
  mk_peer 0 0 0 0 [GNUTLS_E_AGAIN; 0] (0, GNUTLS_CERT_INVALID) 1500 0 GNUTLS_CRT_X509
          (Some [host_cert]) 42.

(** A server that acknowledges the client after one interrupted read, and
    the world after the session with the untrusted peer has been set up
    without verification. *)
Definition acknowledging : world := mk_world [RdErr GNUTLS_E_AGAIN; RdData [1]] [] [].

Definition acknowledged : world :=
  Eval vm_compute in
    snd (negotiate_gnutls_on_connection (E:=Z) untrusted_peer 1 (lit "host") acknowledging).

(** An address that refuses the connection on the socket [fd] (with
    ECONNREFUSED) and one that accepts it. *)
Definition refusing (fd : Z) : address := mk_addr (fd, 0) (-1, 111) trusted_peer.
Definition listening (fd : Z) : address := mk_addr (fd, 0) (0, 0) trusted_peer.

(** A system in which the host has three addresses of which the first
    refuses, and one in which both addresses of the host refuse and [fork]
    fails (with ENOMEM). *)
Definition lan : network :=
  mk_net false 0 0 0 (fun _ _ => (0, [refusing 3; listening 4; listening 5]))
         (3, 0) (0, 0) (0, (3, 4), 0) (100, 0).

Definition dead_lan : network :=
  mk_net false 0 0 0 (fun _ _ => (0, [refusing 3; refusing 4]))
         (3, 0) (-1, 111) (0, (3, 4), 0) (-1, 12).

(** A URI for plain TCP, and what [remoteOpen] works from for it and for
    [ssh_uri]. *)
Definition tcp_uri : xmlURI :=
  mk_uri (Some (lit "qemu+tcp")) (Some (lit "host")) None 0 (Some (lit "/system"))
         (Some (lit "name=qemu:///system")).

Definition tcp_params : open_params :=
  Eval vm_compute in
    match remoteOpen_params (P:=libvirt_protocol) Z (Some tcp_uri) with
    | Proceed p => p
    | _ => upper_params
    end.

Definition ssh_params : open_params :=
  Eval vm_compute in
    match remoteOpen_params (P:=libvirt_protocol) Z (Some ssh_uri) with
    | Proceed p => p
    | _ => upper_params
    end.

(** A server that acknowledges the client and answers the open call, and
    the world after [remoteOpen] has gone through both on [lan]. *)
Definition tls_server : world :=
  mk_world (RdData [1] :: incoming (reply open_reply)) [] [].

Definition tls_opened : world :=
  Eval vm_compute in
    snd (remoteOpen int_error (connect_channel lan) save_path None (Some upper_uri) 0
                    tls_server).

(** The array of [remote_vcpu_info] and the CPU maps in the XDR encoding:
    number, state, the eight bytes of the CPU time and the real CPU for
    each entry, the maps as counted bytes. *)
Fixpoint xdr_get_vcpus (n : nat) (bs : list octet) : option (list virVcpuInfo * list octet) :=
  match n with
  | O => Some ([], bs)
  | S n' =>
      match xdr_get32 bs with
      | Some (num, r1) =>
          match xdr_int_decode r1 with
          | Some (st, r2) =>
              match xdr_get32 r2 with
              | Some (hi, r3) =>
                  match xdr_get32 r3 with
                  | Some (lo, r4) =>
                      match xdr_int_decode r4 with
                      | Some (c, r5) =>
                          match xdr_get_vcpus n' r5 with
                          | Some (vs, rest) =>
                              Some (mk_vcpu num st (hi * 2^32 + lo) c :: vs, rest)
                          | None => None
                          end
                      | None => None
                      end
                  | None => None
                  end
              | None => None
              end
          | None => None
          end
      | None => None
      end
  end%list.

#[export] Instance plain_vcpus : remote_vcpus := {
  REMOTE_PROC_DOMAIN_GET_VCPUS := 20;
  REMOTE_VCPUINFO_MAX := 2048;
  REMOTE_CPUMAPS_MAX := 16384;
  xdr_remote_domain_get_vcpus_args := fun dom maxinfo maplen =>
    Some (xdr_string_encode (dom_name dom) ++ dom_uuid dom ++ xdr_put32 (dom_id dom)
          ++ xdr_put32 maxinfo ++ xdr_put32 maplen)%list;
  xdr_remote_domain_get_vcpus_ret := fun bs =>
    match xdr_get32 bs with
    | Some (n, rest) =>
        match xdr_get_vcpus (Z.to_nat n) rest with
        | Some (vs, rest) =>
            match xdr_get32 rest with
            | Some (m, maps) =>
                if Z.of_nat (length maps) <? m + (4 - m mod 4) mod 4 then None
                else Some (vs, firstn (Z.to_nat m) maps)
            | None => None
            end
        | None => None
        end
    | None => None
    end
}.

(** A domain, the reply to call number 5 that reports one virtual CPU of it
    (number 0, running, on the real CPU 2) with a map of one byte, and the
    world after [remoteDomainGetVcpus] has read it. *)
Definition guest : virDomain := mk_domain (lit "guest") (repeat 0 16) 1.

Definition vcpus_reply : list octet :=
  (xdr_put32 60
   ++ xdr_remote_message_header_encode
        (mk_header REMOTE_PROGRAM REMOTE_PROTOCOL_VERSION REMOTE_PROC_DOMAIN_GET_VCPUS
                   REMOTE_REPLY 5 REMOTE_OK)
   ++ xdr_put32 1
   ++ xdr_put32 0 ++ xdr_put32 1 ++ xdr_put32 0 ++ xdr_put32 1000 ++ xdr_put32 2
   ++ xdr_put32 1 ++ [4; 0; 0; 0])%list.

Definition vcpus_read : world :=
  Eval vm_compute in
    snd (remoteDomainGetVcpus int_error (Some up) guest 2 1 (reply vcpus_reply)).

(** The same with -1 for [maxinfo]. *)
Definition vcpus_read_unbounded : world :=
  Eval vm_compute in
    snd (remoteDomainGetVcpus int_error (Some up) guest (-1) 1 (reply vcpus_reply)).

(* ------------------------------------------------------------------ *)
(** ** Notions used to state what goes out on the wire *)

(** The frame of a request as [call] builds it: the length word, which
    counts itself, the header and the arguments.  Nothing is sent for
    arguments that the filter refuses. *)
Definition request_frame {P : remote_protocol} (proc_nr ser : Z)
           (args : option (list octet)) : list octet :=
  match args with
  | Some a =>
      let buffer := (xdr_remote_message_header_encode (request_header proc_nr ser) ++ a)%list in
      (xdr_put32 (Z.of_nat (length buffer) + 4) ++ buffer)%list
  | None => []
  end.

(** The serial number in the header of a frame as a reader of the wire finds
    it: the length word has to give the length of the frame, and the header
    has to decode. *)
Definition frame_serial (frame : list octet) : option Z :=
  match xdr_get32 frame with
  | Some (len, body) =>
      if len =? Z.of_nat (length frame) then
        match xdr_remote_message_header_decode body with
        | Some (hdr, _) => Some (serial hdr)
        | None => None
        end
      else None
  | None => None
  end.

(** A call whose arguments the filter accepts and the buffer can hold. *)
Definition marshalled {P : remote_protocol} (c : rpc) : Prop :=
  exists a, rpc_args c = Some a /\ 24 + Z.of_nat (length a) <= REMOTE_MESSAGE_MAX.

(** A channel on which no write fails for good. *)
Definition writes_through (tls : bool) (script : list wr_ev) : Prop :=
  Forall (fun ev => match ev with
                    | WrErr code => transient tls code = true
                    | WrLen _ => True
                    end) script.

(* ================================================================== *)
(** * Properties *)

(** ** The query parser on the boundary strings *)

(** C7 (as stated): [query_parse] does not map the string ["?"] to the empty
    list; a ['?'] that reaches it is an ordinary character of a name. *)
Lemma query_parse_question_mark_is_a_name :
  pairs (query_parse (lit "?")) = [(lit "?", [])]%list
  /\ pairs (query_parse (lit "?")) <> []%list.
Proof. split; [reflexivity | discriminate]. Qed.

(** C7 (amended): [query_parse] maps the empty string, ["&"], ["a"], ["a="],
    ["=b"] and ["a=b&c=d"] to no field, no field, the field [a] with the
    empty value, again [a] with the empty value, no field, and the fields
    [(a,b)] and [(c,d)]; it maps ["?"] to the single field named ["?"] with
    the empty value. *)
Theorem query_parse_boundary_strings :
  pairs (query_parse []) = []%list
  /\ pairs (query_parse (lit "&")) = []%list
  /\ pairs (query_parse (lit "a")) = [(lit "a", [])]%list
  /\ pairs (query_parse (lit "a=")) = [(lit "a", [])]%list
  /\ pairs (query_parse (lit "=b")) = []%list
  /\ pairs (query_parse (lit "a=b&c=d")) = [(lit "a", lit "b"); (lit "c", lit "d")]%list
  /\ pairs (query_parse (lit "?")) = [(lit "?", [])]%list.
Proof. repeat split; reflexivity. Qed.

(** An empty section is skipped, whatever follows it. *)
Lemma query_parse_step_empty_section (rest : cstring) :
  query_parse_step ("&"%char :: rest) = (None, rest).
Proof. reflexivity. Qed.

(** A section that starts with ['='] and has a further character is
    skipped. *)
Lemma query_parse_step_eq_value (c : ascii) (rest : cstring) :
  c <> "&"%char -> fst (query_parse_step ("="%char :: c :: rest)) = None.
Proof.
  intros Hc. unfold query_parse_step. cbn [break_at].
  change (Ascii.eqb "=" "&") with false. cbv iota.
  destruct (Ascii.eqb c "&") eqn:Ec.
  - apply Ascii.eqb_eq in Ec. contradiction.
  - destruct (break_at "&" rest) as [sec end_]. reflexivity.
Qed.

(** A section that is a lone ['='] is not skipped: the name is decoded with
    a length of zero, which [xmlURIUnescapeString] takes to mean the whole
    of the remaining string. *)
Lemma query_parse_lone_eq :
  pairs (query_parse (lit "=")) = [(lit "=", [])]%list
  /\ pairs (query_parse (lit "=&x=1")) = [(lit "=&x=1", []); (lit "x", lit "1")]%list.
Proof. split; reflexivity. Qed.

(* ------------------------------------------------------------------ *)
(** ** Transport selection and the parameters of [remoteOpen] *)

Lemma tolower_idem (c : ascii) : tolower (tolower c) = tolower c.
Proof. destruct c as [[] [] [] [] [] [] [] []]; reflexivity. Qed.

Lemma strcaseeq_tolower (a b : cstring) :
  strcaseeq (map tolower a) b = strcaseeq a b.
Proof.
  revert b. induction a as [|x a IH]; intros [|y b]; cbn; try reflexivity.
  now rewrite tolower_idem, IH.
Qed.

Section OpenProps.

Context {P : remote_protocol}.
Variable E : Type.


(** C9: the transport suffix and the reserved query names are matched
    without regard to ASCII case: a suffix or a field name and its lower-case
    form are treated alike, [TLS] selects the TLS transport, and a field
    [NAME] becomes the name override and is left out of the query that is
    passed on. *)
Theorem transport_and_reserved_names_ignore_case :
  (forall t, what_transport (Some t) = what_transport (Some (map tolower t)))
  /\ (forall var v,
        let lower := mk_field (map tolower (name var)) (value var) (ignore var) in
        snd (get_var var v) = snd (get_var lower v)
        /\ ignore (fst (get_var var v)) = ignore (fst (get_var lower v)))
  /\ what_transport (Some (lit "TLS")) = Some trans_tls
  /\ exists p,
       remoteOpen_params E (Some upper_uri) = Proceed p
       /\ o_transport p = trans_tls
       /\ o_name p = NameGiven (lit "qemu:///session")
       /\ o_query p = Some (lit "mode=fast").
Proof.
  split; [|split; [|split]].
  - intros t. unfold what_transport. now rewrite !strcaseeq_tolower.
  - intros var v lower. unfold get_var, lower. cbn [name value ignore].
    rewrite !strcaseeq_tolower.
    repeat match goal with
           | |- context [if ?b then _ else _] => destruct b
           end; split; reflexivity.
  - reflexivity.
  - eexists. repeat split; reflexivity.
Qed.

Variable establish : channel_request -> world -> established E * world.
Variable xmlSaveUri : xmlURI -> option cstring.
Variable xdr_remote_error : list octet -> option E.
Context {X : remote_xdr}.


End OpenProps.


(** A suffix that names no transport, or the ext transport without a
    command, ends in an error, not in a decline. *)
Lemma transport_without_host_errors :
  remoteOpen_params (P:=libvirt_protocol) Z
    (Some (mk_uri (Some (lit "qemu+foo")) None None 0 (Some (lit "/")) None))
  = OpenError (error false VIR_ERR_INVALID_ARG
      "remote_open: transport in URL not recognised (should be tls|unix|ssh|ext|tcp)")
  /\ remoteOpen_params (P:=libvirt_protocol) Z
       (Some (mk_uri (Some (lit "qemu+ext")) None None 0 (Some (lit "/")) None))
     = OpenError (error false VIR_ERR_INVALID_ARG
         "remote_open: for 'ext' transport, command is required").
Proof. split; reflexivity. Qed.

(* ------------------------------------------------------------------ *)
(** ** The RPC engine *)

Lemma int32_small (x : Z) : - 2^31 <= x < 2^31 -> int32 x = x.
Proof.
  intros H. unfold int32.
  change (2^31) with 2147483648 in *. change (2^32) with 4294967296.
  Z.div_mod_to_equations. lia.
Qed.

Lemma int32_below (x : Z) : - 2^32 + - 2^31 <= x < - 2^31 -> int32 x = x + 2^32.
Proof.
  intros H. unfold int32.
  change (2^31) with 2147483648 in *. change (2^32) with 4294967296 in *.
  Z.div_mod_to_equations. lia.
Qed.

Lemma int32_range (x : Z) : - 2^31 <= int32 x < 2^31.
Proof.
  unfold int32.
  change (2^31) with 2147483648. change (2^32) with 4294967296.
  Z.div_mod_to_equations. lia.
Qed.

Lemma xdr_int_decode_range (bs rest : list octet) (x : Z) :
  xdr_int_decode bs = Some (x, rest) -> - 2^31 <= x < 2^31.
Proof.
  unfold xdr_int_decode. destruct (xdr_get32 bs) as [[u r]|]; [|discriminate].
  intros H. inversion H. apply int32_range.
Qed.

(** One test of [check_header]: when the field differs from what is
    expected, the call fails with both values in the error and the header
    does not answer the request; otherwise the next test is looked at. *)
Ltac check_field got want :=
  let H := fresh "Hf" in
  destruct (got =? want) eqn:H;
  [ apply Z.eqb_eq in H
  | apply Z.eqb_neq in H;
    split;
    [ intros _; do 3 eexists; split; [reflexivity|];
      split; [cbn; auto 6 | exact H]
    | intros (? & ? & ? & ? & ?); contradiction ] ].

Section RpcProps.

Context {P : remote_protocol}.
Variable E : Type.
Variable xdr_remote_error : list octet -> option E.

(** The reading loop enters its body at least once, and what it records
    comes after what was recorded before. *)
Lemma really_read_loop_extends tls in_open script len got evs :
  exists tail,
    snd (really_read_loop (E:=E) tls in_open script len got evs) = (evs ++ tail)%list.
Proof.
  revert len got evs. induction script as [|ev script IH]; intros len got evs.
  - cbn. eexists. reflexivity.
  - destruct ev as [code|bs]; cbn.
    + destruct (transient tls code).
      * destruct (0 <? len).
        -- destruct (IH len got (evs ++ [EvRead len (RdErr code)])%list) as [tail Ht].
           rewrite Ht, <- app_assoc. eexists. reflexivity.
        -- eexists. reflexivity.
      * eexists. reflexivity.
    + destruct (firstn (Z.to_nat len) bs) as [|b data] eqn:Hd.
      * eexists. reflexivity.
      * destruct (0 <? len - Z.of_nat (length (b :: data))).
        -- destruct (IH (len - Z.of_nat (length (b :: data))) (got ++ b :: data)%list
                        (evs ++ [EvRead len (RdData (b :: data))])%list) as [tail Ht].
           rewrite Ht, <- app_assoc. eexists. reflexivity.
        -- eexists. reflexivity.
Qed.

Lemma really_read_first_event priv in_open len w :
  exists r tail,
    events (snd (really_read (E:=E) priv in_open len w))
    = (events w ++ EvRead len r :: tail)%list.
Proof.
  unfold really_read. destruct (incoming w) as [|ev script].
  - cbn. do 2 eexists. reflexivity.
  - destruct ev as [code|bs]; cbn.
    + destruct (transient (uses_tls priv) code).
      * destruct (0 <? len).
        -- destruct (really_read_loop_extends (uses_tls priv) in_open script len []
                       (events w ++ [EvRead len (RdErr code)])%list) as [tail Ht].
           destruct (really_read_loop _ _ _ _ _ _) as [[r inc] evs]. cbn in *.
           subst evs. rewrite <- app_assoc. do 2 eexists. reflexivity.
        -- cbn. exists (RdErr code), []%list. reflexivity.
      * cbn. exists (RdErr code), []%list. reflexivity.
    + destruct (firstn (Z.to_nat len) bs) as [|b data] eqn:Hd.
      * cbn. exists (RdData []), []%list. reflexivity.
      * destruct (0 <? len - Z.of_nat (length (b :: data))).
        -- destruct (really_read_loop_extends (uses_tls priv) in_open script
                       (len - Z.of_nat (length (b :: data))) ([] ++ b :: data)%list
                       (events w ++ [EvRead len (RdData (b :: data))])%list) as [tail Ht].
           destruct (really_read_loop _ _ _ _ _ _) as [[r inc] evs]. cbn in *.
           subst evs. rewrite <- app_assoc. do 2 eexists. reflexivity.
        -- cbn. exists (RdData (b :: data)), []%list. reflexivity.
Qed.

(** What [call_receive] does with a length word [L]. *)
Lemma call_receive_length priv in_open buffer2 L rest w :
  0 <= REMOTE_MESSAGE_MAX < 2^31 - 4 ->
  xdr_int_decode buffer2 = Some (L, rest) ->
  (L < 4 \/ REMOTE_MESSAGE_MAX + 4 < L ->
   call_receive (E:=E) priv in_open buffer2 w
   = (Fail (error (negb in_open) VIR_ERR_RPC "packet received from server too large"), w))
  /\ (4 <= L <= REMOTE_MESSAGE_MAX + 4 ->
      exists r tail,
        events (snd (call_receive (E:=E) priv in_open buffer2 w))
        = (events w ++ EvRead (L - 4) r :: tail)%list).
Proof.
  intros HM HL. pose proof (xdr_int_decode_range _ HL) as Hr.
  unfold call_receive. rewrite HL. split.
  - intros Hout.
    assert (Hrej : (int32 (L - 4) <? 0) || (int32 (L - 4) >? REMOTE_MESSAGE_MAX) = true).
    { apply orb_true_iff.
      destruct (Z_lt_dec (L - 4) (- 2^31)) as [Hlow|Hok].
      - right. rewrite int32_below by lia. apply Z.gtb_lt.
        change (2^32) with (2 * 2^31). lia.
      - rewrite int32_small by lia.
        destruct Hout; [left; apply Z.ltb_lt | right; apply Z.gtb_lt]; lia. }
    now rewrite Hrej.
  - intros Hin. rewrite int32_small by lia.
    replace ((L - 4 <? 0) || (L - 4 >? REMOTE_MESSAGE_MAX)) with false.
    2:{ symmetry. apply orb_false_iff.
        split; [apply Z.ltb_ge | rewrite Z.gtb_ltb; apply Z.ltb_ge]; lia. }
    destruct (really_read_first_event priv in_open (L - 4) w) as (r & tail & Hev).
    destruct (really_read priv in_open (L - 4) w) as [[buffer|e|] w'] eqn:Hrd; cbn in Hev.
    + destruct (xdr_remote_message_header_decode buffer); cbn; eauto.
    + cbn; eauto.
    + cbn; eauto.
Qed.

(** C1 (amended): once the length word [L] of the reply has been decoded,
    [call] rejects the frame with an RPC error and reads nothing more unless
    [4 <= L <= REMOTE_MESSAGE_MAX + 4]; inside that range it goes on to read
    [L - 4] bytes.  In particular the length words 3 and
    [REMOTE_MESSAGE_MAX + 5] are rejected before any payload is read. *)
Theorem reply_length_bounds {R} priv in_open proc_nr args
        (ret_filter : list octet -> option R) w w1 w2 buffer2 L rest :
  0 <= REMOTE_MESSAGE_MAX < 2^31 - 4 ->
  call_send (E:=E) (next_serial priv) in_open proc_nr (serial_assigned priv) args w
  = (Ok tt, w1) ->
  really_read (E:=E) (next_serial priv) in_open 4 w1 = (Ok buffer2, w2) ->
  xdr_int_decode buffer2 = Some (L, rest) ->
  (L < 4 \/ REMOTE_MESSAGE_MAX + 4 < L ->
   call xdr_remote_error priv in_open proc_nr args ret_filter w
   = (Fail (error (negb in_open) VIR_ERR_RPC "packet received from server too large"),
      next_serial priv, w2))
  /\ (L = 3 \/ L = REMOTE_MESSAGE_MAX + 5 ->
      call xdr_remote_error priv in_open proc_nr args ret_filter w
      = (Fail (error (negb in_open) VIR_ERR_RPC "packet received from server too large"),
         next_serial priv, w2))
  /\ (4 <= L <= REMOTE_MESSAGE_MAX + 4 ->
      exists r tail,
        events (snd (call xdr_remote_error priv in_open proc_nr args ret_filter w))
        = (events w2 ++ EvRead (L - 4) r :: tail)%list).
Proof.
  intros HM Hsend Hread HL. set (priv' := next_serial priv) in *.
  destruct (call_receive_length priv' in_open buffer2 w2 HM HL) as [Hrej Hacc].
  assert (Hcall : forall e,
    call_receive (E:=E) priv' in_open buffer2 w2 = (Fail e, w2) ->
    call xdr_remote_error priv in_open proc_nr args ret_filter w = (Fail e, priv', w2)).
  { intros e He. unfold call, call_exchange. fold priv'.
    rewrite Hsend, Hread, He. reflexivity. }
  split; [|split].
  - intros Hout. apply Hcall, Hrej, Hout.
  - intros Hout. apply Hcall, Hrej. lia.
  - intros Hin. destruct (Hacc Hin) as (r & tail & Hev).
    unfold call, call_exchange. fold priv'. rewrite Hsend, Hread.
    destruct (call_receive priv' in_open buffer2 w2) as [[[hdr body]|e|] w3];
      cbn in Hev |- *.
    + destruct (check_header in_open proc_nr (serial_assigned priv) hdr); cbn; eauto.
    + eauto.
    + eauto.
Qed.

(** C4: when the decoded reply header differs from the request in program,
    version, procedure or serial, or its direction is not that of a reply,
    [call] fails with an RPC error that carries the value received and the
    value expected for a field that differs; when all five agree, the reply
    goes to the dispatch on its status. *)
Theorem reply_header_validation {R} priv in_open proc_nr args
        (ret_filter : list octet -> option R) w hdr body w' :
  call_exchange (E:=E) (next_serial priv) in_open proc_nr (serial_assigned priv) args w
  = (Ok (hdr, body), w') ->
  (~ answers proc_nr (serial_assigned priv) hdr ->
   exists fmt observed expected,
     call xdr_remote_error priv in_open proc_nr args ret_filter w
     = (Fail (Raise (negb in_open) VIR_ERR_RPC fmt [observed; expected]),
        next_serial priv, w')
     /\ In (observed, expected)
           [(prog hdr, REMOTE_PROGRAM); (vers hdr, REMOTE_PROTOCOL_VERSION);
            (proc hdr, proc_nr); (direction hdr, REMOTE_REPLY);
            (serial hdr, serial_assigned priv)]
     /\ observed <> uint32 expected)
  /\ (answers proc_nr (serial_assigned priv) hdr ->
      call xdr_remote_error priv in_open proc_nr args ret_filter w
      = (dispatch_status xdr_remote_error in_open ret_filter hdr body,
         next_serial priv, w')).
Proof.
  intros Hex. unfold call. rewrite Hex. unfold check_header, answers.
  cbn [request_header prog vers proc serial direction].
  check_field (prog hdr) (uint32 REMOTE_PROGRAM).
  check_field (vers hdr) (uint32 REMOTE_PROTOCOL_VERSION).
  check_field (proc hdr) (uint32 proc_nr).
  check_field (direction hdr) (uint32 REMOTE_REPLY).
  check_field (serial hdr) (uint32 (serial_assigned priv)).
  cbn [negb]. split; [intros Hn; exfalso; apply Hn; auto | reflexivity].
Qed.

Context {X : remote_xdr}.

(** An operation that starts with [GET_PRIVATE] does nothing else on a
    closed handle, whatever its body. *)
Lemma GET_PRIVATE_closed {A} (priv : private_data) (w : world)
      (body : private_data -> outcome E A * private_data * world) :
  magic priv = DEAD ->
  GET_PRIVATE (Some priv) w body = (Fail closed_handle, Some priv, w).
Proof. intros Hm. unfold GET_PRIVATE. now rewrite Hm. Qed.

(** On a closed handle every operation stops in [GET_PRIVATE], except
    [remoteNetworkClose], which has no [GET_PRIVATE] and returns 0. *)
Lemma run_op_closed (op : driver_op E) (priv : private_data) (w : world) :
  magic priv = DEAD ->
  run_op xdr_remote_error op (Some priv) w
  = (match op with
     | OpNetworkClose => Ok (RetInt 0)
     | _ => Fail closed_handle
     end, Some priv, w).
Proof.
  intros Hm.
  destruct op; cbn [run_op]; unfold remoteNetworkClose, remoteClose, remoteType,
    remoteVersion, remoteGetMaxVcpus, remoteListDomains, remoteNumOfDomains;
    rewrite ?GET_PRIVATE_closed by exact Hm; reflexivity.
Qed.

(** The guard of [GET_PRIVATE]: on private data whose magic is [DEAD] every
    operation that starts with the macro fails with the invalid-argument
    error for a closed handle, while [remoteNetworkClose], which does not
    look at the handle, returns 0; in either case the world is left as it
    was (nothing is written, read or closed), and the magic is still
    [DEAD] afterwards, however many operations are tried. *)
Theorem closed_handle_stays_closed (ops : list (driver_op E)) (priv : private_data)
        (w : world) :
  magic priv = DEAD ->
  run_ops xdr_remote_error ops (Some priv) w
  = (map (fun op =>
            match op with
            | OpNetworkClose => Ok (RetInt 0)
            | _ => Fail (Raise true VIR_ERR_INVALID_ARG
                               "tried to use a closed or uninitialised handle" [])
            end)
         ops,
     Some priv, w).
Proof.
  intros Hm. induction ops as [|op ops IH]; [reflexivity|].
  cbn [run_ops map]. rewrite (@run_op_closed op priv w Hm), IH. reflexivity.
Qed.

Lemma remoteClose_after_rpc (priv priv' : private_data) (w w' : world) :
  magic priv = MAGIC ->
  call xdr_remote_error priv false REMOTE_PROC_CLOSE no_args xdr_void w
  = (Ok tt, priv', w') ->
  remoteClose xdr_remote_error (Some priv) w
  = (Ok 0, Some priv',
     mk_world (incoming w') (outgoing w') (events w' ++ teardown priv')).
Proof.
  intros Hm Hc. unfold remoteClose, GET_PRIVATE. rewrite Hm, Hc. cbn.
  unfold teardown, log.
  destruct (uses_tls priv'), (session priv'), (type_ priv'); cbn;
    rewrite <- ?app_assoc; reflexivity.
Qed.

(** When the close RPC fails, [remoteClose] returns at once: the world is
    the one the failed call left, nothing is shut down, closed or freed. *)
Lemma remoteClose_after_failed_rpc (priv priv' : private_data) (w w' : world)
      (e : raised E) :
  magic priv = MAGIC ->
  call xdr_remote_error priv false REMOTE_PROC_CLOSE no_args xdr_void w
  = (Fail e, priv', w') ->
  remoteClose xdr_remote_error (Some priv) w = (Fail e, Some priv', w').
Proof.
  intros Hm Hc. unfold remoteClose, GET_PRIVATE. rewrite Hm, Hc. reflexivity.
Qed.

(** Every [call] moves the counter on by one, whatever becomes of it. *)
Lemma call_counter {R} priv in_open proc_nr args
      (ret_filter : list octet -> option R) w :
  snd (fst (call xdr_remote_error priv in_open proc_nr args ret_filter w))
  = next_serial priv.
Proof.
  unfold call.
  destruct (call_exchange _ _ _ _ _ _) as [[[hdr body]|e|] w'];
    [destruct (check_header _ _ _ _)|..]; reflexivity.
Qed.

(** The private data that a successful [remoteOpen] installs is open, and
    its counter is 1: the open call itself was given the serial 0. *)
Lemma remoteOpen_installs (establish : channel_request -> world -> established E * world)
      (xmlSaveUri : xmlURI -> option cstring) conn uri flags w conn' w' :
  remoteOpen xdr_remote_error establish xmlSaveUri conn uri flags w
  = (VIR_DRV_OPEN_SUCCESS, conn', w') ->
  exists priv, conn' = Some priv /\ magic priv = MAGIC /\ counter priv = 1.
Proof.
  unfold remoteOpen.
  destruct (remoteOpen_params E uri) as [|e|p]; try discriminate.
  destruct (match o_name p with NameGiven n => Some n | NameSaved u => xmlSaveUri u end)
    as [nm|]; [|discriminate].
  destruct (establish _ _) as [[fd sess|errs fd tls sess] w1]; [|discriminate].
  match goal with
  | |- context [call ?x ?pr ?io ?pn ?a ?rf ?ww] =>
      pose proof (call_counter pr io pn a rf ww) as Hc;
      destruct (call x pr io pn a rf ww) as [[[u|e|] priv1] w2]
  end; try discriminate.
  cbn in Hc. subst priv1. intros H. inversion H. eexists. repeat split.
Qed.

Lemma int32_add_l (a b : Z) : int32 (int32 a + b) = int32 (a + b).
Proof.
  unfold int32. f_equal.
  replace ((a + 2^31) mod 2^32 - 2^31 + b + 2^31) with ((a + 2^31) mod 2^32 + b) by ring.
  rewrite Z.add_mod_idemp_l by (change (2^32) with 4294967296; lia).
  f_equal. ring.
Qed.

(** The serial of the [k]-th call of a run (counting from 0) is the counter
    at the start plus [k], as a C [int]. *)
Lemma run_calls_serials (cs : list rpc) (priv : private_data) (w : world) :
  - 2^31 <= counter priv < 2^31 ->
  fst (fst (run_calls xdr_remote_error cs priv w))
  = map (fun k => int32 (counter priv + Z.of_nat k)) (seq 0 (length cs)).
Proof.
  revert priv w. induction cs as [|c cs IH]; intros priv w Hc; [reflexivity|].
  cbn [run_calls length seq map].
  pose proof (call_counter priv (rpc_in_open c) (rpc_proc c) (rpc_args c) (rpc_ret c) w)
    as Hn.
  destruct (call xdr_remote_error priv (rpc_in_open c) (rpc_proc c) (rpc_args c)
                 (rpc_ret c) w) as [[o priv'] w'].
  cbn in Hn. subst priv'.
  specialize (IH (next_serial priv) w' (int32_range _)).
  destruct (run_calls xdr_remote_error cs (next_serial priv) w') as [[sers p''] w''].
  cbn in IH |- *. subst sers. f_equal.
  - unfold serial_assigned. rewrite Z.add_0_r. symmetry. now apply int32_small.
  - rewrite <- seq_shift, map_map. apply map_ext. intros k.
    rewrite int32_add_l. f_equal. lia.
Qed.

Lemma uint32_int32 (x : Z) : uint32 (int32 x) = uint32 x.
Proof.
  unfold uint32, int32.
  change (2^31) with 2147483648. change (2^32) with 4294967296.
  Z.div_mod_to_equations. lia.
Qed.

Lemma uint32_small (x : Z) : 0 <= x < 2^32 -> uint32 x = x.
Proof. intros H. apply Z.mod_small. exact H. Qed.

End RpcProps.

(** C1 (as stated): a reply whose length word is [REMOTE_MESSAGE_MAX + 1] is
    not rejected: [call] reads its [REMOTE_MESSAGE_MAX - 3] bytes of payload
    and succeeds. *)
Lemma length_word_max_plus_one_is_read :
  let r := call int_error up false REMOTE_PROC_CLOSE no_args xdr_void
                (reply (long_frame REMOTE_PROC_CLOSE)) in
  fst (fst r) = Ok tt
  /\ read_lengths (events (snd r)) = [4; REMOTE_MESSAGE_MAX - 3]%list.
Proof. vm_compute. split; reflexivity. Qed.

(** The theorem at the length word 3. *)
Lemma reply_length_bounds_witness :
  let r := call int_error up false REMOTE_PROC_CLOSE no_args xdr_void short_frame in
  fst (fst r) = Fail (error true VIR_ERR_RPC "packet received from server too large")
  /\ read_lengths (events (snd r)) = [4]%list.
Proof.
  assert (HM : 0 <= REMOTE_MESSAGE_MAX < 2^31 - 4)
    by (change REMOTE_MESSAGE_MAX with 262144; lia).
  assert (Hs : call_send (E:=Z) (next_serial up) false REMOTE_PROC_CLOSE
                         (serial_assigned up) no_args short_frame
               = (Ok tt, short_frame_sent)) by reflexivity.
  assert (Hr : really_read (E:=Z) (next_serial up) false 4 short_frame_sent
               = (Ok (xdr_put32 3), short_frame_read)) by reflexivity.
  assert (Hl : xdr_int_decode (xdr_put32 3) = Some (3, []%list)) by reflexivity.
  destruct (reply_length_bounds int_error up false REMOTE_PROC_CLOSE no_args
              xdr_void short_frame HM Hs Hr Hl) as (_ & H3 & _).
  cbv zeta. rewrite H3 by (left; reflexivity). split; reflexivity.
Defined.

(** The theorem at a reply with the wrong serial. *)
Lemma reply_header_validation_witness :
  exists fmt observed expected,
    call int_error up false REMOTE_PROC_CLOSE no_args xdr_void (reply wrong_serial_frame)
    = (Fail (Raise (negb false) VIR_ERR_RPC fmt [observed; expected]%list),
       next_serial up, wrong_serial_after)
    /\ (observed, expected) = (9, 5).
Proof.
  assert (Hex : call_exchange (E:=Z) (next_serial up) false REMOTE_PROC_CLOSE
                  (serial_assigned up) no_args (reply wrong_serial_frame)
                = (Ok (mk_header REMOTE_PROGRAM REMOTE_PROTOCOL_VERSION
                                 REMOTE_PROC_CLOSE REMOTE_REPLY 9 REMOTE_OK, []%list),
                   wrong_serial_after)) by reflexivity.
  destruct (reply_header_validation int_error up false REMOTE_PROC_CLOSE no_args
              xdr_void (reply wrong_serial_frame) Hex) as [Hbad _].
  destruct Hbad as (fmt & observed & expected & Hcall & Hin & Hne).
  - intros (_ & _ & _ & Hser & _). discriminate Hser.
  - exists fmt, observed, expected. split; [exact Hcall|].
    cbn in Hin.
    destruct Hin as [H|[H|[H|[H|[H|[]]]]]]; inversion H; subst;
      try reflexivity; exfalso; apply Hne; reflexivity.
Defined.

(** The same reply, evaluated: the error names the serial received and the
    serial expected. *)
Lemma wrong_serial_is_reported :
  fst (fst (call int_error up false REMOTE_PROC_CLOSE no_args xdr_void
                 (reply wrong_serial_frame)))
  = Fail (Raise true VIR_ERR_RPC "unknown serial (received %x, expected %x)" [9; 5]%list).
Proof. reflexivity. Qed.

(** The guard at five operations on private data with the magic [DEAD], the
    last of them a stub that would read 8 bytes from the socket. *)
Lemma closed_handle_stays_closed_witness :
  run_ops int_error
          [OpClose; OpType; OpNetworkClose; OpListDomains 10;
           OpOther (fun priv w =>
                      let (r, w) := really_read priv false 8 w in
                      (map_outcome (fun _ => RetInt 0) r, priv, w))]%list
          (Some dead) quiet
  = ([Fail closed_handle; Fail closed_handle; Ok (RetInt 0); Fail closed_handle;
      Fail closed_handle]%list,
     Some dead, quiet).
Proof.
  apply (closed_handle_stays_closed int_error
           [OpClose; OpType; OpNetworkClose; OpListDomains 10;
            OpOther (fun priv w =>
                       let (r, w) := really_read priv false 8 w in
                       (map_outcome (fun _ => RetInt 0) r, priv, w))]%list
           dead quiet).
  reflexivity.
Defined.

(** The close operation of the network driver has no guard: it returns 0
    also when the magic is [DEAD]. *)
Lemma network_close_succeeds_on_closed_handle :
  magic dead = DEAD
  /\ run_op int_error OpNetworkClose (Some dead) quiet = (Ok (RetInt 0), Some dead, quiet)
  /\ fst (fst (run_op int_error OpNetworkClose (Some dead) quiet))
     <> Fail closed_handle.
Proof. repeat split. discriminate. Qed.

(** When the server answers the close RPC, the TLS session is shut down,
    the socket closed and the cached type freed, in this order. *)
Lemma remoteClose_teardown_order :
  let r := remoteClose int_error (Some tls_cached) (reply close_reply) in
  fst (fst r) = Ok 0
  /\ skipn 4 (events (snd r)) = [EvBye; EvClose 7; EvFree (lit "QEMU")]%list.
Proof. vm_compute. split; reflexivity. Qed.

(** C3 (the code at the failing input): [remoteClose] on an open handle,
    answered by the server, then [remoteNumOfDomains] and [remoteType] on
    the same handle.  [remoteClose] has closed the socket and freed the
    cached type, but the magic is still [MAGIC], so that the next operations
    pass [GET_PRIVATE]: none of them fails with the error for a closed
    handle.  [remoteNumOfDomains] goes on to write to the descriptor that
    has been closed and fails with the system error of that write;
    [remoteType] hands out the string that has been freed. *)
Theorem use_after_close_is_not_refused :
  let r := run_ops int_error [OpClose; OpNumOfDomains; OpType]%list
                   (Some plain_cached) closing_peer in
  fst (fst r)
  = [Ok (RetInt 0);
     Fail (Raise true VIR_ERR_SYSTEM_ERROR "strerror" [EBADF]%list);
     Ok (RetString (lit "QEMU"))]%list
  /\ ~ In (Fail closed_handle) (fst (fst r))
  /\ snd (fst r) = Some (mk_priv MAGIC 7 false None (Some (lit "QEMU")) 7)
  /\ skipn 4 (events (snd r))
     = [EvClose 7; EvFree (lit "QEMU"); EvWrite []%list (WrErr EBADF)]%list.
Proof.
  vm_compute. repeat split; try reflexivity.
  intros [H|[H|[H|[]]]]; discriminate H.
Qed.

(** C2 (the code at the failing input): the peer closes the stream before
    it answers the close RPC.  [remoteClose] reports that failure and stops:
    the TLS session is not shut down, the socket is not closed and the
    cached type is not freed. *)
Theorem remoteClose_stops_at_failed_rpc :
  let r := remoteClose int_error (Some tls_cached) quiet in
  fst (fst r) = Fail (Raise true VIR_ERR_RPC "socket closed unexpectedly" []%list)
  /\ events (snd r)
     = [EvWrite (xdr_put32 28) (WrLen 4);
        EvWrite (xdr_remote_message_header_encode
                   (request_header REMOTE_PROC_CLOSE 5)) (WrLen 24);
        EvRead 4 (RdData []%list)]%list
  /\ ~ In EvBye (events (snd r))
  /\ ~ In (EvClose 7) (events (snd r))
  /\ ~ In (EvFree (lit "QEMU")) (events (snd r)).
Proof.
  vm_compute. repeat split; try reflexivity;
    intros [H|[H|[H|[]]]]; discriminate H.
Qed.

(** C5 (as stated): in a run of [2^32 + 1] calls the last call does not get
    the serial [2^32]: the 32-bit counter has come round, and the call is
    given the serial 0 like the first one. *)
Lemma serial_repeats_after_2_32_calls :
  let sers := fst (fst (run_calls int_error (repeat ping (N.to_nat 4294967297))
                                  fresh_priv quiet)) in
  nth (N.to_nat 4294967296) sers (-1) = 0
  /\ nth (N.to_nat 4294967296) sers (-1) <> 4294967296
  /\ nth 0 sers (-1) = 0.
Proof.
  cbv zeta. rewrite run_calls_serials by (cbn; lia).
  rewrite repeat_length.
  set (f := fun k => int32 (counter fresh_priv + Z.of_nat k)).
  assert (Hlen : (N.to_nat 4294967296 < length (map f (seq 0 (N.to_nat 4294967297))))%nat)
    by (rewrite length_map, length_seq; lia).
  assert (Hlast : nth (N.to_nat 4294967296) (map f (seq 0 (N.to_nat 4294967297))) (-1) = 0).
  { rewrite (nth_indep _ (-1) (f 0%nat)) by exact Hlen.
    rewrite (map_nth f), seq_nth by lia.
    unfold f. rewrite Nat.add_0_l, N_nat_Z. reflexivity. }
  assert (Hfirst : nth 0 (map f (seq 0 (N.to_nat 4294967297))) (-1) = 0).
  { rewrite (nth_indep _ (-1) (f 0%nat)) by lia.
    rewrite (map_nth f), seq_nth by lia. reflexivity. }
  rewrite Hlast, Hfirst. repeat split. discriminate.
Qed.

(* ------------------------------------------------------------------ *)
(** ** The query codec: parse, extract the reserved names, rebuild *)

Close Scope Z_scope.

Lemma escape_char_ok_all (ch : ascii) : escape_char_ok ch = true.
Proof. destruct ch as [[] [] [] [] [] [] [] []]; vm_compute; reflexivity. Qed.

(** The two shapes of an escaped character. *)
Lemma escape_char_shape (ch : ascii) :
  (escape_char [] ch = [ch] /\ ch <> "%"%char /\ ch <> "&"%char /\ ch <> "="%char)
  \/ exists h1 h2,
       escape_char [] ch = ["%"%char; h1; h2]
       /\ is_hex h1 = true /\ is_hex h2 = true
       /\ ascii_of_N ((hex_val h1 * 16 + hex_val h2) mod 256) = ch
       /\ h1 <> "&"%char /\ h1 <> "="%char /\ h2 <> "&"%char /\ h2 <> "="%char.
Proof.
  pose proof (escape_char_ok_all ch) as H. unfold escape_char_ok in H.
  destruct (escape_char [] ch) as [|c [|h1 [|h2 [|? ?]]]]; try discriminate.
  - left. repeat (apply andb_true_iff in H; destruct H as [H ?]).
    apply Ascii.eqb_eq in H. subst c.
    repeat split; try reflexivity; intros ->; discriminate.
  - right. exists h1, h2.
    repeat (apply andb_true_iff in H; destruct H as [H ?]).
    apply Ascii.eqb_eq in H. subst c.
    match goal with Hd : Ascii.eqb (ascii_of_N _) ch = true |- _ =>
      apply Ascii.eqb_eq in Hd end.
    repeat split; try assumption; try reflexivity; intros ->; discriminate.
Qed.

Lemma unescape_window_plain (c : ascii) (t : list ascii) :
  c <> "%"%char -> unescape_window (c :: t) = c :: unescape_window t.
Proof.
  intros Hc. apply Ascii.eqb_neq in Hc.
  destruct t as [|h1 [|h2 rest]]; cbn; rewrite ?Hc; reflexivity.
Qed.

(** Percent-decoding undoes [xmlURIEscapeStr]. *)
Lemma unescape_escape (s : cstring) :
  unescape_window (xmlURIEscapeStr s []) = s.
Proof.
  induction s as [|ch s IH]; [reflexivity|].
  unfold xmlURIEscapeStr in *. cbn [flat_map].
  destruct (escape_char_shape ch) as [(He & Hp & _)|(h1 & h2 & He & H1 & H2 & Hd & _)];
    rewrite He.
  - cbn [app]. rewrite unescape_window_plain by assumption. now rewrite IH.
  - cbn [app unescape_window]. rewrite H1, H2. cbn. now rewrite Hd, IH.
Qed.

(** An escaped string contains neither ['&'] nor ['=']. *)
Lemma escape_avoids (s : cstring) :
  Forall (fun c => c <> "&"%char /\ c <> "="%char) (xmlURIEscapeStr s []).
Proof.
  induction s as [|ch s IH]; [constructor|].
  unfold xmlURIEscapeStr in *. cbn [flat_map].
  destruct (escape_char_shape ch)
    as [(He & _ & Ha & Hq)|(h1 & h2 & He & _ & _ & _ & ? & ? & ? & ?)];
    rewrite He; cbn [app]; repeat constructor; try assumption; discriminate.
Qed.

Lemma break_at_app (c : ascii) (a b : cstring) :
  Forall (fun x => x <> c) a -> break_at c (a ++ c :: b) = (a, c :: b).
Proof.
  induction 1 as [|x a Hx _ IH]; cbn.
  - now rewrite Ascii.eqb_refl.
  - apply Ascii.eqb_neq in Hx. now rewrite Hx, IH.
Qed.

Lemma split_on_app (c : ascii) (a b : cstring) :
  Forall (fun x => x <> c) a -> split_on c (a ++ c :: b) = a :: split_on c b.
Proof.
  induction 1 as [|x a Hx _ IH]; cbn.
  - now rewrite Ascii.eqb_refl.
  - apply Ascii.eqb_neq in Hx. now rewrite Hx, IH.
Qed.

Lemma split_on_none (c : ascii) (a : cstring) :
  Forall (fun x => x <> c) a -> split_on c a = [a].
Proof.
  induction 1 as [|x a Hx _ IH]; cbn; [reflexivity|].
  apply Ascii.eqb_neq in Hx. now rewrite Hx, IH.
Qed.

Lemma encode_field_avoids_amp (f : query_fields) :
  Forall (fun x => x <> "&"%char) (encode_field f).
Proof.
  unfold encode_field. apply Forall_app. split; [|apply Forall_app; split].
  - eapply Forall_impl; [|apply escape_avoids]. now intros ? [? _].
  - repeat constructor. discriminate.
  - eapply Forall_impl; [|apply escape_avoids]. now intros ? [? _].
Qed.

(** A written field reads back as its name and its value. *)
Lemma spec_decode_encode_field (f : query_fields) :
  spec_decode_section (encode_field f) = (name f, value f).
Proof.
  unfold spec_decode_section, encode_field. cbn [lit list_ascii_of_string app].
  rewrite break_at_app.
  - cbn [tl]. now rewrite !unescape_escape.
  - eapply Forall_impl; [|apply escape_avoids]. now intros ? [_ ?].
Qed.

(** The sections of the written query are the written fields. *)
Lemma split_render (f : query_fields) (rest : list query_fields) :
  split_on "&" (encode_field f ++ render true rest)
  = map encode_field (f :: rest).
Proof.
  revert f. induction rest as [|g rest IH]; intros f; cbn [render map].
  - rewrite app_nil_r. apply split_on_none, encode_field_avoids_amp.
  - cbn [lit list_ascii_of_string app].
    rewrite split_on_app by apply encode_field_avoids_amp.
    now rewrite IH.
Qed.

Lemma spec_decode_render (kept : list query_fields) :
  spec_decode_query (Some (render false kept)) = pairs kept.
Proof.
  destruct kept as [|f rest]; [reflexivity|].
  cbn [render app]. unfold spec_decode_query.
  destruct (encode_field f ++ render true rest) as [|c s] eqn:Hs.
  - unfold encode_field in Hs.
    destruct (xmlURIEscapeStr (name f) []); discriminate Hs.
  - rewrite <- Hs, split_render, map_map. unfold pairs.
    apply map_ext. intros g. apply spec_decode_encode_field.
Qed.

(** The buffer after the loop of [query_create]. *)
Lemma query_create_loop_render (fs : list query_fields) (sep : bool) (buf : cstring) :
  query_create_loop fs sep buf = buf ++ render sep (kept_of fs).
Proof.
  revert sep buf. induction fs as [|f fs IH]; intros sep buf; cbn.
  - now rewrite app_nil_r.
  - destruct (ignore f); cbn [negb render].
    + apply IH.
    + rewrite IH. unfold encode_field. destruct sep; rewrite <- ?app_assoc; reflexivity.
Qed.

(** The loop over the fields in [remoteOpen] marks exactly the fields with
    a reserved name. *)
Lemma get_var_marks (var : query_fields) (v : open_vars) :
  fst (get_var var v) = if reserved (name var) then set_ignore var else var.
Proof.
  unfold get_var, reserved.
  repeat match goal with
         | |- context [strcaseeq ?a ?b] => destruct (strcaseeq a b)
         end; reflexivity.
Qed.

Lemma get_vars_marks (vars : list query_fields) (v : open_vars) :
  fst (get_vars vars v)
  = map (fun f => if reserved (name f) then set_ignore f else f) vars.
Proof.
  revert v. induction vars as [|var vars IH]; intros v; [reflexivity|].
  cbn [get_vars map]. pose proof (get_var_marks var v) as Hv.
  destruct (get_var var v) as [var' v']. cbn in Hv. subst var'.
  specialize (IH v'). destruct (get_vars vars v') as [rest v'']. cbn in IH |- *.
  now rewrite IH.
Qed.

(** The parser hands out fields that are not ignored. *)
Lemma query_parse_step_not_ignored (query : cstring) (f : query_fields) (next : cstring) :
  query_parse_step query = (Some f, next) -> ignore f = false.
Proof.
  unfold query_parse_step. destruct (break_at "&" query) as [section end_].
  destruct section as [|c section]; [discriminate|].
  destruct (strchr query "=") as [i|].
  - destruct (length (c :: section) <=? i); [intros H; inversion H; reflexivity|].
    destruct (S i =? length (c :: section)); [intros H; inversion H; reflexivity|].
    destruct (i =? 0); [discriminate|]. intros H; inversion H; reflexivity.
  - intros H; inversion H; reflexivity.
Qed.

Lemma query_parse_loop_not_ignored (fuel : nat) (query : cstring) :
  Forall (fun f => ignore f = false) (query_parse_loop fuel query).
Proof.
  revert query. induction fuel as [|fuel IH]; intros query; cbn; [constructor|].
  destruct query as [|c q]; [constructor|].
  destruct (query_parse_step (c :: q)) as [[f|] next] eqn:Hs.
  - constructor; [eapply query_parse_step_not_ignored; eassumption | apply IH].
  - apply IH.
Qed.

Lemma kept_of_marked (vars : list query_fields) :
  Forall (fun f => ignore f = false) vars ->
  kept_of (map (fun f => if reserved (name f) then set_ignore f else f) vars)
  = filter (fun f => negb (reserved (name f))) vars.
Proof.
  induction 1 as [|f vars Hf _ IH]; [reflexivity|].
  cbn [map kept_of filter]. fold (kept_of (map (fun f => if reserved (name f) then set_ignore f else f) vars)).
  destruct (reserved (name f)); cbn [ignore set_ignore negb].
  - exact IH.
  - rewrite Hf. cbn [negb]. now rewrite IH.
Qed.

(** Fields that are not ignored, marked by [remoteOpen] and written by
    [query_create], decode to those among them whose name is not
    reserved. *)
Lemma rebuilt_query_decodes (vars : list query_fields) (v : open_vars) :
  Forall (fun f => ignore f = false) vars ->
  spec_decode_query (query_create (fst (get_vars vars v)))
  = pairs (filter (fun f => negb (reserved (name f))) vars).
Proof.
  intros Hq. rewrite get_vars_marks.
  destruct vars as [|f vars]; [reflexivity|].
  unfold query_create. rewrite <- (kept_of_marked Hq).
  set (marked := map _ (f :: vars)).
  replace (match marked with [] => None | _ :: _ => Some (query_create_loop marked false []) end)
    with (Some (query_create_loop marked false [])) by reflexivity.
  rewrite query_create_loop_render. cbn [app]. apply spec_decode_render.
Qed.

(* ------------------------------------------------------------------ *)
(** ** Reading the rebuilt query with [query_parse] itself *)

Lemma c_str_no_nul (s : list ascii) : no_nul (c_str s).
Proof.
  induction s as [|c s IH]; cbn; [constructor|].
  destruct (Ascii.eqb c NUL) eqn:Hc; [constructor|].
  constructor; [now apply Ascii.eqb_neq | exact IH].
Qed.

Lemma c_str_id (s : list ascii) : no_nul s -> c_str s = s.
Proof.
  induction 1 as [|c s Hc _ IH]; cbn; [reflexivity|].
  apply Ascii.eqb_neq in Hc. now rewrite Hc, IH.
Qed.

Lemma escape_char_no_nul (ch : ascii) :
  forallb (fun c => negb (Ascii.eqb c NUL)) (escape_char [] ch) = true.
Proof. destruct ch as [[] [] [] [] [] [] [] []]; vm_compute; reflexivity. Qed.

Lemma escape_no_nul (s : cstring) : no_nul (xmlURIEscapeStr s []).
Proof.
  induction s as [|ch s IH]; [constructor|].
  unfold xmlURIEscapeStr in *. cbn [flat_map]. apply Forall_app. split; [|exact IH].
  pose proof (escape_char_no_nul ch) as H. rewrite forallb_forall in H.
  apply Forall_forall. intros c Hc. specialize (H c Hc).
  apply negb_true_iff in H. now apply Ascii.eqb_neq.
Qed.

Lemma escape_nonempty (s : cstring) : s <> [] -> xmlURIEscapeStr s [] <> [].
Proof.
  destruct s as [|ch s]; [contradiction|]. intros _.
  unfold xmlURIEscapeStr. cbn [flat_map].
  destruct (escape_char_shape ch) as [(He & _)|(h1 & h2 & He & _)]; rewrite He; discriminate.
Qed.

Lemma break_at_none (c : ascii) (a : cstring) :
  Forall (fun x => x <> c) a -> break_at c a = (a, []).
Proof.
  induction 1 as [|x a Hx _ IH]; cbn; [reflexivity|].
  apply Ascii.eqb_neq in Hx. now rewrite Hx, IH.
Qed.

Lemma break_at_length (c : ascii) (s : cstring) :
  length (fst (break_at c s)) + length (snd (break_at c s)) = length s.
Proof.
  induction s as [|x s IH]; cbn; [reflexivity|].
  destruct (Ascii.eqb x c); cbn; [reflexivity|].
  destruct (break_at c s) as [p r]. cbn in *. lia.
Qed.

Lemma strchr_app (c : ascii) (a b : cstring) :
  Forall (fun x => x <> c) a -> strchr (a ++ c :: b) c = Some (length a).
Proof.
  induction 1 as [|x a Hx _ IH]; cbn.
  - now rewrite Ascii.eqb_refl.
  - apply Ascii.eqb_neq in Hx. now rewrite Hx, IH.
Qed.

(** Every turn of the parsing loop leaves a shorter string. *)
Lemma query_parse_step_shrinks (c : ascii) (q : cstring) :
  length (snd (query_parse_step (c :: q))) < length (c :: q).
Proof.
  unfold query_parse_step. pose proof (break_at_length "&" (c :: q)) as Hl.
  destruct (break_at "&" (c :: q)) as [section end_]. cbn [fst snd] in *.
  destruct end_ as [|x after]; cbn [length] in *; lia.
Qed.

(** The loop does not depend on its fuel once there is enough of it. *)
Lemma query_parse_loop_fuel (n m : nat) (q : cstring) :
  length q <= n -> length q <= m -> query_parse_loop n q = query_parse_loop m q.
Proof.
  revert m q. induction n as [|n IH]; intros m q Hn Hm.
  - destruct q; [|cbn in Hn; lia]. destruct m; reflexivity.
  - destruct q as [|c q]; [destruct m; reflexivity|].
    destruct m as [|m]; [cbn in Hm; lia|].
    cbn [query_parse_loop]. pose proof (query_parse_step_shrinks c q) as Hs.
    destruct (query_parse_step (c :: q)) as [[f|] next]; cbn [snd] in Hs;
      cbn [length] in *; rewrite (IH m next) by lia; reflexivity.
Qed.

(** One turn of the loop on a field written by [query_create], followed by
    the end of the string or by a separator and more. *)
Lemma query_parse_step_encoded (f : query_fields) (more : cstring) :
  name f <> [] -> no_nul (name f) -> no_nul (value f) ->
  query_parse_step (encode_field f ++ match more with [] => [] | _ => "&"%char :: more end)
  = (Some (mk_field (name f) (value f) false), more).
Proof.
  intros Hne Hn Hv. unfold query_parse_step, encode_field.
  set (en := xmlURIEscapeStr (name f) []). set (ev := xmlURIEscapeStr (value f) []).
  set (tail := match more with [] => [] | _ => "&"%char :: more end).
  assert (Hen : Forall (fun x => x <> "="%char) en)
    by (eapply Forall_impl; [|apply escape_avoids]; now intros ? [_ ?]).
  assert (Hsec : Forall (fun x => x <> "&"%char) (en ++ lit "=" ++ ev))
    by apply (encode_field_avoids_amp f).
  assert (Hbreak : break_at "&" ((en ++ lit "=" ++ ev) ++ tail)
                   = (en ++ lit "=" ++ ev, tail)).
  { unfold tail. destruct more as [|x more'].
    - rewrite app_nil_r. now apply break_at_none.
    - now apply break_at_app. }
  rewrite Hbreak.
  assert (Hnext : match tail with [] => [] | _ :: after => after end = more)
    by (unfold tail; destruct more; reflexivity).
  rewrite Hnext.
  assert (Hchr : strchr ((en ++ lit "=" ++ ev) ++ tail) "=" = Some (length en)).
  { cbn [lit list_ascii_of_string app]. rewrite <- app_assoc. cbn [app].
    now apply strchr_app. }
  rewrite Hchr.
  assert (Hlen : length (en ++ lit "=" ++ ev) = length en + S (length ev))
    by (rewrite length_app; reflexivity).
  assert (Hen0 : length en <> 0).
  { intros H0. apply length_zero_iff_nil in H0. now apply (escape_nonempty Hne). }
  rewrite Hlen.
  replace (length en + S (length ev) <=? length en) with false
    by (symmetry; apply Nat.leb_gt; lia).
  assert (Hname : xmlURIUnescapeString ((en ++ lit "=" ++ ev) ++ tail) (length en)
                  = name f).
  { unfold xmlURIUnescapeString.
    replace (length en =? 0) with false by (symmetry; now apply Nat.eqb_neq).
    rewrite <- !app_assoc, firstn_app, Nat.sub_diag, firstn_all. cbn [firstn].
    rewrite app_nil_r. unfold en. rewrite unescape_escape. now apply c_str_id. }
  assert (Hempty : length ev = 0 -> value f = []).
  { intros H0. apply length_zero_iff_nil in H0. unfold ev in H0.
    destruct (value f) as [|x val]; [reflexivity|].
    exfalso. apply (@escape_nonempty (x :: val)); [discriminate | exact H0]. }
  assert (Hvalue : length ev <> 0 ->
                   xmlURIUnescapeString
                     (skipn (S (length en)) ((en ++ lit "=" ++ ev) ++ tail)) (length ev)
                   = value f).
  { intros Hev. unfold xmlURIUnescapeString.
    replace (length ev =? 0) with false by (symmetry; now apply Nat.eqb_neq).
    cbn [lit list_ascii_of_string app]. rewrite <- !app_assoc. cbn [app].
    replace (S (length en)) with (length (en ++ ["="%char]))
      by (rewrite length_app; cbn; lia).
    replace (en ++ "="%char :: ev ++ tail) with ((en ++ ["="%char]) ++ ev ++ tail)
      by (rewrite <- app_assoc; reflexivity).
    rewrite skipn_app, skipn_all, Nat.sub_diag. cbn [skipn app].
    rewrite firstn_app, Nat.sub_diag, firstn_all. cbn [firstn].
    rewrite app_nil_r. unfold ev. rewrite unescape_escape. now apply c_str_id. }
  remember (en ++ lit "=" ++ ev) as sec eqn:Hsec0.
  destruct sec as [|c0 sec0]; [destruct en; discriminate Hsec0|].
  rewrite Hname.
  destruct (S (length en) =? length en + S (length ev)) eqn:Hlast.
  - apply Nat.eqb_eq in Hlast. rewrite Hempty by lia. reflexivity.
  - apply Nat.eqb_neq in Hlast.
    replace (length en =? 0) with false by (symmetry; now apply Nat.eqb_neq).
    replace (length en + S (length ev) - S (length en)) with (length ev) by lia.
    rewrite Hvalue by lia. reflexivity.
Qed.

Lemma render_true (rest : list query_fields) :
  render true rest
  = match render false rest with [] => [] | _ => "&"%char :: render false rest end.
Proof.
  destruct rest as [|g r]; [reflexivity|]. cbn [render app lit list_ascii_of_string].
  destruct (encode_field g ++ render true r) eqn:He; [|reflexivity].
  unfold encode_field in He. destruct (xmlURIEscapeStr (name g) []); discriminate He.
Qed.

Lemma render_no_nul (sep : bool) (kept : list query_fields) : no_nul (render sep kept).
Proof.
  revert sep. induction kept as [|f rest IH]; intros sep; [constructor|].
  cbn [render]. unfold no_nul. rewrite !Forall_app. split; [|split].
  - destruct sep; repeat constructor. discriminate.
  - unfold encode_field. rewrite !Forall_app. split; [apply escape_no_nul|].
    split; [repeat constructor; discriminate | apply escape_no_nul].
  - apply IH.
Qed.

Lemma query_parse_loop_S (fuel : nat) (q : cstring) :
  q <> [] ->
  query_parse_loop (S fuel) q
  = match query_parse_step q with
    | (Some f, next) => f :: query_parse_loop fuel next
    | (None, next) => query_parse_loop fuel next
    end.
Proof.
  destruct q as [|c q]; [contradiction|]. intros _. cbn [query_parse_loop].
  destruct (query_parse_step (c :: q)) as [[f|] next]; reflexivity.
Qed.

Lemma query_parse_loop_render (kept : list query_fields) :
  Forall writable kept ->
  query_parse_loop (length (render false kept)) (render false kept)
  = map (fun f => mk_field (name f) (value f) false) kept.
Proof.
  induction 1 as [|f rest (Hne & Hn & Hv) _ IH]; [reflexivity|].
  cbn [render app map]. rewrite render_true.
  set (more := render false rest) in *.
  match goal with
  | |- query_parse_loop (length ?x) ?x = _ => set (q := x)
  end.
  assert (Hq : length more <= length q).
  { unfold q. rewrite length_app. destruct more; cbn [length]; lia. }
  assert (Hq0 : q <> []).
  { unfold q, encode_field. destruct (xmlURIEscapeStr (name f) []); discriminate. }
  rewrite (@query_parse_loop_fuel (length q) (S (length q)) q) by lia.
  assert (Hstep : query_parse_step q = (Some (mk_field (name f) (value f) false), more))
    by (apply query_parse_step_encoded; assumption).
  rewrite (query_parse_loop_S _ Hq0), Hstep.
  rewrite (@query_parse_loop_fuel (length q) (length more) more) by lia.
  now rewrite IH.
Qed.

Lemma xmlURIUnescapeString_no_nul (str : cstring) (len : nat) :
  no_nul (xmlURIUnescapeString str len).
Proof. apply c_str_no_nul. Qed.

Lemma query_parse_step_no_nul (query : cstring) (f : query_fields) (next : cstring) :
  query_parse_step query = (Some f, next) -> no_nul (name f) /\ no_nul (value f).
Proof.
  unfold query_parse_step. destruct (break_at "&" query) as [section end_].
  destruct section as [|c section]; [discriminate|].
  destruct (strchr query "=") as [i|].
  - destruct (length (c :: section) <=? i);
      [intros H; inversion H; split;
       [apply xmlURIUnescapeString_no_nul | constructor]|].
    destruct (S i =? length (c :: section));
      [intros H; inversion H; split;
       [apply xmlURIUnescapeString_no_nul | constructor]|].
    destruct (i =? 0); [discriminate|].
    intros H; inversion H; split; apply xmlURIUnescapeString_no_nul.
  - intros H; inversion H; split; [apply xmlURIUnescapeString_no_nul | constructor].
Qed.

Lemma query_parse_loop_no_nul (fuel : nat) (query : cstring) :
  Forall (fun f => no_nul (name f) /\ no_nul (value f)) (query_parse_loop fuel query).
Proof.
  revert query. induction fuel as [|fuel IH]; intros query; cbn; [constructor|].
  destruct query as [|c q]; [constructor|].
  destruct (query_parse_step (c :: q)) as [[f|] next] eqn:Hs.
  - constructor; [eapply query_parse_step_no_nul; eassumption | apply IH].
  - apply IH.
Qed.

(** X23: the query that [remoteOpen] rebuilds, read again by [query_parse]:
    the fields with a name that is not reserved come back as they were, in
    their order, and the reserved ones are gone, provided none of the
    fields that stay has an empty name (a name decodes to the empty string
    when it starts with [%00]). *)
Theorem query_reparse (query : cstring) (v : open_vars) :
  Forall (fun f => reserved (name f) = false -> name f <> []) (query_parse query) ->
  pairs (query_parse
           match query_create (fst (get_vars (query_parse query) v)) with
           | Some q => q
           | None => []
           end)
  = pairs (filter (fun f => negb (reserved (name f))) (query_parse query)).
Proof.
  intros Hnames. rewrite get_vars_marks.
  assert (Hq : Forall (fun f => ignore f = false) (query_parse query))
    by apply query_parse_loop_not_ignored.
  assert (Hz : Forall (fun f => no_nul (name f) /\ no_nul (value f)) (query_parse query))
    by apply query_parse_loop_no_nul.
  destruct (query_parse query) as [|f vars] eqn:Hp; [reflexivity|].
  unfold query_create.
  set (marked := map _ (f :: vars)).
  replace (match marked with [] => None | _ :: _ => Some (query_create_loop marked false []) end)
    with (Some (query_create_loop marked false [])) by reflexivity.
  rewrite query_create_loop_render. cbn [app]. unfold marked.
  rewrite (kept_of_marked Hq).
  set (kept := filter _ (f :: vars)).
  assert (Hw : Forall writable kept).
  { apply Forall_forall. intros g Hg. apply filter_In in Hg. destruct Hg as [Hin Hres].
    apply negb_true_iff in Hres. rewrite Forall_forall in Hnames, Hz.
    destruct (Hz g Hin). split; [apply Hnames; assumption | split; assumption]. }
  unfold query_parse at 1. rewrite (c_str_id (render_no_nul false kept)).
  rewrite (query_parse_loop_render Hw). unfold pairs. rewrite map_map. reflexivity.
Qed.

(** The proviso is needed: the name of [%00=x] decodes to the empty string,
    the field is written as [=x], and [query_parse] skips such a section. *)
Lemma query_reparse_empty_name :
  pairs (query_parse (lit "%00=x")) = [([], lit "x")]
  /\ query_create (fst (get_vars (query_parse (lit "%00=x")) (mk_vars None None None None 0)))
     = Some (lit "=x")
  /\ query_parse (lit "=x") = [].
Proof. repeat split; reflexivity. Qed.

Lemma fields_not_ignored (fs : list query_fields) :
  Forall (fun f => ignore f = false) fs ->
  map (fun f => mk_field (name f) (value f) false) fs = fs.
Proof.
  induction 1 as [|f fs Hf _ IH]; [reflexivity|].
  cbn [map]. rewrite IH. destruct f as [n v i]. cbn in Hf. now subst i.
Qed.

(** C6 (as stated): the query [%00=x] is accepted and has one parameter,
    which is not reserved: its name decodes to the empty string and its
    value is [x].  The string that is rebuilt is [=x], and that string holds
    no parameter: [query_parse] skips a section that starts with ['='].  So
    the parameter is not preserved. *)
Lemma query_round_trip_loses_empty_name :
  filter (fun f => negb (reserved (name f))) (query_parse (lit "%00=x"))
  = [mk_field [] (lit "x") false]
  /\ query_create (fst (get_vars (query_parse (lit "%00=x"))
                                 (mk_vars None None None None 0)))
     = Some (lit "=x")
  /\ query_parse (lit "=x") = []
  /\ query_parse (lit "=x")
     <> filter (fun f => negb (reserved (name f))) (query_parse (lit "%00=x")).
Proof. repeat split; try reflexivity. discriminate. Qed.

(** C6 (amended): parse a query string, let [remoteOpen] take out the
    reserved names, and write the query again.  When none of the parameters
    that stay has a name that decodes to the empty string, the string that
    results holds exactly the parameters whose name is not reserved:
    [query_parse] reads it back as these fields, each with the name and the
    value it was parsed with, in their original order; no string is written
    exactly when the query had no field at all; the string that is written
    is these parameters in their order, each as its escaped name, ['='] and
    its escaped value, with ['&'] between them.  Reading back loses nothing:
    whatever parameters are written in this way, with names that are not
    empty, [query_parse] returns them as they are. *)
Theorem query_round_trip (query : cstring) (v : open_vars) :
  Forall (fun f => reserved (name f) = false -> name f <> []) (query_parse query) ->
  query_parse match query_create (fst (get_vars (query_parse query) v)) with
              | Some q => q
              | None => []
              end
  = filter (fun f => negb (reserved (name f))) (query_parse query)
  /\ (query_create (fst (get_vars (query_parse query) v)) = None
      <-> query_parse query = [])
  /\ (forall q,
        query_create (fst (get_vars (query_parse query) v)) = Some q ->
        q = render false (filter (fun f => negb (reserved (name f))) (query_parse query)))
  /\ (forall fs,
        Forall writable fs -> Forall (fun f => ignore f = false) fs ->
        query_parse (render false fs) = fs).
Proof.
  intros Hnames.
  assert (Hback : forall fs,
             Forall writable fs -> Forall (fun f => ignore f = false) fs ->
             query_parse (render false fs) = fs).
  { intros fs Hw Hi. unfold query_parse. rewrite (c_str_id (render_no_nul false fs)).
    rewrite (query_parse_loop_render Hw). now apply fields_not_ignored. }
  rewrite get_vars_marks.
  assert (Hq : Forall (fun f => ignore f = false) (query_parse query))
    by apply query_parse_loop_not_ignored.
  assert (Hz : Forall (fun f => no_nul (name f) /\ no_nul (value f)) (query_parse query))
    by apply query_parse_loop_no_nul.
  destruct (query_parse query) as [|f vars] eqn:Hp.
  { split; [reflexivity|]. split; [split; reflexivity|].
    split; [discriminate | exact Hback]. }
  unfold query_create.
  set (marked := map _ (f :: vars)).
  replace (match marked with [] => None | _ :: _ => Some (query_create_loop marked false []) end)
    with (Some (query_create_loop marked false [])) by reflexivity.
  rewrite query_create_loop_render. cbn [app]. unfold marked.
  rewrite (kept_of_marked Hq).
  set (kept := filter _ (f :: vars)).
  assert (Hin : forall g, In g kept -> In g (f :: vars) /\ reserved (name g) = false).
  { intros g Hg. apply filter_In in Hg. destruct Hg as [Hg Hres].
    apply negb_true_iff in Hres. split; assumption. }
  assert (Hw : Forall writable kept).
  { apply Forall_forall. intros g Hg. destruct (Hin g Hg) as [Hmem Hres].
    rewrite Forall_forall in Hnames, Hz.
    destruct (Hz g Hmem). split; [apply Hnames; assumption | split; assumption]. }
  assert (Hk : Forall (fun f => ignore f = false) kept).
  { apply Forall_forall. intros g Hg. destruct (Hin g Hg) as [Hmem _].
    rewrite Forall_forall in Hq. now apply Hq. }
  split; [exact (Hback kept Hw Hk)|].
  split; [split; discriminate|].
  split; [intros q [= <-]; reflexivity | exact Hback].
Qed.

(** The theorem at a query with a name of each kind. *)
Lemma query_round_trip_witness :
  query_parse match query_create
                      (fst (get_vars (query_parse (lit "NAME=x&a=1&b=%26&socket=s"))
                                     (mk_vars None None None None 0))) with
              | Some q => q
              | None => []
              end
  = [mk_field (lit "a") (lit "1") false; mk_field (lit "b") (lit "&") false]
  /\ query_create (fst (get_vars (query_parse (lit "NAME=x&a=1&b=%26&socket=s"))
                                 (mk_vars None None None None 0)))
     = Some (lit "a=1&b=%26")
  /\ query_parse (lit "a=1&b=%26")
     = [mk_field (lit "a") (lit "1") false; mk_field (lit "b") (lit "&") false].
Proof.
  assert (Hnames : Forall (fun f => reserved (name f) = false -> name f <> [])
                          (query_parse (lit "NAME=x&a=1&b=%26&socket=s")))
    by (repeat constructor; discriminate).
  destruct (@query_round_trip (lit "NAME=x&a=1&b=%26&socket=s")
                              (mk_vars None None None None 0) Hnames)
    as (Hparse & _ & Htext & Hback).
  split; [exact Hparse|]. split; [reflexivity|].
  apply (Hback [mk_field (lit "a") (lit "1") false; mk_field (lit "b") (lit "&") false]).
  - repeat constructor; discriminate.
  - repeat constructor.
Defined.

(** X24: the query that [remoteOpen] leaves in the URI it passes on to the
    server, read section by section (split at ['&'], then at the first
    ['='], percent-decoded), is the list of the fields of the query of the
    URI whose names are not reserved, in their order: the reserved
    variables are taken out and nothing else is lost or changed. *)
Lemma forwarded_query {P : remote_protocol} (E : Type) (uri : xmlURI) (p : open_params) :
  remoteOpen_params E (Some uri) = Proceed p ->
  spec_decode_query (o_query p)
  = pairs (filter (fun f => negb (reserved (name f)))
                  match uri_query uri with
                  | Some q => query_parse q
                  | None => []
                  end).
Proof.
  assert (Hrt : spec_decode_query (query_create (fst (query_fields_and_vars uri)))
                = pairs (filter (fun f => negb (reserved (name f)))
                                match uri_query uri with
                                | Some q => query_parse q
                                | None => []
                                end)).
  { unfold query_fields_and_vars. apply rebuilt_query_decodes.
    destruct (uri_query uri) as [q|];
      [apply query_parse_loop_not_ignored | constructor]. }
  unfold remoteOpen_params.
  destruct (uri_scheme uri) as [scheme|]; [|discriminate].
  destruct (query_fields_and_vars uri) as [vars v]. cbn [fst] in Hrt.
  destruct (uri_server uri), (get_transport_from_scheme scheme); try discriminate;
    (destruct (what_transport _) as [tr|]; [|discriminate]);
    (destruct (negb (uri_port uri =? 0)%Z));
    destruct tr, (v_command v); try discriminate;
    intros H; inversion H; subst; exact Hrt.
Qed.

(* ------------------------------------------------------------------ *)
(** ** The read and write loops *)

Open Scope Z_scope.

Lemma wire_app (a b : list sys_event) : wire (a ++ b) = (wire a ++ wire b)%list.
Proof.
  induction a as [|ev a IH]; [reflexivity|].
  destruct ev; cbn; rewrite ?IH, ?app_assoc; reflexivity.
Qed.

Lemma firstn_skipn_add {A} (n k : nat) (l : list A) :
  (firstn n l ++ firstn k (skipn n l))%list = firstn (n + k) l.
Proof.
  revert l. induction n as [|n IH]; intros l; [reflexivity|].
  destruct l as [|x l]; cbn; [now rewrite firstn_nil | now rewrite IH].
Qed.

Section IoProps.

Variable E : Type.

Lemma really_read_loop_length tls in_open script len got evs bs script' evs' :
  0 < len ->
  really_read_loop (E:=E) tls in_open script len got evs = (Ok bs, script', evs') ->
  Z.of_nat (length bs) = Z.of_nat (length got) + len.
Proof.
  revert len got evs. induction script as [|ev script IH]; intros len got evs Hlen;
    [discriminate|].
  destruct ev as [code|data]; cbn [really_read_loop].
  - destruct (transient tls code); [|discriminate].
    replace (0 <? len) with true by (symmetry; now apply Z.ltb_lt).
    apply IH, Hlen.
  - destruct (firstn (Z.to_nat len) data) as [|b taken] eqn:Ht; [discriminate|].
    assert (Hle : Z.of_nat (length (b :: taken)) <= len).
    { rewrite <- Ht, length_firstn. lia. }
    destruct (0 <? len - Z.of_nat (length (b :: taken))) eqn:Hmore.
    + apply Z.ltb_lt in Hmore. intros H. apply IH in H; [|exact Hmore].
      rewrite length_app in H. lia.
    + apply Z.ltb_ge in Hmore. intros H. inversion H; subst.
      rewrite length_app. lia.
Qed.

(** X1: when [really_read] succeeds for a positive length it hands back
    exactly that many bytes; it leaves the write side of the channel alone
    and only adds to the record of what was done. *)
Theorem really_read_exact priv in_open len w bs w' :
  0 < len ->
  really_read (E:=E) priv in_open len w = (Ok bs, w') ->
  Z.of_nat (length bs) = len
  /\ outgoing w' = outgoing w
  /\ exists tail, events w' = (events w ++ tail)%list.
Proof.
  intros Hlen. unfold really_read.
  pose proof (really_read_loop_extends E (uses_tls priv) in_open (incoming w) len []
                                       (events w)) as [tail Ht].
  destruct (really_read_loop (uses_tls priv) in_open (incoming w) len [] (events w))
    as [[r inc] evs] eqn:Hloop.
  intros H. inversion H; subst. cbn [snd] in Ht.
  split; [|split; [reflexivity | exists tail; exact Ht]].
  apply (really_read_loop_length _ _ _ _ _ Hlen) in Hloop. cbn in Hloop. lia.
Qed.

Lemma really_read_loop_chunks tls in_open (chunks : list (list octet)) rest got evs :
  chunks <> []%list ->
  Forall (fun c => c <> []%list) chunks ->
  exists evs',
    really_read_loop (E:=E) tls in_open (map RdData chunks ++ rest)%list
                     (Z.of_nat (length (concat chunks))) got evs
    = (Ok (got ++ concat chunks)%list, rest, evs').
Proof.
  intros Hne Hall. revert got evs.
  induction Hall as [|c chunks Hc Hall IH]; [contradiction|]. intros got evs.
  cbn [map app concat really_read_loop]. rewrite length_app.
  replace (firstn (Z.to_nat (Z.of_nat (length c + length (concat chunks)))) c) with c
    by (rewrite firstn_all2; [reflexivity | lia]).
  destruct c as [|b c]; [contradiction|].
  destruct chunks as [|c2 chunks].
  - cbn [concat length]. rewrite Nat.add_0_r, Z.sub_diag. cbn [Z.ltb Z.compare].
    rewrite app_nil_r. eexists. reflexivity.
  - assert (Hmore : 0 < Z.of_nat (length (concat (c2 :: chunks)))).
    { inversion Hall as [|? ? Hc2 _]; subst. destruct c2; [contradiction|].
      cbn. lia. }
    replace (Z.of_nat (length (b :: c) + length (concat (c2 :: chunks)))
             - Z.of_nat (length (b :: c)))
      with (Z.of_nat (length (concat (c2 :: chunks)))) by lia.
    replace (0 <? Z.of_nat (length (concat (c2 :: chunks)))) with true
      by (symmetry; now apply Z.ltb_lt).
    destruct (IH ltac:(discriminate) (got ++ b :: c)%list
                 (evs ++ [EvRead (Z.of_nat (length (b :: c) + length (concat (c2 :: chunks))))
                                 (RdData (b :: c))])%list) as [evs' He].
    rewrite He, <- app_assoc. eexists. reflexivity.
Qed.

(** X2: partial transfers are put together: however the peer cuts the
    [len] bytes it sends into non-empty pieces, [really_read] returns them
    joined, and leaves what the peer sends afterwards unread. *)
Theorem really_read_reassembles priv in_open (chunks : list (list octet))
        (rest : list rd_ev) out evs :
  chunks <> []%list ->
  Forall (fun c => c <> []%list) chunks ->
  exists evs',
    really_read (E:=E) priv in_open (Z.of_nat (length (concat chunks)))
                (mk_world (map RdData chunks ++ rest) out evs)
    = (Ok (concat chunks), mk_world rest out evs').
Proof.
  intros Hne Hall. unfold really_read. cbn [incoming outgoing events].
  destruct (really_read_loop_chunks (uses_tls priv) in_open rest []%list evs Hne Hall)
    as [evs' He].
  rewrite He. exists evs'. reflexivity.
Qed.

(** X3: interruptions do not show in the result: with the reads that end in
    [EINTR] or [EAGAIN] (for TLS: the interrupted and again codes) taken out
    of what the socket does, [really_read] returns the same outcome. *)
Theorem really_read_ignores_interruptions priv in_open len inc out evs :
  0 < len ->
  fst (really_read (E:=E) priv in_open len (mk_world inc out evs))
  = fst (really_read (E:=E) priv in_open len
                     (mk_world (filter (lasting (uses_tls priv)) inc) out evs)).
Proof.
  intros Hlen. unfold really_read. cbn [incoming outgoing events].
  set (tls := uses_tls priv).
  assert (H : forall script len got evs1 evs2, 0 < len ->
             fst (fst (really_read_loop (E:=E) tls in_open script len got evs1))
             = fst (fst (really_read_loop (E:=E) tls in_open
                                          (filter (lasting tls) script) len got evs2))).
  { clear. induction script as [|ev script IH]; intros len got evs1 evs2 Hlen;
      [reflexivity|].
    destruct ev as [code|data]; cbn [filter lasting really_read_loop].
    - destruct (transient tls code) eqn:Htr; cbn [negb].
      + replace (0 <? len) with true by (symmetry; now apply Z.ltb_lt).
        apply IH, Hlen.
      + cbn [really_read_loop]. rewrite Htr. reflexivity.
    - cbn [really_read_loop].
      destruct (firstn (Z.to_nat len) data) as [|b taken]; [reflexivity|].
      destruct (0 <? len - Z.of_nat (length (b :: taken))) eqn:Hmore;
        [apply IH; now apply Z.ltb_lt | reflexivity]. }
  specialize (H inc len []%list evs evs Hlen).
  destruct (really_read_loop tls in_open inc len [] evs) as [[r1 i1] e1].
  destruct (really_read_loop tls in_open (filter (lasting tls) inc) len [] evs)
    as [[r2 i2] e2].
  exact H.
Qed.

Lemma really_read_loop_short tls in_open (chunks : list (list octet)) len got evs :
  Forall (fun c => c <> []%list) chunks ->
  Z.of_nat (length (concat chunks)) < len ->
  fst (fst (really_read_loop (E:=E) tls in_open (map RdData chunks) len got evs))
  = Fail (error (negb in_open) VIR_ERR_RPC "socket closed unexpectedly").
Proof.
  intros Hall. revert len got evs.
  induction Hall as [|c chunks Hc Hall IH]; intros len got evs Hlen; [reflexivity|].
  cbn [map really_read_loop]. cbn [concat] in Hlen. rewrite length_app in Hlen.
  replace (firstn (Z.to_nat len) c) with c by (rewrite firstn_all2; [reflexivity | lia]).
  destruct c as [|b c]; [contradiction|].
  replace (0 <? len - Z.of_nat (length (b :: c))) with true
    by (symmetry; apply Z.ltb_lt; lia).
  apply IH. lia.
Qed.

(** X4: a stream that ends early is an error: when the peer sends fewer
    than [len] bytes and then closes, [really_read] fails with the RPC error
    that the socket was closed unexpectedly. *)
Theorem really_read_short_stream priv in_open (chunks : list (list octet)) len out evs :
  Forall (fun c => c <> []%list) chunks ->
  Z.of_nat (length (concat chunks)) < len ->
  fst (really_read (E:=E) priv in_open len (mk_world (map RdData chunks) out evs))
  = Fail (error (negb in_open) VIR_ERR_RPC "socket closed unexpectedly").
Proof.
  intros Hall Hlen. unfold really_read. cbn [incoming outgoing events].
  pose proof (@really_read_loop_short (uses_tls priv) in_open chunks len []%list evs
                                      Hall Hlen) as H.
  destruct (really_read_loop _ _ _ _ _ _) as [[r inc] evs']. exact H.
Qed.

Lemma really_write_loop_wire tls in_open script p evs r script' evs' :
  really_write_loop (E:=E) tls in_open script p evs = (r, script', evs') ->
  exists k, wire evs' = (wire evs ++ firstn k p)%list
            /\ (r = Ok tt -> wire evs' = (wire evs ++ p)%list).
Proof.
  revert p evs. induction script as [|ev script IH]; intros p evs.
  - cbn. intros H. inversion H; subst. exists (length p).
    rewrite wire_app, firstn_all. cbn. rewrite app_nil_r. auto.
  - destruct ev as [code|n]; cbn [really_write_loop].
    + destruct (transient tls code).
      * destruct (0 <? Z.of_nat (length p)) eqn:Hp.
        -- intros H. apply IH in H. rewrite wire_app in H. cbn in H.
           rewrite app_nil_r in H. exact H.
        -- intros H. inversion H; subst. apply Z.ltb_ge in Hp.
           assert (p = []%list) by (destruct p; [reflexivity | cbn in Hp; lia]). subst p.
           exists 0%nat. rewrite wire_app. cbn. rewrite !app_nil_r. auto.
      * intros H. inversion H; subst. exists 0%nat. rewrite wire_app. cbn.
        rewrite !app_nil_r. split; [reflexivity | discriminate].
    + destruct (0 <? Z.of_nat (length (skipn n p))) eqn:Hp.
      * intros H. apply IH in H. destruct H as (k & Hk & Hok).
        rewrite wire_app in Hk, Hok. cbn in Hk, Hok. rewrite app_nil_r in Hk, Hok.
        exists (n + k)%nat. split.
        -- rewrite Hk, <- app_assoc, firstn_skipn_add. reflexivity.
        -- intros Hr. rewrite (Hok Hr), <- app_assoc, firstn_skipn. reflexivity.
      * intros H. inversion H; subst. apply Z.ltb_ge in Hp.
        assert (Hs : skipn n p = []%list)
          by (destruct (skipn n p); [reflexivity | cbn in Hp; lia]).
        exists n. rewrite wire_app. cbn. rewrite app_nil_r.
        split; [reflexivity|]. intros _.
        rewrite <- (firstn_skipn n p) at 2. rewrite Hs, app_nil_r. reflexivity.
Qed.

(** X5: whatever the channel does (short writes, interruptions), when
    [really_write] succeeds the channel has taken exactly the bytes of the
    buffer, once and in order; when it fails, a beginning of them. *)
Theorem really_write_sends_all priv in_open bytes w r w' :
  really_write (E:=E) priv in_open bytes w = (r, w') ->
  incoming w' = incoming w
  /\ (r = Ok tt -> wire (events w') = (wire (events w) ++ bytes)%list)
  /\ exists k, wire (events w') = (wire (events w) ++ firstn k bytes)%list.
Proof.
  unfold really_write.
  destruct (really_write_loop (uses_tls priv) in_open (outgoing w) bytes (events w))
    as [[r0 out] evs] eqn:Hloop.
  intros H. inversion H; subst. cbn [incoming events].
  destruct (really_write_loop_wire _ _ _ _ _ Hloop) as (k & Hk & Hok).
  split; [reflexivity|]. split; [exact Hok | exists k; exact Hk].
Qed.

End IoProps.

(** X1 at four bytes asked of a peer that sends two, is interrupted, and
    sends three more. *)
Lemma really_read_exact_witness :
  Z.of_nat (length [1; 2; 3; 4]%list) = 4
  /\ outgoing choppy_read = outgoing choppy
  /\ exists tail, events choppy_read = (events choppy ++ tail)%list.
Proof.
  apply (@really_read_exact Z up false 4 choppy [1; 2; 3; 4]%list choppy_read).
  - lia.
  - reflexivity.
Defined.

(** X2 at the pieces [1 2] and [3 4 5], with more to come after them. *)
Lemma really_read_reassembles_witness :
  exists evs',
    really_read (E:=Z) up false 5
                (mk_world [RdData [1; 2]; RdData [3; 4; 5]; RdData [6]] [] [])
    = (Ok [1; 2; 3; 4; 5]%list, mk_world [RdData [6]] [] evs').
Proof.
  apply (@really_read_reassembles Z up false [[1; 2]; [3; 4; 5]]%list [RdData [6]]%list
                                  []%list []%list).
  - discriminate.
  - repeat constructor; discriminate.
Defined.

(** X3 at the interrupted peer. *)
Lemma really_read_ignores_interruptions_witness :
  fst (really_read (E:=Z) up false 4
         (mk_world [RdData [1; 2]; RdErr EINTR; RdData [3; 4; 5]] [] []))
  = fst (really_read (E:=Z) up false 4
           (mk_world [RdData [1; 2]; RdData [3; 4; 5]] [] [])).
Proof.
  apply (@really_read_ignores_interruptions Z up false 4
           [RdData [1; 2]; RdErr EINTR; RdData [3; 4; 5]]%list []%list []%list).
  lia.
Defined.

(** X4 at three bytes sent when four are wanted. *)
Lemma really_read_short_stream_witness :
  fst (really_read (E:=Z) up false 4 (mk_world [RdData [1; 2]; RdData [3]] [] []))
  = Fail (error true VIR_ERR_RPC "socket closed unexpectedly").
Proof.
  apply (@really_read_short_stream Z up false [[1; 2]; [3]]%list 4 []%list []%list).
  - repeat constructor; discriminate.
  - cbn. lia.
Defined.

(** X5 at five bytes on the interrupted channel. *)
Lemma really_write_sends_all_witness :
  incoming choppy_written = incoming choppy
  /\ (@Ok Z unit tt = Ok tt ->
      wire (events choppy_written) = (wire (events choppy) ++ [9; 8; 7; 6; 5])%list)
  /\ exists k, wire (events choppy_written)
               = (wire (events choppy) ++ firstn k [9; 8; 7; 6; 5])%list.
Proof.
  apply (@really_write_sends_all Z up false [9; 8; 7; 6; 5]%list choppy (Ok tt)
                                 choppy_written).
  reflexivity.
Defined.

(* ------------------------------------------------------------------ *)
(** ** The frame [call] writes and what it makes of the reply *)

Lemma xdr_get32_put32 (x : Z) (rest : list octet) :
  xdr_get32 (xdr_put32 x ++ rest) = Some (uint32 x, rest).
Proof.
  unfold xdr_put32, xdr_get32, uint32. cbn [app]. f_equal. f_equal.
  change (2^32) with 4294967296. change (2^24) with 16777216.
  change (2^16) with 65536. change (2^8) with 256.
  Z.div_mod_to_equations. lia.
Qed.

Lemma xdr_remote_message_header_encode_length (h : remote_message_header) :
  length (xdr_remote_message_header_encode h) = 24%nat.
Proof. reflexivity. Qed.

(** What a header looks like after a trip over the wire: every field as an
    unsigned 32-bit value. *)
Lemma xdr_remote_message_header_round_trip (h : remote_message_header)
      (rest : list octet) :
  xdr_remote_message_header_decode (xdr_remote_message_header_encode h ++ rest)
  = Some (mk_header (uint32 (prog h)) (uint32 (vers h)) (uint32 (proc h))
                    (uint32 (direction h)) (uint32 (serial h)) (uint32 (status h)),
          rest).
Proof.
  unfold xdr_remote_message_header_decode, xdr_remote_message_header_encode.
  rewrite <- !app_assoc. repeat rewrite xdr_get32_put32.
  reflexivity.
Qed.

Section CallProps.

Context {P : remote_protocol}.
Variable E : Type.
Variable xdr_remote_error : list octet -> option E.

Lemma really_read_loop_io tls in_open script len got evs :
  exists tail,
    snd (really_read_loop (E:=E) tls in_open script len got evs) = (evs ++ tail)%list
    /\ forallb is_io tail = true.
Proof.
  revert len got evs. induction script as [|ev script IH]; intros len got evs.
  - cbn. eexists. split; reflexivity.
  - destruct ev as [code|bs]; cbn.
    + destruct (transient tls code); [destruct (0 <? len)|];
        try (eexists; split; reflexivity).
      destruct (IH len got (evs ++ [EvRead len (RdErr code)])%list) as (tail & Ht & Hio).
      rewrite Ht, <- app_assoc. eexists. split; [reflexivity | exact Hio].
    + destruct (firstn (Z.to_nat len) bs) as [|b data];
        [eexists; split; reflexivity|].
      destruct (0 <? len - Z.of_nat (length (b :: data)));
        [|eexists; split; reflexivity].
      destruct (IH (len - Z.of_nat (length (b :: data))) (got ++ b :: data)%list
                   (evs ++ [EvRead len (RdData (b :: data))])%list) as (tail & Ht & Hio).
      rewrite Ht, <- app_assoc. eexists. split; [reflexivity | exact Hio].
Qed.

Lemma really_write_loop_io tls in_open script p evs :
  exists tail,
    snd (really_write_loop (E:=E) tls in_open script p evs) = (evs ++ tail)%list
    /\ forallb is_io tail = true.
Proof.
  revert p evs. induction script as [|ev script IH]; intros p evs.
  - cbn. eexists. split; reflexivity.
  - destruct ev as [code|n]; cbn.
    + destruct (transient tls code); [destruct (0 <? Z.of_nat (length p))|];
        try (eexists; split; reflexivity).
      destruct (IH p (evs ++ [EvWrite [] (WrErr code)])%list) as (tail & Ht & Hio).
      rewrite Ht, <- app_assoc. eexists. split; [reflexivity | exact Hio].
    + destruct (0 <? Z.of_nat (length (skipn n p)));
        [|eexists; split; reflexivity].
      destruct (IH (skipn n p)
                   (evs ++ [EvWrite (firstn n p) (WrLen (length (firstn n p)))])%list)
        as (tail & Ht & Hio).
      rewrite Ht, <- app_assoc. eexists. split; [reflexivity | exact Hio].
Qed.

Lemma really_read_io priv in_open len : io_only (really_read (E:=E) priv in_open len).
Proof.
  intros w r w'. unfold really_read.
  destruct (really_read_loop_io (uses_tls priv) in_open (incoming w) len [] (events w))
    as (tail & Ht & Hio).
  destruct (really_read_loop _ _ _ _ _ _) as [[r0 inc] evs].
  intros H. inversion H; subst. exists tail. split; assumption.
Qed.

Lemma really_write_io priv in_open bytes : io_only (really_write (E:=E) priv in_open bytes).
Proof.
  intros w r w'. unfold really_write.
  destruct (really_write_loop_io (uses_tls priv) in_open (outgoing w) bytes (events w))
    as (tail & Ht & Hio).
  destruct (really_write_loop _ _ _ _ _) as [[r0 out] evs].
  intros H. inversion H; subst. exists tail. split; assumption.
Qed.

Lemma io_only_refl (w : world) :
  exists tail, events w = (events w ++ tail)%list /\ forallb is_io tail = true.
Proof. exists []%list. now rewrite app_nil_r. Qed.

Lemma io_only_trans (w1 w2 w3 : world) :
  (exists tail, events w2 = (events w1 ++ tail)%list /\ forallb is_io tail = true) ->
  (exists tail, events w3 = (events w2 ++ tail)%list /\ forallb is_io tail = true) ->
  exists tail, events w3 = (events w1 ++ tail)%list /\ forallb is_io tail = true.
Proof.
  intros (t1 & H1 & Hio1) (t2 & H2 & Hio2). exists (t1 ++ t2)%list.
  rewrite H2, H1, <- app_assoc, forallb_app, Hio1, Hio2. auto.
Qed.

Lemma call_send_io priv in_open proc_nr ser args :
  io_only (call_send (E:=E) priv in_open proc_nr ser args).
Proof.
  intros w r w'. unfold call_send.
  destruct (REMOTE_MESSAGE_MAX <? 24);
    [intros H; inversion H; subst; apply io_only_refl|].
  destruct args as [a|]; [|intros H; inversion H; subst; apply io_only_refl].
  destruct (REMOTE_MESSAGE_MAX <? 24 + Z.of_nat (length a));
    [intros H; inversion H; subst; apply io_only_refl|].
  destruct (really_write priv in_open _ w) as [[u|e|] w1] eqn:H1;
    apply really_write_io in H1.
  - intros H2. apply really_write_io in H2. eapply io_only_trans; eassumption.
  - intros H; inversion H; subst. exact H1.
  - intros H; inversion H; subst. exact H1.
Qed.

Lemma call_receive_io priv in_open buffer2 :
  io_only (call_receive (E:=E) priv in_open buffer2).
Proof.
  intros w r w'. unfold call_receive.
  destruct (xdr_int_decode buffer2) as [[len rest]|];
    [|intros H; inversion H; subst; apply io_only_refl].
  destruct ((int32 (len - 4) <? 0) || (int32 (len - 4) >? REMOTE_MESSAGE_MAX));
    [intros H; inversion H; subst; apply io_only_refl|].
  destruct (really_read priv in_open (int32 (len - 4)) w) as [[buffer|e|] w1] eqn:H1;
    apply really_read_io in H1.
  - destruct (xdr_remote_message_header_decode buffer);
      intros H; inversion H; subst; exact H1.
  - intros H; inversion H; subst. exact H1.
  - intros H; inversion H; subst. exact H1.
Qed.

Lemma call_exchange_io priv in_open proc_nr ser args :
  io_only (call_exchange (E:=E) priv in_open proc_nr ser args).
Proof.
  intros w r w'. unfold call_exchange.
  destruct (call_send priv in_open proc_nr ser args w) as [[u|e|] w1] eqn:H1;
    apply call_send_io in H1.
  - destruct (really_read priv in_open 4 w1) as [[buffer2|e|] w2] eqn:H2;
      apply really_read_io in H2.
    + intros H3. apply call_receive_io in H3.
      eapply io_only_trans; [eapply io_only_trans|]; eassumption.
    + intros H; inversion H; subst. eapply io_only_trans; eassumption.
    + intros H; inversion H; subst. eapply io_only_trans; eassumption.
  - intros H; inversion H; subst. exact H1.
  - intros H; inversion H; subst. exact H1.
Qed.

Lemma really_read_loop_local tls in_open script len got evs :
  local_failure (fst (fst (really_read_loop (E:=E) tls in_open script len got evs))).
Proof.
  revert len got evs. induction script as [|ev script IH]; intros len got evs;
    [exact I|].
  destruct ev as [code|bs]; cbn [really_read_loop].
  - destruct (transient tls code); [destruct (0 <? len); [apply IH | exact I]|].
    unfold io_error. destruct tls; exact I.
  - destruct (firstn (Z.to_nat len) bs); [exact I|].
    destruct (0 <? _); [apply IH | exact I].
Qed.

Lemma really_write_loop_local tls in_open script p evs :
  local_failure (fst (fst (really_write_loop (E:=E) tls in_open script p evs))).
Proof.
  revert p evs. induction script as [|ev script IH]; intros p evs; [exact I|].
  destruct ev as [code|n]; cbn [really_write_loop].
  - destruct (transient tls code); [destruct (0 <? _); [apply IH | exact I]|].
    unfold io_error. destruct tls; exact I.
  - destruct (0 <? _); [apply IH | exact I].
Qed.

Lemma really_read_local priv in_open len w :
  local_failure (fst (really_read (E:=E) priv in_open len w)).
Proof.
  unfold really_read.
  pose proof (really_read_loop_local (uses_tls priv) in_open (incoming w) len [] (events w)).
  destruct (really_read_loop _ _ _ _ _ _) as [[r inc] evs]. assumption.
Qed.

Lemma really_write_local priv in_open bytes w :
  local_failure (fst (really_write (E:=E) priv in_open bytes w)).
Proof.
  unfold really_write.
  pose proof (really_write_loop_local (uses_tls priv) in_open (outgoing w) bytes (events w)).
  destruct (really_write_loop _ _ _ _ _) as [[r out] evs]. assumption.
Qed.

Lemma call_exchange_local priv in_open proc_nr ser args w on_conn e w' :
  call_exchange (E:=E) priv in_open proc_nr ser args w
  = (Fail (RaiseServer on_conn e), w') -> False.
Proof.
  unfold call_exchange, call_send, call_receive.
  destruct (REMOTE_MESSAGE_MAX <? 24); [discriminate|].
  destruct args as [a|]; [|discriminate].
  destruct (REMOTE_MESSAGE_MAX <? 24 + Z.of_nat (length a)); [discriminate|].
  pose proof (really_write_local priv in_open
                (xdr_put32 (Z.of_nat (length (xdr_remote_message_header_encode
                                                (request_header proc_nr ser) ++ a)) + 4)) w)
    as Hw1.
  destruct (really_write priv in_open _ w) as [[u|e1|] w1];
    [|intros H; inversion H; subst; exact Hw1 | discriminate].
  pose proof (really_write_local priv in_open
                (xdr_remote_message_header_encode (request_header proc_nr ser) ++ a)%list w1)
    as Hw2.
  destruct (really_write priv in_open _ w1) as [[u2|e2|] w2];
    [|intros H; inversion H; subst; exact Hw2 | discriminate].
  pose proof (really_read_local priv in_open 4 w2) as Hr1.
  destruct (really_read priv in_open 4 w2) as [[buffer2|e3|] w3];
    [|intros H; inversion H; subst; exact Hr1 | discriminate].
  destruct (xdr_int_decode buffer2) as [[len rest]|]; [|discriminate].
  destruct ((int32 (len - 4) <? 0) || (int32 (len - 4) >? REMOTE_MESSAGE_MAX));
    [discriminate|].
  pose proof (really_read_local priv in_open (int32 (len - 4)) w3) as Hr2.
  destruct (really_read priv in_open (int32 (len - 4)) w3) as [[buffer|e4|] w4];
    [|intros H; inversion H; subst; exact Hr2 | discriminate].
  destruct (xdr_remote_message_header_decode buffer); discriminate.
Qed.

(** X6: the frame is length-prefixed and the length counts itself: when
    [call] has sent its request, the channel has taken one frame more, whose
    first four bytes, read big-endian, give the length of the whole frame
    and are followed by the header of the request and the arguments; the
    frame is at most [REMOTE_MESSAGE_MAX + 4] bytes long. *)
Theorem call_send_frame priv in_open proc_nr ser a w w' :
  REMOTE_MESSAGE_MAX + 4 < 2^32 ->
  call_send (E:=E) priv in_open proc_nr ser (Some a) w = (Ok tt, w') ->
  exists frame,
    wire (events w') = (wire (events w) ++ frame)%list
    /\ xdr_get32 frame
       = Some (Z.of_nat (length frame),
               (xdr_remote_message_header_encode (request_header proc_nr ser) ++ a)%list)
    /\ 28 <= Z.of_nat (length frame) <= REMOTE_MESSAGE_MAX + 4.
Proof.
  intros HM. unfold call_send.
  destruct (REMOTE_MESSAGE_MAX <? 24) eqn:H24; [discriminate|].
  destruct (REMOTE_MESSAGE_MAX <? 24 + Z.of_nat (length a)) eqn:Hfit; [discriminate|].
  apply Z.ltb_ge in Hfit.
  set (buffer := (xdr_remote_message_header_encode (request_header proc_nr ser) ++ a)%list).
  assert (Hlen : Z.of_nat (length buffer) = 24 + Z.of_nat (length a)).
  { unfold buffer. rewrite length_app, xdr_remote_message_header_encode_length. lia. }
  unfold really_write.
  destruct (really_write_loop (uses_tls priv) in_open (outgoing w)
                              (xdr_put32 (Z.of_nat (length buffer) + 4)) (events w))
    as [[r1 out1] evs1] eqn:Hw1.
  destruct r1 as [u|e|]; try discriminate. destruct u.
  cbn [outgoing events].
  destruct (really_write_loop (uses_tls priv) in_open out1 buffer evs1)
    as [[r2 out2] evs2] eqn:Hw2.
  intros H. inversion H; subst. cbn [events].
  destruct (really_write_loop_wire _ _ _ _ _ Hw1) as (_ & _ & Hok1).
  destruct (really_write_loop_wire _ _ _ _ _ Hw2) as (_ & _ & Hok2).
  exists (xdr_put32 (Z.of_nat (length buffer) + 4) ++ buffer)%list.
  split; [|split].
  - rewrite (Hok2 eq_refl), (Hok1 eq_refl), <- app_assoc. reflexivity.
  - rewrite xdr_get32_put32. f_equal. f_equal.
    rewrite length_app. change (length (xdr_put32 (Z.of_nat (length buffer) + 4))) with 4%nat.
    unfold uint32. rewrite Z.mod_small; lia.
  - rewrite length_app. change (length (xdr_put32 (Z.of_nat (length buffer) + 4))) with 4%nat.
    lia.
Qed.

(** X7: [call] reports success only for a reply that answers the request
    (same program, version, procedure and serial, direction reply) with the
    status OK and a body that the filter for the result decodes; and it
    raises a server error only for such a reply with the status error,
    whose body decodes to that error record. *)
Theorem call_outcome_sound {R} priv in_open proc_nr args
        (ret_filter : list octet -> option R) w o priv' w' :
  call xdr_remote_error priv in_open proc_nr args ret_filter w = (o, priv', w') ->
  (forall r, o = Ok r ->
     exists hdr body,
       call_exchange (E:=E) (next_serial priv) in_open proc_nr (serial_assigned priv) args w
       = (Ok (hdr, body), w')
       /\ answers proc_nr (serial_assigned priv) hdr
       /\ status hdr = uint32 REMOTE_OK
       /\ ret_filter body = Some r)
  /\ (forall on_conn e, o = Fail (RaiseServer on_conn e) ->
        exists hdr body,
          call_exchange (E:=E) (next_serial priv) in_open proc_nr (serial_assigned priv)
                        args w
          = (Ok (hdr, body), w')
          /\ answers proc_nr (serial_assigned priv) hdr
          /\ status hdr = uint32 REMOTE_ERROR
          /\ status hdr <> uint32 REMOTE_OK
          /\ xdr_remote_error body = Some e
          /\ on_conn = negb in_open).
Proof.
  unfold call.
  destruct (call_exchange (next_serial priv) in_open proc_nr (serial_assigned priv) args w)
    as [[[hdr body]|e0|] w1] eqn:Hex.
  2:{ intros H; inversion H; subst. split; [intros; discriminate|].
      intros on_conn e He. inversion He; subst.
      apply call_exchange_local in Hex. contradiction. }
  2:{ intros H; inversion H; subst. split; intros; discriminate. }
  assert (Hans : check_header (E:=E) in_open proc_nr (serial_assigned priv) hdr = None ->
                 answers proc_nr (serial_assigned priv) hdr).
  { unfold check_header, answers.
    cbn [request_header prog vers proc serial direction].
    repeat match goal with
           | |- context [negb (?a =? ?b)] =>
               let H := fresh "Hq" in
               destruct (a =? b) eqn:H; cbn [negb]; [apply Z.eqb_eq in H | discriminate]
           end.
    auto. }
  destruct (check_header in_open proc_nr (serial_assigned priv) hdr) as [e1|] eqn:Hchk.
  { intros H; inversion H; subst. split; intros; [discriminate|].
    exfalso. unfold check_header in Hchk.
    repeat match type of Hchk with
           | context [if ?x then _ else _] => destruct x
           end; inversion Hchk; subst; discriminate. }
  specialize (Hans eq_refl). unfold dispatch_status.
  destruct (status hdr =? uint32 REMOTE_OK) eqn:Hok;
    [apply Z.eqb_eq in Hok | apply Z.eqb_neq in Hok].
  - destruct (ret_filter body) as [r0|] eqn:Hret; intros H; inversion H; subst;
      (split; [intros r Hr | intros; discriminate]).
    + inversion Hr; subst. exists hdr, body.
      split; [reflexivity|]. split; [exact Hans|]. auto.
    + discriminate.
  - destruct (status hdr =? uint32 REMOTE_ERROR) eqn:Herr;
      [apply Z.eqb_eq in Herr|].
    + destruct (xdr_remote_error body) as [e2|] eqn:Hdec; intros H; inversion H; subst;
        (split; [intros; discriminate | intros on_conn e He]).
      * inversion He; subst. exists hdr, body.
        split; [reflexivity|]. split; [exact Hans|]. auto.
      * discriminate.
    + intros H; inversion H; subst. split; intros; discriminate.
Qed.

(** Whatever becomes of it, a [call] changes nothing in the private data
    but the counter, which it moves on by one, and does nothing to the
    world but read from and write to the socket. *)
Lemma call_effects {R} priv in_open proc_nr args
      (ret_filter : list octet -> option R) w o priv' w' :
  call xdr_remote_error priv in_open proc_nr args ret_filter w = (o, priv', w') ->
  priv' = next_serial priv
  /\ exists tail, events w' = (events w ++ tail)%list /\ forallb is_io tail = true.
Proof.
  unfold call.
  destruct (call_exchange (next_serial priv) in_open proc_nr (serial_assigned priv) args w)
    as [[[hdr body]|e0|] w1] eqn:Hex; apply call_exchange_io in Hex;
    [destruct (check_header in_open proc_nr (serial_assigned priv) hdr)|..];
    intros H; inversion H; subst; (split; [reflexivity | exact Hex]).
Qed.

(** X8: any number of calls, whatever becomes of each, change nothing in
    the private data but the counter, which ends up moved on by their number
    (in 32-bit arithmetic), and do nothing to the world but read from and
    write to the socket: nothing is closed or freed. *)
Theorem calls_only_count_and_talk (cs : list rpc) (priv : private_data) (w : world)
        sers priv' w' :
  - 2^31 <= counter priv < 2^31 ->
  run_calls xdr_remote_error cs priv w = (sers, priv', w') ->
  magic priv' = magic priv /\ sock priv' = sock priv
  /\ uses_tls priv' = uses_tls priv /\ session priv' = session priv
  /\ type_ priv' = type_ priv
  /\ counter priv' = int32 (counter priv + Z.of_nat (length cs))
  /\ exists tail, events w' = (events w ++ tail)%list /\ forallb is_io tail = true.
Proof.
  revert priv w sers priv' w'.
  induction cs as [|c cs IH]; intros priv w sers priv' w' Hc.
  - cbn. intros H. inversion H; subst. rewrite Z.add_0_r, int32_small by exact Hc.
    repeat split. apply io_only_refl.
  - cbn [run_calls length].
    destruct (call xdr_remote_error priv (rpc_in_open c) (rpc_proc c) (rpc_args c)
                   (rpc_ret c) w) as [[o priv1] w1] eqn:Hcall.
    apply call_effects in Hcall. destruct Hcall as [-> Hio1].
    destruct (run_calls xdr_remote_error cs (next_serial priv) w1) as [[sers2 priv2] w2]
      eqn:Hrun.
    apply IH in Hrun; [|apply int32_range].
    intros H. inversion H; subst.
    destruct Hrun as (Hm & Hs & Ht & Hse & Hty & Hcn & Hio2).
    cbn in Hm, Hs, Ht, Hse, Hty, Hcn.
    repeat split; try assumption.
    + rewrite Hcn, int32_add_l. f_equal. lia.
    + eapply io_only_trans; eassumption.
Qed.

End CallProps.

(* ------------------------------------------------------------------ *)
(** ** Driver operations on an open handle *)

Section DriverProps.

Context {P : remote_protocol}.
Variable E : Type.
Variable xdr_remote_error : list octet -> option E.
Context {X : remote_xdr}.

(** X9: the type of the hypervisor is fetched once: after [remoteType] has
    returned a string, every later [remoteType] on the handle returns the
    same string without touching the world or the handle. *)
Theorem remoteType_is_cached (priv : private_data) (w : world) t conn' w' :
  remoteType xdr_remote_error (Some priv) w = (Ok t, conn', w') ->
  forall w2, remoteType xdr_remote_error conn' w2 = (Ok t, conn', w2).
Proof.
  unfold remoteType, GET_PRIVATE.
  destruct (magic priv =? DEAD) eqn:Hd; [discriminate|].
  destruct (negb (magic priv =? MAGIC)) eqn:Hm; [discriminate|].
  destruct (type_ priv) as [t0|] eqn:Ht.
  - intros H w2. inversion H; subst. rewrite Hd, Hm, Ht. reflexivity.
  - destruct (call xdr_remote_error priv false REMOTE_PROC_GET_TYPE no_args
                   xdr_remote_get_type_ret w) as [[o priv1] w1] eqn:Hcall.
    apply call_effects in Hcall. destruct Hcall as [-> _].
    destruct o as [t1|e|]; try discriminate.
    intros H w2. inversion H; subst. cbn [set_type next_serial set_counter magic type_].
    rewrite Hd, Hm. reflexivity.
Qed.

(** X10: the bounds of [remoteListDomains].  A [maxids] above
    [REMOTE_DOMAIN_ID_LIST_MAX] is refused before anything is sent, and no
    serial number is used up.  When the operation succeeds, the number it
    returns is the number of ids it delivers, and [maxids] is at most
    [REMOTE_DOMAIN_ID_LIST_MAX]; the number of ids is compared with
    [maxids] as an unsigned value, so that it is at most [maxids] when
    [maxids] is not negative, and bounded only by [maxids + 2^32] when it
    is negative. *)
Theorem remoteListDomains_bounds (priv : private_data) (maxids : Z) (w : world) :
  magic priv = MAGIC ->
  (REMOTE_DOMAIN_ID_LIST_MAX < maxids ->
   remoteListDomains xdr_remote_error (Some priv) maxids w
   = (Fail (error true VIR_ERR_RPC "maxids > REMOTE_DOMAIN_ID_LIST_MAX"), Some priv, w))
  /\ (forall n ids conn' w',
        remoteListDomains xdr_remote_error (Some priv) maxids w = (Ok (n, ids), conn', w') ->
        n = Z.of_nat (length ids)
        /\ maxids <= REMOTE_DOMAIN_ID_LIST_MAX
        /\ n <= uint32 maxids
        /\ (0 <= maxids -> n <= maxids)
        /\ (- 2^31 <= maxids < 0 -> uint32 maxids = maxids + 2^32)
        /\ exists priv1 w1,
             call xdr_remote_error priv false REMOTE_PROC_LIST_DOMAINS
                  (xdr_remote_list_domains_args maxids) xdr_remote_list_domains_ret w
             = (Ok ids, priv1, w1)
             /\ conn' = Some priv1 /\ w' = w1)
  /\ (maxids <= REMOTE_DOMAIN_ID_LIST_MAX ->
      forall ids priv1 w1,
        call xdr_remote_error priv false REMOTE_PROC_LIST_DOMAINS
             (xdr_remote_list_domains_args maxids) xdr_remote_list_domains_ret w
        = (Ok ids, priv1, w1) ->
        remoteListDomains xdr_remote_error (Some priv) maxids w
        = if Z.of_nat (length ids) >? uint32 maxids
          then (Fail (error true VIR_ERR_RPC "ret.ids.ids_len > maxids"), Some priv1, w1)
          else (Ok (Z.of_nat (length ids), ids), Some priv1, w1)).
Proof.
  intros Hm. unfold remoteListDomains, GET_PRIVATE. rewrite Hm. cbn [Z.eqb negb].
  change (MAGIC =? DEAD) with false. change (MAGIC =? MAGIC) with true. cbn [negb].
  split; [|split].
  - intros Hbig. replace (maxids >? REMOTE_DOMAIN_ID_LIST_MAX) with true
      by (symmetry; apply Z.gtb_lt; exact Hbig).
    reflexivity.
  - intros n ids conn' w'.
    destruct (maxids >? REMOTE_DOMAIN_ID_LIST_MAX) eqn:Hbig; [discriminate|].
    destruct (call xdr_remote_error priv false REMOTE_PROC_LIST_DOMAINS
                   (xdr_remote_list_domains_args maxids) xdr_remote_list_domains_ret w)
      as [[o priv1] w1].
    destruct o as [got|e|]; try discriminate.
    destruct (Z.of_nat (length got) >? uint32 maxids) eqn:Hlong; [discriminate|].
    intros H. inversion H; subst.
    rewrite Z.gtb_ltb in Hbig, Hlong. apply Z.ltb_ge in Hbig, Hlong.
    split; [reflexivity|]. split; [exact Hbig|]. split; [exact Hlong|].
    split; [|split].
    + intros H0.
      assert (Hu : uint32 maxids <= maxids)
        by (unfold uint32; apply Z.mod_le; [exact H0 | reflexivity]).
      lia.
    + intros H0. unfold uint32. change (2^32) with 4294967296 in *.
      change (2^31) with 2147483648 in *. Z.div_mod_to_equations. lia.
    + eexists. eexists. repeat split.
  - intros Hok ids priv1 w1 Hcall.
    replace (maxids >? REMOTE_DOMAIN_ID_LIST_MAX) with false
      by (symmetry; rewrite Z.gtb_ltb; apply Z.ltb_ge; exact Hok).
    rewrite Hcall. destruct (Z.of_nat (length ids) >? uint32 maxids); reflexivity.
Qed.

(** X11: [remoteClose] does not mark the handle: whether the close RPC
    succeeds or fails, the handle it leaves still has the magic of an open
    handle and still carries the cached type; and when the RPC succeeds,
    what is done after the exchange with the server is the shutdown of the
    TLS session, the [close] of the socket and the [free] of the cached
    type, in this order and nothing else. *)
Theorem remoteClose_leaves_handle_open (priv : private_data) (w : world) o conn' w' :
  magic priv = MAGIC ->
  remoteClose xdr_remote_error (Some priv) w = (o, conn', w') ->
  exists priv',
    conn' = Some priv'
    /\ magic priv' = MAGIC
    /\ type_ priv' = type_ priv
    /\ (o = Ok 0 ->
        exists talk,
          events w' = (events w ++ talk ++ teardown priv)%list
          /\ forallb is_io talk = true).
Proof.
  intros Hm. unfold remoteClose, GET_PRIVATE. rewrite Hm.
  change (MAGIC =? DEAD) with false. change (MAGIC =? MAGIC) with true. cbn [negb].
  destruct (call xdr_remote_error priv false REMOTE_PROC_CLOSE no_args xdr_void w)
    as [[r priv1] w1] eqn:Hcall.
  apply call_effects in Hcall. destruct Hcall as [-> (talk & Hev & Hio)].
  destruct r as [u|e|]; intros H; inversion H; subst;
    (eexists; split; [reflexivity|]; split; [exact Hm|]; split; [reflexivity|]);
    try (intros; discriminate).
  intros _. exists talk. split; [|exact Hio].
  unfold teardown, log. cbn [next_serial set_counter uses_tls session sock type_].
  destruct (uses_tls priv), (session priv), (type_ priv); cbn [events];
    rewrite Hev, <- ?app_assoc; reflexivity.
Qed.

End DriverProps.

(* ------------------------------------------------------------------ *)
(** ** Opening: what is declined, what is refused, what is left behind *)

Lemma strchr_none (s : cstring) (c : ascii) : strchr s c = None <-> ~ In c s.
Proof.
  induction s as [|x s IH]; cbn; [tauto|].
  destruct (Ascii.eqb x c) eqn:Hx.
  - apply Ascii.eqb_eq in Hx. split; [discriminate | intros H; exfalso; apply H; auto].
  - apply Ascii.eqb_neq in Hx. destruct (strchr s c).
    + split; [discriminate|]. intros H. exfalso. apply H. right.
      destruct (in_dec ascii_dec c s) as [Hin|Hn]; [exact Hin|].
      exfalso. apply IH in Hn. discriminate.
    + split; [|reflexivity]. intros _ [H|H]; [contradiction|].
      now apply (proj1 IH).
Qed.

Lemma strchr_split (s : cstring) (c : ascii) (i : nat) :
  strchr s c = Some i ->
  s = (firstn i s ++ c :: skipn (S i) s)%list /\ ~ In c (firstn i s)
  /\ break_at c s = (firstn i s, skipn i s).
Proof.
  revert i. induction s as [|x s IH]; intros i; cbn; [discriminate|].
  destruct (Ascii.eqb x c) eqn:Hx.
  - apply Ascii.eqb_eq in Hx. intros H. inversion H; subst. cbn. auto.
  - destruct (strchr s c) as [j|]; [|discriminate].
    intros H. inversion H; subst. destruct (IH j eq_refl) as (Hs & Hn & Hb).
    rewrite Hb. split; [|split; [|reflexivity]].
    + change (x :: s = x :: (firstn j s ++ c :: skipn (S j) s))%list.
      f_equal. exact Hs.
    + apply Ascii.eqb_neq in Hx.
      intros [H1|H1]; [now apply Hx | contradiction].
Qed.

Lemma get_transport_none (scheme : cstring) :
  get_transport_from_scheme scheme = None <-> ~ In "+"%char scheme.
Proof.
  unfold get_transport_from_scheme. rewrite <- strchr_none.
  destruct (strchr scheme "+"); split; intros H; try reflexivity; discriminate.
Qed.

(** X12: the scheme comes apart at its first ['+'] and goes together again:
    the driver part that is kept for the name passed on has no ['+'], and
    followed by ['+'] and the transport it is the scheme; a scheme without
    ['+'] has no transport and is kept whole. *)
Theorem scheme_splits_at_plus (scheme : cstring) :
  match get_transport_from_scheme scheme with
  | Some transport_str =>
      scheme = (strip_transport scheme ++ "+"%char :: transport_str)%list
      /\ ~ In "+"%char (strip_transport scheme)
  | None => strip_transport scheme = scheme /\ ~ In "+"%char scheme
  end.
Proof.
  unfold get_transport_from_scheme, strip_transport.
  destruct (strchr scheme "+") as [i|] eqn:Hs.
  - destruct (strchr_split _ _ Hs) as (Heq & Hn & Hb). rewrite Hb. cbn [fst].
    split; [exact Heq | exact Hn].
  - apply strchr_none in Hs. split; [|exact Hs].
    rewrite break_at_none; [reflexivity|].
    apply Forall_forall. intros x Hx ->. contradiction.
Qed.

Section OpenMore.

Context {P : remote_protocol}.
Variable E : Type.
Variable establish : channel_request -> world -> established E * world.
Variable xmlSaveUri : xmlURI -> option cstring.
Variable xdr_remote_error : list octet -> option E.
Context {X : remote_xdr}.

(** X13: [remoteOpen] declines exactly the URIs that are not its own: no
    URI at all, a URI without scheme, or one with neither a server nor a
    ['+'] in its scheme. *)
Theorem remoteOpen_declines_iff (uri : option xmlURI) :
  remoteOpen_params E uri = Declined
  <-> match uri with
      | None => True
      | Some u =>
          match uri_scheme u with
          | None => True
          | Some scheme => uri_server u = None /\ ~ In "+"%char scheme
          end
      end.
Proof.
  unfold remoteOpen_params. destruct uri as [u|]; [|tauto].
  destruct (uri_scheme u) as [scheme|]; [|tauto].
  pose proof (get_transport_none scheme) as Hplus.
  destruct (get_transport_from_scheme scheme) as [t|].
  - assert (Hin : In "+"%char scheme).
    { destruct (in_dec ascii_dec "+"%char scheme) as [H|H]; [exact H|].
      apply Hplus in H. discriminate. }
    split; [|intros [_ Hn]; now elim Hn].
    destruct (uri_server u); destruct (what_transport (Some t)) as [tr|];
      try discriminate;
      destruct (query_fields_and_vars u) as [vars v];
      destruct (negb (uri_port u =? 0)), tr, (v_command v); discriminate.
  - assert (Hn : ~ In "+"%char scheme) by (now apply Hplus).
    destruct (uri_server u) as [srv|].
    + split; [|intros [H _]; discriminate].
      destruct (query_fields_and_vars u) as [vars v].
      destruct (negb (uri_port u =? 0)), (v_command v); discriminate.
    + tauto.
Qed.

(** X14: when [remoteOpen] fails after the channel has been set up, it
    leaves the handle as it found it and closes the socket it holds: after
    whatever the open call read and wrote, a TLS bye if a session is up,
    then [close], and nothing else. *)
Theorem remoteOpen_failure_closes_socket conn uri flags w p ch w1 errs conn' w' :
  remoteOpen_params E uri = Proceed p ->
  establish (channel_of p flags) w = (ch, w1) ->
  remoteOpen xdr_remote_error establish xmlSaveUri conn uri flags w
  = (VIR_DRV_OPEN_ERROR errs, conn', w') ->
  conn' = conn
  /\ exists talk,
       forallb is_io talk = true
       /\ events w'
          = (events w1 ++ talk
             ++ match ch with
                | ChannelUp fd sess =>
                    if 0 <=? fd
                    then teardown (mk_priv DEAD fd (is_tls (o_transport p)) sess None 0)
                    else []
                | ChannelDown _ fd tls sess =>
                    if 0 <=? fd then teardown (mk_priv DEAD fd tls sess None 0) else []
                end)%list.
Proof.
  intros Hp Hch. unfold remoteOpen. rewrite Hp.
  destruct (match o_name p with NameGiven n => Some n | NameSaved u => xmlSaveUri u end)
    as [nm|]; [|discriminate].
  rewrite Hch. destruct ch as [fd sess|errs0 fd tls sess].
  - match goal with
    | |- context [call ?x ?pr ?io ?pn ?a ?rf ?ww] =>
        destruct (call x pr io pn a rf ww) as [[[u|e|] priv1] w2] eqn:Hc
    end; try discriminate.
    apply call_effects in Hc. destruct Hc as [-> (talk & Hev & Hio)].
    intros H. inversion H; subst. split; [reflexivity|].
    exists talk. split; [exact Hio|].
    unfold open_failed, teardown, log. cbn.
    destruct (0 <=? fd); [|cbn; rewrite Hev; now rewrite !app_nil_r].
    destruct (is_tls (o_transport p)), sess; cbn; rewrite Hev, <- ?app_assoc; reflexivity.
  - intros H. inversion H; subst. split; [reflexivity|].
    exists []%list. split; [reflexivity|].
    unfold open_failed, teardown, log. cbn.
    destruct (0 <=? fd); [|cbn; now rewrite app_nil_r].
    destruct tls, sess; cbn; rewrite <- ?app_assoc; reflexivity.
Qed.

(** X15: [remoteOpen] installs private data only on success, and then the
    data are those of a live connection: the open magic, the socket and the
    session of the channel, TLS in use exactly for the tls transport, no
    type cached, one call counted; the socket has been read from and written
    to and nothing else.  On any other result the handle is as it was, and
    a declined URI leaves the world as it was. *)
Theorem remoteOpen_installs_on_success_only conn uri flags w r conn' w' :
  remoteOpen xdr_remote_error establish xmlSaveUri conn uri flags w = (r, conn', w') ->
  (r = VIR_DRV_OPEN_SUCCESS ->
   exists p fd sess w1 talk,
     remoteOpen_params E uri = Proceed p
     /\ establish (channel_of p flags) w = (ChannelUp fd sess, w1)
     /\ conn' = Some (mk_priv MAGIC fd (is_tls (o_transport p)) sess None 1)
     /\ events w' = (events w1 ++ talk)%list
     /\ forallb is_io talk = true)
  /\ (r <> VIR_DRV_OPEN_SUCCESS -> conn' = conn)
  /\ (r = VIR_DRV_OPEN_DECLINED -> w' = w).
Proof.
  unfold remoteOpen.
  destruct (remoteOpen_params E uri) as [|e|p] eqn:Hp.
  - intros H; inversion H; subst. repeat split; try discriminate; reflexivity.
  - intros H; inversion H; subst. repeat split; try discriminate; reflexivity.
  - destruct (match o_name p with NameGiven n => Some n | NameSaved u => xmlSaveUri u end)
      as [nm|];
      [|intros H; inversion H; subst; repeat split; try discriminate; reflexivity].
    destruct (establish (channel_of p flags) w) as [[fd sess|errs fd tls sess] w1] eqn:Hch;
      [|intros H; inversion H; subst; repeat split; try discriminate; reflexivity].
    match goal with
    | |- context [call ?x ?pr ?io ?pn ?a ?rf ?ww] =>
        destruct (call x pr io pn a rf ww) as [[[u|e|] priv1] w2] eqn:Hc
    end; try (intros H; inversion H; subst; repeat split; try discriminate; reflexivity).
    apply call_effects in Hc. destruct Hc as [-> (talk & Hev & Hio)].
    intros H; inversion H; subst. split; [|split; [intros Hn; now elim Hn | discriminate]].
    intros _. exists p, fd, sess, w1, talk. repeat split; assumption.
Qed.

(** X16: the port and the user name passed on.  A port in the URI is printed
    in decimal and no user name is kept, whatever the transport; without a
    port the transport decides (16514 for tls, 16509 for tcp, 22 for ssh,
    none for unix and ext) and the user name of the URI is kept for ssh
    only.  So the ssh command line of a URI with a port has no [-l]. *)
Theorem explicit_port_drops_user (u : xmlURI) (p : open_params) :
  remoteOpen_params E (Some u) = Proceed p ->
  (uri_port u <> 0 ->
   o_port p = Some (print_int (uri_port u)) /\ o_username p = None
   /\ (o_transport p = trans_ssh ->
       forall flags, exists command,
         channel_of p flags
         = Spawn command
                 [command; lit "-p"; print_int (uri_port u); o_server p;
                  match o_netcat p with Some n => n | None => lit "nc" end;
                  lit "-U";
                  match o_sockname p with Some s => s | None => LIBVIRTD_UNIX_SOCKET end]))
  /\ (uri_port u = 0 ->
      o_port p = default_port (o_transport p)
      /\ o_username p = match o_transport p with
                        | trans_ssh => uri_user u
                        | _ => None
                        end).
Proof.
  unfold remoteOpen_params.
  destruct (uri_scheme u) as [scheme|]; [|discriminate].
  destruct (query_fields_and_vars u) as [vars v].
  destruct (uri_port u =? 0) eqn:Hport;
    [apply Z.eqb_eq in Hport | apply Z.eqb_neq in Hport];
    destruct (uri_server u), (get_transport_from_scheme scheme); try discriminate;
    (destruct (what_transport _) as [tr|]; [|discriminate]);
    cbn [negb]; destruct tr, (v_command v); try discriminate;
    intros H; inversion H; subst; cbn;
    (split; [intros Hn; try (now elim Hn) | intros Hz; try (now elim Hport)]);
    repeat split; try discriminate;
    intros _ flags; unfold channel_of, ssh_argv; cbn; eexists; reflexivity.
Qed.

End OpenMore.

(* ------------------------------------------------------------------ *)
(** ** The properties of [call] and of the operations at concrete replies *)

(** X6 at the close call number 5 on [up]. *)
Lemma call_send_frame_witness :
  exists frame,
    wire (events short_frame_sent) = (wire (events short_frame) ++ frame)%list
    /\ xdr_get32 frame
       = Some (Z.of_nat (length frame),
               (xdr_remote_message_header_encode (request_header REMOTE_PROC_CLOSE 5)
                ++ [])%list)
    /\ 28 <= Z.of_nat (length frame) <= REMOTE_MESSAGE_MAX + 4.
Proof.
  apply (@call_send_frame libvirt_protocol Z (next_serial up) false REMOTE_PROC_CLOSE 5
                          []%list short_frame short_frame_sent).
  - reflexivity.
  - reflexivity.
Defined.

(** X7 at the close call on [up], answered. *)
Lemma call_outcome_sound_witness :
  exists hdr body,
    call_exchange (E:=Z) (next_serial up) false REMOTE_PROC_CLOSE (serial_assigned up)
                  no_args (reply close_reply)
    = (Ok (hdr, body), close_answered)
    /\ answers REMOTE_PROC_CLOSE (serial_assigned up) hdr
    /\ status hdr = uint32 REMOTE_OK
    /\ xdr_void body = Some tt.
Proof.
  refine (proj1 (@call_outcome_sound libvirt_protocol Z int_error unit up false
                   REMOTE_PROC_CLOSE no_args xdr_void (reply close_reply)
                   (Ok tt) (next_serial up) close_answered _) tt eq_refl).
  reflexivity.
Defined.

(** X8 at two close calls on [up] that the peer does not answer. *)
Lemma calls_only_count_and_talk_witness :
  magic (set_counter up 7) = magic up /\ sock (set_counter up 7) = sock up
  /\ uses_tls (set_counter up 7) = uses_tls up /\ session (set_counter up 7) = session up
  /\ type_ (set_counter up 7) = type_ up
  /\ counter (set_counter up 7) = int32 (counter up + Z.of_nat (length [ping; ping]%list))
  /\ exists tail, events pinged_twice = (events quiet ++ tail)%list
                  /\ forallb is_io tail = true.
Proof.
  apply (@calls_only_count_and_talk libvirt_protocol Z int_error [ping; ping]%list up quiet
                                    [5; 6]%list (set_counter up 7) pinged_twice).
  - cbn. lia.
  - reflexivity.
Defined.

(** X9 at [up], whose type the server gives as QEMU: the second call finds
    it in the handle, though the peer has closed the stream by then. *)
Lemma remoteType_is_cached_witness :
  remoteType int_error (Some (set_type (next_serial up) (lit "QEMU"))) quiet
  = (Ok (lit "QEMU"), Some (set_type (next_serial up) (lit "QEMU")), quiet).
Proof.
  apply (@remoteType_is_cached libvirt_protocol Z int_error plain_xdr up (reply type_reply)
                               (lit "QEMU")
                               (Some (set_type (next_serial up) (lit "QEMU")))
                               type_fetched).
  reflexivity.
Defined.

(** X10 at [up]: 20000 ids are refused; of 10 asked the server sends 2; and
    with -1 asked the 2 ids the server sends are delivered. *)
Lemma remoteListDomains_bounds_witness :
  remoteListDomains int_error (Some up) 20000 quiet
  = (Fail (error true VIR_ERR_RPC "maxids > REMOTE_DOMAIN_ID_LIST_MAX"), Some up, quiet)
  /\ (2 = Z.of_nat (length [11; 12]%list) /\ 10 <= REMOTE_DOMAIN_ID_LIST_MAX
      /\ 2 <= uint32 10 /\ (0 <= 10 -> 2 <= 10))
  /\ (remoteListDomains int_error (Some up) (-1) (reply list_reply)
      = (Ok (2, [11; 12]%list), Some (next_serial up), domains_listed_unbounded)
      /\ 2 <= uint32 (-1) /\ uint32 (-1) = -1 + 2^32).
Proof.
  split; [|split].
  - apply (proj1 (@remoteListDomains_bounds libvirt_protocol Z int_error plain_xdr up 20000
                                            quiet eq_refl)).
    reflexivity.
  - destruct (proj1 (proj2 (@remoteListDomains_bounds libvirt_protocol Z int_error plain_xdr
                                                      up 10 (reply list_reply) eq_refl))
                    2 [11; 12]%list (Some (next_serial up)) domains_listed eq_refl)
      as (Hn & Hmax & Hu & Hle & _).
    repeat split; assumption.
  - assert (Hrun : remoteListDomains int_error (Some up) (-1) (reply list_reply)
                   = (Ok (2, [11; 12]%list), Some (next_serial up),
                      domains_listed_unbounded)) by reflexivity.
    destruct (proj1 (proj2 (@remoteListDomains_bounds libvirt_protocol Z int_error plain_xdr
                                                      up (-1) (reply list_reply) eq_refl))
                    2 [11; 12]%list (Some (next_serial up)) domains_listed_unbounded Hrun)
      as (_ & _ & Hu & _ & Hneg & _).
    split; [exact Hrun|]. split; [exact Hu|]. apply Hneg. cbn. lia.
Defined.

(** X11 at the TLS handle with a cached type, the close call answered. *)
Lemma remoteClose_leaves_handle_open_witness :
  exists priv',
    Some (next_serial tls_cached) = Some priv'
    /\ magic priv' = MAGIC
    /\ type_ priv' = type_ tls_cached
    /\ (@Ok Z Z 0 = Ok 0 ->
        exists talk,
          events tls_closed
          = (events (reply close_reply) ++ talk ++ teardown tls_cached)%list
          /\ forallb is_io talk = true).
Proof.
  apply (@remoteClose_leaves_handle_open libvirt_protocol Z int_error tls_cached
                                         (reply close_reply) (Ok 0)
                                         (Some (next_serial tls_cached)) tls_closed).
  - reflexivity.
  - reflexivity.
Defined.

(** X14 at a TLS URI whose server hangs up before it answers the open call. *)
Lemma remoteOpen_failure_closes_socket_witness :
  @None private_data = None
  /\ exists talk,
       forallb is_io talk = true
       /\ events upper_uri_refused = (events quiet ++ talk ++ [EvBye; EvClose 7])%list.
Proof.
  apply (@remoteOpen_failure_closes_socket libvirt_protocol Z any_channel save_path
           int_error plain_xdr None (Some upper_uri) 0 quiet upper_params
           (ChannelUp 7 (Some 1)) quiet
           [Raise false VIR_ERR_RPC "socket closed unexpectedly" []%list]%list
           None upper_uri_refused).
  - reflexivity.
  - reflexivity.
  - reflexivity.
Defined.

(** X15 at the same URI, the open call answered. *)
Lemma remoteOpen_installs_on_success_only_witness :
  exists p fd sess w1 talk,
    remoteOpen_params (P:=libvirt_protocol) Z (Some upper_uri) = Proceed p
    /\ any_channel (channel_of p 0) (reply open_reply) = (ChannelUp fd sess, w1)
    /\ Some (mk_priv MAGIC 7 true (Some 1) None 1)
       = Some (mk_priv MAGIC fd (is_tls (o_transport p)) sess None 1)
    /\ events upper_uri_opened = (events w1 ++ talk)%list
    /\ forallb is_io talk = true.
Proof.
  refine (proj1 (@remoteOpen_installs_on_success_only libvirt_protocol Z any_channel
                   save_path int_error plain_xdr None (Some upper_uri) 0
                   (reply open_reply) VIR_DRV_OPEN_SUCCESS
                   (Some (mk_priv MAGIC 7 true (Some 1) None 1)) upper_uri_opened _)
                eq_refl).
  reflexivity.
Defined.

(** X16 at an ssh URI with the port 2222 and the user alice. *)
Lemma explicit_port_drops_user_witness :
  exists p,
    remoteOpen_params (P:=libvirt_protocol) Z (Some ssh_port_uri) = Proceed p
    /\ o_port p = Some (lit "2222") /\ o_username p = None
    /\ channel_of p 0
       = Spawn (lit "ssh")
               [lit "ssh"; lit "-p"; lit "2222"; lit "host"; lit "nc"; lit "-U";
                lit "/tmp/t"].
Proof.
  eexists. split; [reflexivity|].
  match goal with
  | |- o_port ?p = _ /\ _ =>
      destruct (proj1 (@explicit_port_drops_user libvirt_protocol Z ssh_port_uri p eq_refl))
        as (Hport & Huser & Hssh)
  end.
  - discriminate.
  - split; [exact Hport|]. split; [exact Huser|]. reflexivity.
Defined.

(* ------------------------------------------------------------------ *)
(** ** The variables of the query string *)

Lemma strcaseeq_same (a b c : cstring) :
  strcaseeq a b = true -> strcaseeq a c = strcaseeq b c.
Proof.
  revert b c. induction a as [|x a IH]; intros [|y b] [|z c] H; cbn in *;
    try discriminate; try reflexivity.
  apply andb_true_iff in H. destruct H as [Hxy Hab].
  apply Ascii.eqb_eq in Hxy. rewrite Hxy, (IH b c Hab). reflexivity.
Qed.

(** What one turn of the loop does to each variable: the five names exclude
    each other. *)
Lemma get_var_fields (x : query_fields) (v : open_vars) :
  let v' := snd (get_var x v) in
  v_name v' = (if strcaseeq (name x) (lit "name") then Some (value x) else v_name v)
  /\ v_command v'
     = (if strcaseeq (name x) (lit "command") then Some (value x) else v_command v)
  /\ v_sockname v'
     = (if strcaseeq (name x) (lit "socket") then Some (value x) else v_sockname v)
  /\ v_netcat v'
     = (if strcaseeq (name x) (lit "netcat") then Some (value x) else v_netcat v)
  /\ v_no_verify v'
     = (if strcaseeq (name x) (lit "no_verify") then atoi (value x) else v_no_verify v).
Proof.
  unfold get_var.
  destruct (strcaseeq (name x) (lit "name")) eqn:H1.
  { rewrite !(fun c => @strcaseeq_same _ _ c H1). cbn. repeat split. }
  destruct (strcaseeq (name x) (lit "command")) eqn:H2.
  { rewrite !(fun c => @strcaseeq_same _ _ c H2). cbn. repeat split. }
  destruct (strcaseeq (name x) (lit "socket")) eqn:H3.
  { rewrite !(fun c => @strcaseeq_same _ _ c H3). cbn. repeat split. }
  destruct (strcaseeq (name x) (lit "netcat")) eqn:H4.
  { rewrite !(fun c => @strcaseeq_same _ _ c H4). cbn. repeat split. }
  destruct (strcaseeq (name x) (lit "no_verify")); cbn; repeat split.
Qed.

Lemma last_field_cons (key : string) (x : query_fields) (l : list query_fields) :
  last_field key (x :: l)
  = match last_field key l with
    | Some f => Some f
    | None => if strcaseeq (name x) (lit key) then Some x else None
    end.
Proof.
  unfold last_field. cbn [rev]. induction (rev l) as [|y r IH]; cbn; [reflexivity|].
  destruct (strcaseeq (name y) (lit key)); [reflexivity | exact IH].
Qed.

Lemma get_vars_last (vars : list query_fields) (v : open_vars) :
  let r := snd (get_vars vars v) in
  v_name r = match last_field "name" vars with
             | Some f => Some (value f)
             | None => v_name v
             end
  /\ v_command r = match last_field "command" vars with
                   | Some f => Some (value f)
                   | None => v_command v
                   end
  /\ v_sockname r = match last_field "socket" vars with
                    | Some f => Some (value f)
                    | None => v_sockname v
                    end
  /\ v_netcat r = match last_field "netcat" vars with
                  | Some f => Some (value f)
                  | None => v_netcat v
                  end
  /\ v_no_verify r = match last_field "no_verify" vars with
                     | Some f => atoi (value f)
                     | None => v_no_verify v
                     end.
Proof.
  revert v. induction vars as [|x l IH]; intros v; [cbn; repeat split|].
  cbn [get_vars].
  destruct (get_var x v) as [x' v'] eqn:Hx.
  pose proof (get_var_fields x v) as Hf. rewrite Hx in Hf. cbn [snd] in Hf.
  specialize (IH v'). destruct (get_vars l v') as [l' r]. cbn [snd] in IH |- *.
  rewrite !last_field_cons.
  destruct IH as (I1 & I2 & I3 & I4 & I5). destruct Hf as (F1 & F2 & F3 & F4 & F5).
  rewrite I1, I2, I3, I4, I5, F1, F2, F3, F4, F5.
  repeat split.
  - destruct (last_field "name" l); [reflexivity|].
    destruct (strcaseeq (name x) (lit "name")); reflexivity.
  - destruct (last_field "command" l); [reflexivity|].
    destruct (strcaseeq (name x) (lit "command")); reflexivity.
  - destruct (last_field "socket" l); [reflexivity|].
    destruct (strcaseeq (name x) (lit "socket")); reflexivity.
  - destruct (last_field "netcat" l); [reflexivity|].
    destruct (strcaseeq (name x) (lit "netcat")); reflexivity.
  - destruct (last_field "no_verify" l); [reflexivity|].
    destruct (strcaseeq (name x) (lit "no_verify")); reflexivity.
Qed.

(** X17: when a reserved name occurs more than once in the query string,
    the last occurrence counts: each of the command, the socket, the netcat
    program and the name that [remoteOpen] works with is the value of the
    last field of the parsed query with that name (letter case aside), and
    [no_verify] is [atoi] of the last such value, 0 when there is none.
    Without a [name] field the name is printed from the URI without
    transport, user, server and port, with the rebuilt query. *)
Theorem reserved_variable_last_wins {P : remote_protocol} (E : Type)
        (u : xmlURI) (p : open_params) :
  remoteOpen_params E (Some u) = Proceed p ->
  let vars := match uri_query u with
              | Some q => query_parse q
              | None => []
              end in
  o_command p = option_map value (last_field "command" vars)
  /\ o_sockname p = option_map value (last_field "socket" vars)
  /\ o_netcat p = option_map value (last_field "netcat" vars)
  /\ o_no_verify p = match last_field "no_verify" vars with
                     | Some f => atoi (value f)
                     | None => 0%Z
                     end
  /\ o_name p = match last_field "name" vars with
                | Some f => NameGiven (value f)
                | None =>
                    NameSaved (mk_uri (option_map strip_transport (uri_scheme u))
                                      None None 0 (uri_path u) (o_query p))
                end.
Proof.
  intros Hp vars.
  pose proof (get_vars_last vars (mk_vars None None None None 0)) as Hl.
  cbn zeta in Hl. cbn [v_name v_command v_sockname v_netcat v_no_verify] in Hl.
  destruct Hl as (L1 & L2 & L3 & L4 & L5).
  revert Hp. unfold remoteOpen_params, query_fields_and_vars. fold vars.
  destruct (uri_scheme u) as [scheme|]; [|discriminate].
  destruct (get_vars vars (mk_vars None None None None 0)) as [vars' v].
  cbn [snd] in L1, L2, L3, L4, L5.
  assert (Hshape :
    forall tr port username,
      Proceed (E:=E)
        (mk_params tr (match uri_server u with Some s => s | None => lit "localhost" end)
                   port username
                   (match v_name v with
                    | Some n => NameGiven n
                    | None => NameSaved (mk_uri (Some (strip_transport scheme)) None None 0
                                                (uri_path u) (query_create vars'))
                    end)
                   (v_command v) (v_sockname v) (v_netcat v) (v_no_verify v)
                   (query_create vars'))
      = Proceed p ->
      o_command p = option_map value (last_field "command" vars)
      /\ o_sockname p = option_map value (last_field "socket" vars)
      /\ o_netcat p = option_map value (last_field "netcat" vars)
      /\ o_no_verify p = match last_field "no_verify" vars with
                         | Some f => atoi (value f)
                         | None => 0%Z
                         end
      /\ o_name p = match last_field "name" vars with
                    | Some f => NameGiven (value f)
                    | None =>
                        NameSaved (mk_uri (option_map strip_transport (Some scheme))
                                          None None 0 (uri_path u) (o_query p))
                    end).
  { intros tr port username H. inversion H; subst p. cbn.
    rewrite L1, L2, L3, L4, L5.
    destruct (last_field "name" vars), (last_field "command" vars),
      (last_field "socket" vars), (last_field "netcat" vars),
      (last_field "no_verify" vars); repeat split. }
  destruct (uri_server u), (get_transport_from_scheme scheme); try discriminate;
    (destruct (what_transport _) as [tr|]; [|discriminate]);
    (destruct (negb (uri_port u =? 0)%Z));
    destruct tr, (v_command v); try discriminate; apply Hshape.
Qed.

(** X17 at a query that names the socket twice, once in capitals. *)
Lemma reserved_variable_last_wins_witness :
  exists p,
    remoteOpen_params (P:=libvirt_protocol) Z (Some ssh_port_uri) = Proceed p
    /\ o_sockname p = Some (lit "/tmp/t")
    /\ o_query p = Some (lit "x=1").
Proof.
  eexists. split; [reflexivity|].
  match goal with
  | |- o_sockname ?p = _ /\ _ =>
      destruct (@reserved_variable_last_wins libvirt_protocol Z ssh_port_uri p eq_refl)
        as (_ & Hsock & _)
  end.
  split; [rewrite Hsock|]; reflexivity.
Defined.

(** [atoi] on values that an int does not hold: the library converts with
    [strtol], which stops at the ends of [long], and the cast to int keeps
    the low 32 bits. *)
Lemma atoi_out_of_range :
  atoi (lit "18446744073709551616") = -1
  /\ atoi (lit "9223372036854775807") = -1
  /\ atoi (lit "-9223372036854775809") = 0
  /\ atoi (lit "4294967296") = 0
  /\ atoi (lit "2147483648") = - 2^31
  /\ atoi (lit " +12x") = 12
  /\ atoi (lit "x") = 0.
Proof. vm_compute. repeat split. Qed.

(* ------------------------------------------------------------------ *)
(** ** More on the query codec *)

Close Scope Z_scope.

Lemma escape_char_alphabet (ch : ascii) :
  forallb (fun c => Ascii.eqb c "%" || Ascii.eqb c "@" || is_unreserved c)
          (escape_char [] ch) = true.
Proof. destruct ch as [[] [] [] [] [] [] [] []]; vm_compute; reflexivity. Qed.

Lemma escape_alphabet (s : cstring) :
  Forall (fun c => c = "%"%char \/ c = "@"%char \/ is_unreserved c = true)
         (xmlURIEscapeStr s []).
Proof.
  induction s as [|ch s IH]; [constructor|].
  unfold xmlURIEscapeStr in *. cbn [flat_map]. apply Forall_app. split; [|exact IH].
  pose proof (escape_char_alphabet ch) as H. rewrite forallb_forall in H.
  apply Forall_forall. intros c Hc. specialize (H c Hc).
  apply orb_true_iff in H. destruct H as [H|H]; [|right; right; exact H].
  apply orb_true_iff in H. destruct H as [H|H]; apply Ascii.eqb_eq in H; auto.
Qed.

Lemma count_occ_avoids (c : ascii) (s : cstring) :
  Forall (fun x => x <> c) s -> count_occ ascii_dec s c = 0.
Proof.
  intros H. apply count_occ_not_In. intros Hin.
  rewrite Forall_forall in H. now apply (H c Hin).
Qed.

Lemma render_counts (sep : bool) (kept : list query_fields) :
  count_occ ascii_dec (render sep kept) "="%char = length kept
  /\ count_occ ascii_dec (render sep kept) "&"%char
     = match kept with
       | [] => 0
       | _ :: rest => (if sep then 1 else 0) + length rest
       end.
Proof.
  revert sep. induction kept as [|f rest IH]; intros sep; [split; reflexivity|].
  cbn [render]. unfold encode_field. rewrite !count_occ_app.
  destruct (IH true) as [IHe IHa]. rewrite IHe, IHa.
  assert (Hn : forall s, count_occ ascii_dec (xmlURIEscapeStr s []) "="%char = 0
                         /\ count_occ ascii_dec (xmlURIEscapeStr s []) "&"%char = 0).
  { intros s. split; apply count_occ_avoids;
      (eapply Forall_impl; [|apply escape_avoids]); now intros ? [? ?]. }
  destruct (Hn (name f)) as [-> ->]. destruct (Hn (value f)) as [-> ->].
  split.
  - destruct sep; cbn; reflexivity.
  - destruct sep, rest; cbn; lia.
Qed.

Lemma render_alphabet (sep : bool) (kept : list query_fields) :
  Forall (fun c => c = "&"%char \/ c = "="%char \/ c = "%"%char \/ c = "@"%char
                   \/ is_unreserved c = true)
         (render sep kept).
Proof.
  revert sep. induction kept as [|f rest IH]; intros sep; [constructor|].
  cbn [render]. unfold encode_field. rewrite !Forall_app.
  assert (He : forall s,
             Forall (fun c => c = "&"%char \/ c = "="%char \/ c = "%"%char \/ c = "@"%char
                              \/ is_unreserved c = true) (xmlURIEscapeStr s [])).
  { intros s. eapply Forall_impl; [|apply escape_alphabet]. cbn. tauto. }
  repeat split.
  - destruct sep; [constructor; [left; reflexivity | constructor] | constructor].
  - apply He.
  - constructor; [right; left; reflexivity | constructor].
  - apply He.
  - apply IH.
Qed.

Lemma query_create_render (fs : list query_fields) (q : cstring) :
  query_create fs = Some q -> q = render false (kept_of fs).
Proof.
  unfold query_create. destruct fs as [|f fs]; [discriminate|].
  rewrite query_create_loop_render. intros [= <-]. reflexivity.
Qed.

(** X18: what [query_create] writes, [query_parse] reads back: for a list
    of fields that is not empty, the query string exists, and parsing it
    gives the fields that were not marked to be ignored, in their order,
    with their names and values, provided each has a name that is not
    empty and neither name nor value holds a NUL. *)
Theorem query_create_then_parse (fs : list query_fields) :
  fs <> [] -> Forall writable (kept_of fs) ->
  exists q, query_create fs = Some q
            /\ query_parse q
               = map (fun f => mk_field (name f) (value f) false) (kept_of fs).
Proof.
  intros Hne Hw. destruct fs as [|f fs]; [contradiction|].
  exists (render false (kept_of (f :: fs))). split.
  - unfold query_create. now rewrite query_create_loop_render.
  - unfold query_parse. rewrite (c_str_id (render_no_nul false _)).
    now apply query_parse_loop_render.
Qed.

(** X18 at three fields, the second to be ignored, the third with
    characters that have to be escaped. *)
Lemma query_create_then_parse_witness :
  exists q,
    query_create [mk_field (lit "a") (lit "1") false; mk_field (lit "name") (lit "n") true;
                  mk_field (lit "b c") (lit "x&y=z") false]
    = Some q
    /\ query_parse q
       = [mk_field (lit "a") (lit "1") false; mk_field (lit "b c") (lit "x&y=z") false].
Proof.
  apply (@query_create_then_parse
           [mk_field (lit "a") (lit "1") false; mk_field (lit "name") (lit "n") true;
            mk_field (lit "b c") (lit "x&y=z") false]).
  - discriminate.
  - repeat constructor; try discriminate.
Defined.

(** X19: in the string [query_create] writes, ['='] and ['&'] occur as
    separators only: one ['='] for each field written and one ['&'] between
    two of them; every other character is ['%'], ['@'], a letter, a digit or
    one of [-_.!~*'()], so there is no ['#'], no blank and no NUL in it. *)
Theorem query_create_separators (fs : list query_fields) (q : cstring) :
  query_create fs = Some q ->
  count_occ ascii_dec q "="%char = length (kept_of fs)
  /\ count_occ ascii_dec q "&"%char = pred (length (kept_of fs))
  /\ Forall (fun c => c = "&"%char \/ c = "="%char \/ c = "%"%char \/ c = "@"%char
                      \/ is_unreserved c = true) q
  /\ ~ In "#"%char q /\ ~ In " "%char q /\ no_nul q.
Proof.
  intros H. apply query_create_render in H. subst q.
  destruct (render_counts false (kept_of fs)) as [He Ha].
  pose proof (render_alphabet false (kept_of fs)) as Hal.
  split; [exact He|]. split; [rewrite Ha; destruct (kept_of fs); reflexivity|].
  split; [exact Hal|].
  rewrite Forall_forall in Hal.
  split; [|split; [|apply render_no_nul]];
    intros Hin; destruct (Hal _ Hin) as [H|[H|[H|[H|H]]]]; discriminate.
Qed.

(** X19 at the same three fields. *)
Lemma query_create_separators_witness :
  count_occ ascii_dec (lit "a=1&b%20c=x%26y%3Dz") "="%char = 2
  /\ count_occ ascii_dec (lit "a=1&b%20c=x%26y%3Dz") "&"%char = 1
  /\ Forall (fun c => c = "&"%char \/ c = "="%char \/ c = "%"%char \/ c = "@"%char
                      \/ is_unreserved c = true) (lit "a=1&b%20c=x%26y%3Dz")
  /\ ~ In "#"%char (lit "a=1&b%20c=x%26y%3Dz") /\ ~ In " "%char (lit "a=1&b%20c=x%26y%3Dz")
  /\ no_nul (lit "a=1&b%20c=x%26y%3Dz").
Proof.
  apply (@query_create_separators
           [mk_field (lit "a") (lit "1") false; mk_field (lit "name") (lit "n") true;
            mk_field (lit "b c") (lit "x&y=z") false]).
  reflexivity.
Defined.

Lemma eq_in_section (c : ascii) (a r : cstring) :
  match strchr (a ++ r) c with
  | Some i => if length a <=? i then None else Some i
  | None => None
  end
  = match strchr a c with
    | Some i => if length a <=? i then None else Some i
    | None => None
    end.
Proof.
  induction a as [|x a IH]; cbn [app strchr length].
  - destruct (strchr r c); reflexivity.
  - destruct (Ascii.eqb x c); [reflexivity|].
    destruct (strchr (a ++ r) c) as [i|], (strchr a c) as [j|]; cbn [Nat.leb] in *;
      try destruct (length a <=? i); try destruct (length a <=? j);
      congruence.
Qed.

Lemma strchr_bound (c : ascii) (a : cstring) (i : nat) :
  strchr a c = Some i -> i < length a /\ nth_error a i = Some c.
Proof.
  revert i. induction a as [|x a IH]; intros i; cbn; [discriminate|].
  destruct (Ascii.eqb x c) eqn:Hx.
  - intros H. inversion H; subst. apply Ascii.eqb_eq in Hx. subst. cbn. split; [lia|auto].
  - destruct (strchr a c) as [j|]; [|discriminate].
    intros H. inversion H; subst. destruct (IH j eq_refl). cbn. split; [lia|auto].
Qed.

Lemma unescape_prefix (a r : cstring) (len : nat) :
  0 < len -> len <= length a ->
  xmlURIUnescapeString (a ++ r) len = xmlURIUnescapeString a len.
Proof.
  intros H0 Hl. unfold xmlURIUnescapeString.
  replace (len =? 0) with false by (symmetry; apply Nat.eqb_neq; lia).
  rewrite firstn_app. replace (len - length a) with 0 by lia.
  cbn [firstn]. now rewrite app_nil_r.
Qed.

(** One turn of the loop on a section followed by a separator and more:
    but for the section ["="], what is found depends on the section only. *)
Lemma query_parse_step_section (a b : cstring) :
  Forall (fun c => c <> "&"%char) a -> a <> lit "=" ->
  query_parse_step (a ++ "&"%char :: b) = (fst (query_parse_step a), b)
  /\ snd (query_parse_step a) = [].
Proof.
  intros Ha Hne. unfold query_parse_step.
  rewrite (break_at_app b Ha), (break_at_none Ha), eq_in_section. cbn [fst snd].
  split; [|reflexivity]. f_equal.
  destruct a as [|c a']; [reflexivity|]. set (a := c :: a') in *.
  assert (Hpos : 0 < length a) by (cbn; lia).
  destruct (strchr a "=") as [i|] eqn:Hs.
  - destruct (strchr_bound _ _ Hs) as [Hi Hnth].
    replace (length a <=? i) with false by (symmetry; apply Nat.leb_gt; exact Hi).
    destruct (S i =? length a) eqn:Hend.
    + apply Nat.eqb_eq in Hend. destruct i as [|i].
      * exfalso. apply Hne. unfold a in *. cbn in Hend, Hnth.
        destruct a'; [|discriminate]. inversion Hnth. reflexivity.
      * now rewrite unescape_prefix by lia.
    + apply Nat.eqb_neq in Hend. destruct (i =? 0) eqn:Hz; [reflexivity|].
      apply Nat.eqb_neq in Hz.
      rewrite unescape_prefix by lia.
      rewrite skipn_app. replace (S i - length a) with 0 by lia. rewrite skipn_O.
      rewrite unescape_prefix; [reflexivity | lia | rewrite length_skipn; lia].
  - now rewrite unescape_prefix by lia.
Qed.

Lemma query_parse_loop_nil (fuel : nat) : query_parse_loop fuel [] = [].
Proof. destruct fuel; reflexivity. Qed.

(** X20: the sections of a query string are parsed one by one: parsing a
    section, a separator and more gives the fields of the section followed
    by the fields of what comes after, unless the section is a lone ['=']. *)
Theorem query_parse_sections (a b : cstring) :
  Forall (fun c => c <> "&"%char) a -> no_nul a -> no_nul b -> a <> lit "=" ->
  query_parse (a ++ "&"%char :: b) = (query_parse a ++ query_parse b)%list.
Proof.
  intros Ha Hna Hnb Hne.
  assert (Hnq : no_nul (a ++ "&"%char :: b)).
  { apply Forall_app. split; [exact Hna|]. constructor; [discriminate | exact Hnb]. }
  unfold query_parse. rewrite (c_str_id Hnq), (c_str_id Hna), (c_str_id Hnb).
  destruct (query_parse_step_section b Ha Hne) as [Hstep Hrest].
  rewrite length_app. cbn [length]. rewrite Nat.add_succ_r.
  rewrite query_parse_loop_S by (destruct a; discriminate).
  rewrite Hstep.
  rewrite (@query_parse_loop_fuel (length a + length b) (length b) b) by lia.
  destruct a as [|c a']; [reflexivity|].
  cbn [length]. rewrite query_parse_loop_S by discriminate.
  destruct (query_parse_step (c :: a')) as [fld next]. cbn [fst snd] in *. subst next.
  rewrite query_parse_loop_nil. destruct fld; reflexivity.
Qed.

(** X20 at a section with an escaped name and a query after it. *)
Lemma query_parse_sections_witness :
  query_parse (lit "a%20b=1" ++ "&"%char :: lit "=x&c")
  = (query_parse (lit "a%20b=1") ++ query_parse (lit "=x&c"))%list.
Proof.
  apply (@query_parse_sections (lit "a%20b=1") (lit "=x&c")).
  - repeat constructor; discriminate.
  - repeat constructor; discriminate.
  - repeat constructor; discriminate.
  - discriminate.
Defined.

(** X21: the section that is a lone ['='] is the exception.  It is read as
    a field with an empty value whose name is not taken from the section:
    it is the whole of the query string from that ['='] on, separators and
    later sections included, percent-decoded; the later sections are then
    parsed as usual. *)
Theorem query_parse_lone_equals (b : cstring) :
  no_nul b ->
  query_parse ("="%char :: "&"%char :: b)
  = mk_field (c_str (unescape_window ("="%char :: "&"%char :: b))) [] false
    :: query_parse b.
Proof.
  intros Hnb.
  assert (Hnq : no_nul ("="%char :: "&"%char :: b))
    by (repeat constructor; try discriminate; exact Hnb).
  unfold query_parse. rewrite (c_str_id Hnq), (c_str_id Hnb).
  cbn [length]. rewrite query_parse_loop_S by discriminate.
  unfold query_parse_step. cbn [break_at strchr Ascii.eqb Bool.eqb length Nat.leb Nat.eqb].
  unfold xmlURIUnescapeString. cbn [Nat.eqb]. rewrite firstn_all.
  f_equal.
  destruct b as [|c b']; [reflexivity|].
  apply (@query_parse_loop_fuel (S (length (c :: b'))) (length (c :: b')) (c :: b'));
    cbn [length]; lia.
Qed.

(** X21 at [=&a=b]. *)
Lemma query_parse_lone_equals_witness :
  query_parse (lit "=&a=b")
  = [mk_field (lit "=&a=b") [] false; mk_field (lit "a") (lit "b") false].
Proof.
  apply (@query_parse_lone_equals (lit "a=b")).
  repeat constructor; discriminate.
Defined.

(** The loop of [query_parse] ends: every turn leaves a string that is
    shorter by at least one character, so that as many turns as the string
    has characters are enough, and more change nothing. *)
Theorem query_parse_ends :
  (forall c q, length (snd (query_parse_step (c :: q))) < length (c :: q))
  /\ (forall query fuel,
        length (c_str query) <= fuel ->
        query_parse_loop fuel (c_str query) = query_parse query).
Proof.
  split; [exact query_parse_step_shrinks|].
  intros query fuel H. unfold query_parse. apply query_parse_loop_fuel; lia.
Qed.

(** X23 at a query with a name of each kind. *)
Lemma query_reparse_witness :
  pairs (query_parse
           match query_create
                   (fst (get_vars (query_parse (lit "NAME=x&a=1&b=%26&socket=s"))
                                  (mk_vars None None None None 0))) with
           | Some q => q
           | None => []
           end)
  = pairs (filter (fun f => negb (reserved (name f)))
                  (query_parse (lit "NAME=x&a=1&b=%26&socket=s"))).
Proof.
  apply (@query_reparse (lit "NAME=x&a=1&b=%26&socket=s") (mk_vars None None None None 0)).
  repeat constructor; try discriminate.
Defined.

(** X24 at the URI with a name in capitals. *)
Lemma forwarded_query_witness :
  remoteOpen_params (P:=libvirt_protocol) Z (Some upper_uri) = Proceed upper_params
  /\ spec_decode_query (o_query upper_params) = [(lit "mode", lit "fast")].
Proof.
  split; [reflexivity|].
  rewrite (@forwarded_query libvirt_protocol Z upper_uri upper_params eq_refl).
  vm_compute. reflexivity.
Defined.

(* ------------------------------------------------------------------ *)
(** ** Certificates, the TLS session and the system calls of [remoteOpen] *)

Open Scope Z_scope.

Section ConnectProps.

Variable E : Type.

Lemma verify_certs_accepts (now : Z) (hostname : cstring) (i : nat)
      (certs : list peer_cert) :
  verify_certs (E:=E) now hostname i certs = Ok tt
  <-> Forall (fun c => 0 <= crt_init c /\ 0 <= crt_import c
                       /\ now <= expiration_time c /\ activation_time c <= now) certs
      /\ (i = 0%nat -> match certs with
                       | [] => True
                       | leaf :: _ => check_hostname leaf hostname = true
                       end).
Proof.
  revert i. induction certs as [|c rest IH]; intros i; cbn [verify_certs].
  - split; [intros _; split; [constructor | trivial] | reflexivity].
  - destruct (crt_init c <? 0) eqn:H1;
      [split; [discriminate | intros [H _]; inversion H; subst; lia]|].
    destruct (crt_import c <? 0) eqn:H2;
      [split; [discriminate | intros [H _]; inversion H; subst; lia]|].
    destruct (expiration_time c <? now) eqn:H3;
      [split; [discriminate | intros [H _]; inversion H; subst; lia]|].
    destruct (activation_time c >? now) eqn:H4;
      [split; [discriminate | intros [H _]; inversion H; subst; lia]|].
    assert (Hc : 0 <= crt_init c /\ 0 <= crt_import c
                 /\ now <= expiration_time c /\ activation_time c <= now) by lia.
    destruct i as [|i]; cbn [Nat.eqb andb].
    + destruct (check_hostname c hostname) eqn:Hh; cbn [negb].
      * rewrite IH. split.
        -- intros [Hf _]. split; [constructor; assumption | reflexivity].
        -- intros [Hf _]. inversion Hf; subst. split; [assumption | discriminate].
      * split; [discriminate | intros [_ Hl]; specialize (Hl eq_refl); discriminate].
    + rewrite IH. split.
      * intros [Hf _]. split; [constructor; assumption | discriminate].
      * intros [Hf _]. inversion Hf; subst. split; [assumption | discriminate].
Qed.

(** X25: [verify_certificate] accepts exactly when the verification of the
    peer did not fail and left the status 0, the clock could be read, the
    certificate type is X.509, there is a chain, no certificate of the
    chain fails to load, has expired or is not yet active, and the first
    certificate of the chain is good for the host name.  The host name is
    checked against the first certificate only, and a chain without
    certificates is accepted. *)
Theorem verify_certificate_accepts_iff (peer : tls_peer) (hostname : cstring) :
  verify_certificate (E:=E) peer hostname = Ok tt
  <-> 0 <= fst (verify_peers2 peer)
      /\ time_now peer <> -1
      /\ snd (verify_peers2 peer) = 0
      /\ certificate_type peer = GNUTLS_CRT_X509
      /\ exists certs,
           peers peer = Some certs
           /\ Forall (fun c => 0 <= crt_init c /\ 0 <= crt_import c
                               /\ time_now peer <= expiration_time c
                               /\ activation_time c <= time_now peer) certs
           /\ match certs with
              | [] => True
              | leaf :: _ => check_hostname leaf hostname = true
              end.
Proof.
  unfold verify_certificate. destruct (verify_peers2 peer) as [ret status]. cbn [fst snd].
  destruct (ret <? 0) eqn:H1; [split; [discriminate | intros [H _]; lia]|].
  destruct (time_now peer =? -1) eqn:H2; [split; [discriminate | intros (_ & H & _); lia]|].
  destruct (status =? 0) eqn:H3; cbn [negb];
    [|split; [discriminate | intros (_ & _ & H & _); lia]].
  destruct (certificate_type peer =? GNUTLS_CRT_X509) eqn:H4; cbn [negb];
    [|split; [discriminate | intros (_ & _ & _ & H & _); lia]].
  assert (Hpre : 0 <= ret /\ time_now peer <> -1 /\ status = 0
                 /\ certificate_type peer = GNUTLS_CRT_X509) by lia.
  destruct (peers peer) as [certs|].
  - rewrite verify_certs_accepts. split.
    + intros [Hf Hl]. destruct Hpre as (? & ? & ? & ?). repeat (split; [assumption|]).
      exists certs. split; [reflexivity|]. split; [exact Hf | exact (Hl eq_refl)].
    + intros (_ & _ & _ & _ & certs' & Hc & Hf & Hl). inversion Hc; subst.
      split; [exact Hf | intros _; exact Hl].
  - split; [discriminate|]. intros (_ & _ & _ & _ & certs' & Hc & _). discriminate.
Qed.

Lemma verify_certs_never_aborts (now : Z) (hostname : cstring) (i : nat)
      (certs : list peer_cert) :
  verify_certs (E:=E) now hostname i certs <> Abort.
Proof.
  revert i. induction certs as [|c rest IH]; intros i; cbn [verify_certs]; [discriminate|].
  destruct (crt_init c <? 0); [discriminate|].
  destruct (crt_import c <? 0); [discriminate|].
  destruct (expiration_time c <? now); [discriminate|].
  destruct (activation_time c >? now); [discriminate|].
  destruct (Nat.eqb i 0 && negb (check_hostname c hostname)); [discriminate | apply IH].
Qed.

Lemma verify_certificate_never_aborts (peer : tls_peer) (hostname : cstring) :
  verify_certificate (E:=E) peer hostname <> Abort.
Proof.
  unfold verify_certificate. destruct (verify_peers2 peer) as [ret status].
  destruct (ret <? 0); [discriminate|].
  destruct (time_now peer =? -1); [discriminate|].
  destruct (negb (status =? 0)); [discriminate|].
  destruct (negb (certificate_type peer =? GNUTLS_CRT_X509)); [discriminate|].
  destruct (peers peer); [apply verify_certs_never_aborts | discriminate].
Qed.

Lemma receive_ack_acknowledged (script : list rd_ev) (evs : list sys_event) inc evs' :
  receive_ack (E:=E) script evs = (None, inc, evs') ->
  exists retries,
    Forall (fun ev => exists code, ev = EvRead 1 (RdErr code) /\ transient true code = true)
           retries
    /\ evs' = (evs ++ retries ++ [EvRead 1 (RdData [1])])%list.
Proof.
  revert evs. induction script as [|ev script IH]; intros evs; cbn [receive_ack];
    [discriminate|].
  destruct ev as [len|bs].
  - destruct ((len <? 0) && negb (len =? GNUTLS_E_UNEXPECTED_PACKET_LENGTH));
      [|discriminate].
    destruct ((len =? GNUTLS_E_AGAIN) || (len =? GNUTLS_E_INTERRUPTED)) eqn:Ht;
      [|discriminate].
    intros H. apply IH in H. destruct H as (retries & Hf & ->).
    exists (EvRead 1 (RdErr len) :: retries). split.
    + constructor; [|exact Hf]. exists len. split; [reflexivity|].
      unfold transient. now rewrite orb_comm.
    + rewrite <- app_assoc. reflexivity.
  - destruct (firstn 1 bs) as [|b [|b' data]]; try discriminate.
    destruct (b =? 1) eqn:Hb; cbn [negb]; [|discriminate].
    apply Z.eqb_eq in Hb. subst b.
    intros H. inversion H; subst. exists []%list. split; [constructor | reflexivity].
Qed.

(** X26: [negotiate_gnutls_on_connection] hands out a session only after
    the server has acknowledged the client: the last thing done is a read
    of one byte that returned the byte 1, with nothing but interrupted
    reads before it.  When verification is on ([no_verify] is 0) the
    certificate has been accepted and no error has been raised; when it is
    off, a certificate that is not accepted does not stop the session, but
    its error has been raised all the same. *)
Theorem session_needs_acknowledgement (peer : tls_peer) (no_verify : Z)
        (hostname : cstring) (w : world) s errs w' :
  negotiate_gnutls_on_connection (E:=E) peer no_verify hostname w = (Some s, errs, w') ->
  s = session_handle peer
  /\ (no_verify = 0 -> verify_certificate (E:=E) peer hostname = Ok tt /\ errs = []%list)
  /\ errs = match verify_certificate peer hostname with
            | Fail e => [e]
            | _ => []
            end%list
  /\ exists retries,
       Forall (fun ev => exists code, ev = EvRead 1 (RdErr code) /\ transient true code = true)
              retries
       /\ events w' = (events w ++ retries ++ [EvRead 1 (RdData [1])])%list.
Proof.
  unfold negotiate_gnutls_on_connection.
  destruct (negb (session_init peer =? 0)); [discriminate|].
  destruct (negb (default_priority peer =? 0)); [discriminate|].
  destruct (negb (type_priority peer =? 0)); [discriminate|].
  destruct (negb (credentials_set peer =? 0)); [discriminate|].
  destruct (handshake (handshakes peer)); [discriminate|].
  pose proof (verify_certificate_never_aborts peer hostname) as Hna.
  destruct (verify_certificate peer hostname) as [[]|e|]; [| |contradiction].
  - destruct (receive_ack (incoming w) (events w)) as [[r inc] evs] eqn:Hack.
    destruct r as [e|]; [discriminate|].
    intros H. inversion H; subst. apply receive_ack_acknowledged in Hack.
    repeat split; assumption.
  - destruct (no_verify =? 0) eqn:Hnv; [discriminate|].
    destruct (receive_ack (incoming w) (events w)) as [[r inc] evs] eqn:Hack.
    destruct r as [e'|]; [discriminate|].
    intros H. inversion H; subst. apply receive_ack_acknowledged in Hack.
    split; [reflexivity|]. split; [intros H0; rewrite H0 in Hnv; discriminate|].
    split; [reflexivity | exact Hack].
Qed.

Lemma last_cons {A} (x d : A) (l : list A) : last (x :: l) d = last l x.
Proof.
  revert x d. induction l as [|y l IH]; intros x d; [reflexivity|].
  change (last (x :: y :: l) d) with (last (y :: l) d). rewrite !IH. reflexivity.
Qed.

Lemma tcp_connect_unreachable (nv : Z) (server : cstring) (res : list address)
      (sock : Z) (sess : option Z) (errs : list (raised E)) (w : world) :
  Forall (fun a => reachable a = false) res ->
  tcp_connect false nv server res sock sess errs w
  = (ChannelDown (errs ++ map unreachable_error res)
                 (last (map (fun a => fst (socket_ a)) res) sock) false sess,
     mk_world (incoming w) (outgoing w) (events w ++ abandoned res)).
Proof.
  intros H. revert sock errs w. induction H as [|a res Ha _ IH]; intros sock errs w.
  - cbn. rewrite !app_nil_r. destruct w; reflexivity.
  - cbn [tcp_connect map abandoned flat_map]. unfold reachable in Ha.
    unfold unreachable_error at 1.
    destruct (fst (socket_ a) =? -1) eqn:Hs.
    + rewrite IH, last_cons. cbn [app]. rewrite <- app_assoc. reflexivity.
    + cbn [negb andb] in Ha. apply negb_false_iff in Ha. rewrite Ha.
      rewrite IH, last_cons. unfold log_close. cbn [incoming outgoing events].
      rewrite <- !app_assoc. reflexivity.
Qed.

(** X27: over plain TCP the first address that can be reached is the one
    used: when [socket] or [connect] fails for the addresses before it and
    both succeed for it, the connection is on its socket, every socket that
    was opened for an address before it has been closed, once, and the
    addresses after it play no part. *)
Theorem first_reachable_address_is_used (net : network) (server : cstring)
        (port : option cstring) (nv : Z) (w : world) (before after : list address)
        (a : address) :
  getaddrinfo net server port = (0, before ++ a :: after)%list ->
  Forall (fun b => reachable b = false) before ->
  reachable a = true ->
  connect_channel (E:=E) net (ConnectTcp server port false nv) w
  = (ChannelUp (fst (socket_ a)) None,
     mk_world (incoming w) (outgoing w) (events w ++ abandoned before)).
Proof.
  intros Hg Hb Ha. unfold connect_channel. rewrite Hg. clear Hg. cbn [Z.eqb negb].
  generalize (@nil (raised E)) as errs. generalize (-1) as sock. revert w.
  induction Hb as [|b before Hbr _ IH]; intros w sock errs.
  - cbn [app tcp_connect abandoned flat_map]. unfold reachable in Ha.
    apply andb_true_iff in Ha. destruct Ha as [Hs Hc].
    apply negb_true_iff in Hs, Hc. rewrite Hs, Hc, app_nil_r.
    destruct w; reflexivity.
  - cbn [app tcp_connect abandoned flat_map]. unfold reachable in Hbr.
    destruct (fst (socket_ b) =? -1) eqn:Hs.
    + rewrite IH. reflexivity.
    + cbn [negb andb] in Hbr. apply negb_false_iff in Hbr. rewrite Hbr, IH.
      unfold log_close. cbn [incoming outgoing events]. rewrite <- !app_assoc.
      reflexivity.
Qed.

End ConnectProps.

Section OpenOnNetwork.

Context {P : remote_protocol}.
Variable E : Type.
Variable xmlSaveUri : xmlURI -> option cstring.
Variable xdr_remote_error : list octet -> option E.
Context {X : remote_xdr}.

Lemma abandoned_app (l1 l2 : list address) :
  abandoned (l1 ++ l2) = (abandoned l1 ++ abandoned l2)%list.
Proof. unfold abandoned. apply flat_map_app. Qed.

(** X28: when every address refuses, [remoteOpen] over plain TCP fails with
    one error raised for each address, and the socket of the last address
    is closed twice: once in the loop over the addresses when [connect] has
    failed, and once more after the label [failed], because [priv.sock]
    still holds the descriptor. *)
Theorem refused_connection_is_closed_twice (net : network) (conn : virConnect)
        (uri : option xmlURI) (flags : Z) (w : world) (p : open_params)
        (res : list address) (a : address) :
  remoteOpen_params E uri = Proceed p ->
  o_transport p = trans_tcp ->
  match o_name p with NameGiven n => Some n | NameSaved u => xmlSaveUri u end <> None ->
  getaddrinfo net (o_server p) (o_port p) = (0, res ++ [a])%list ->
  Forall (fun b => reachable b = false) (res ++ [a]) ->
  0 <= fst (socket_ a) ->
  remoteOpen xdr_remote_error (connect_channel net) xmlSaveUri conn uri flags w
  = (VIR_DRV_OPEN_ERROR (map unreachable_error (res ++ [a])), conn,
     mk_world (incoming w) (outgoing w)
              (events w ++ abandoned res
               ++ [EvClose (fst (socket_ a)); EvClose (fst (socket_ a))])).
Proof.
  intros Hp Ht Hname Hg Hun Hfd. unfold remoteOpen. rewrite Hp.
  destruct (match o_name p with NameGiven n => Some n | NameSaved u => xmlSaveUri u end)
    as [nm|]; [|contradiction].
  unfold channel_of. rewrite Ht. unfold connect_channel. rewrite Hg. cbn [Z.eqb negb].
  rewrite (tcp_connect_unreachable _ _ _ _ _ _ Hun).
  rewrite !map_app. cbn [map]. rewrite last_last, abandoned_app.
  cbn [abandoned flat_map].
  assert (Hs : (fst (socket_ a) =? -1) = false) by (apply Z.eqb_neq; lia).
  rewrite Hs. unfold open_failed. cbn [sock uses_tls session].
  replace (0 <=? fst (socket_ a)) with true by (symmetry; apply Z.leb_le; exact Hfd).
  unfold log. cbn [incoming outgoing events app].
  rewrite <- !app_assoc. reflexivity.
Qed.

(** X29: when [fork] fails, [remoteOpen] over ssh or an external command
    fails with that one error and closes nothing: the two descriptors that
    [socketpair] has made stay open. *)
Theorem failed_fork_closes_nothing (net : network) (conn : virConnect)
        (uri : option xmlURI) (flags : Z) (w : world) (p : open_params) :
  remoteOpen_params E uri = Proceed p ->
  o_transport p = trans_ssh \/ o_transport p = trans_ext ->
  match o_name p with NameGiven n => Some n | NameSaved u => xmlSaveUri u end <> None ->
  fst (fst (socketpair net)) <> -1 ->
  fst (fork net) = -1 ->
  remoteOpen xdr_remote_error (connect_channel net) xmlSaveUri conn uri flags w
  = (VIR_DRV_OPEN_ERROR [system_error (snd (fork net))], conn, w).
Proof.
  intros Hp Ht Hname Hsp Hfork. unfold remoteOpen. rewrite Hp.
  destruct (match o_name p with NameGiven n => Some n | NameSaved u => xmlSaveUri u end)
    as [nm|]; [|contradiction].
  unfold channel_of, connect_channel.
  destruct (socketpair net) as [[ret [sv0 sv1]] errno]. cbn [fst] in Hsp.
  apply Z.eqb_neq in Hsp.
  destruct Ht as [Ht|Ht]; rewrite Ht, Hsp, Hfork; reflexivity.
Qed.

End OpenOnNetwork.

(** X26 at the peer whose certificate is not trusted, verification off. *)
Lemma session_needs_acknowledgement_witness :
  42 = session_handle untrusted_peer
  /\ (1 = 0 -> verify_certificate (E:=Z) untrusted_peer (lit "host") = Ok tt
               /\ [error (E:=Z) false VIR_ERR_RPC "The certificate is not trusted."]
                  = []%list)
  /\ [error false VIR_ERR_RPC "The certificate is not trusted."]
     = match verify_certificate (E:=Z) untrusted_peer (lit "host") with
       | Fail e => [e]
       | _ => []
       end%list
  /\ exists retries,
       Forall (fun ev => exists code, ev = EvRead 1 (RdErr code) /\ transient true code = true)
              retries
       /\ events acknowledged
          = (events acknowledging ++ retries ++ [EvRead 1 (RdData [1])])%list.
Proof.
  apply (@session_needs_acknowledgement Z untrusted_peer 1 (lit "host") acknowledging 42
           [error false VIR_ERR_RPC "The certificate is not trusted."]%list acknowledged).
  reflexivity.
Defined.

(** X27 at the host whose first address refuses. *)
Lemma first_reachable_address_is_used_witness :
  connect_channel (E:=Z) lan (ConnectTcp (lit "host") (Some (lit "16509")) false 0) quiet
  = (ChannelUp 4 None, mk_world [] [] [EvClose 3]).
Proof.
  apply (@first_reachable_address_is_used Z lan (lit "host") (Some (lit "16509")) 0 quiet
           [refusing 3]%list [listening 5]%list (listening 4)).
  - reflexivity.
  - repeat constructor.
  - reflexivity.
Defined.

(** X28 at the host whose two addresses refuse. *)
Lemma refused_connection_is_closed_twice_witness :
  remoteOpen int_error (connect_channel dead_lan) save_path None (Some tcp_uri) 0 quiet
  = (VIR_DRV_OPEN_ERROR [system_error 111; system_error 111], None,
     mk_world [] [] [EvClose 3; EvClose 4; EvClose 4]).
Proof.
  apply (@refused_connection_is_closed_twice libvirt_protocol Z save_path int_error
           plain_xdr dead_lan None (Some tcp_uri) 0 quiet tcp_params
           [refusing 3]%list (refusing 4)).
  - reflexivity.
  - reflexivity.
  - discriminate.
  - reflexivity.
  - repeat constructor.
  - cbn. lia.
Defined.

(** X29 at the ssh URI on the system where [fork] fails. *)
Lemma failed_fork_closes_nothing_witness :
  remoteOpen int_error (connect_channel dead_lan) save_path None (Some ssh_uri) 0 quiet
  = (VIR_DRV_OPEN_ERROR [system_error 12], None, quiet).
Proof.
  apply (@failed_fork_closes_nothing libvirt_protocol Z save_path int_error plain_xdr
           dead_lan None (Some ssh_uri) 0 quiet ssh_params).
  - reflexivity.
  - left. reflexivity.
  - discriminate.
  - discriminate.
  - reflexivity.
Defined.

(* ------------------------------------------------------------------ *)
(** ** Opening over TLS *)

Lemma negotiate_verified (E : Type) (peer : tls_peer) (hostname : cstring) (w : world)
      s errs w' :
  negotiate_gnutls_on_connection (E:=E) peer 0 hostname w = (Some s, errs, w') ->
  verify_certificate (E:=E) peer hostname = Ok tt /\ s = session_handle peer.
Proof.
  unfold negotiate_gnutls_on_connection.
  destruct (negb (session_init peer =? 0)); [discriminate|].
  destruct (negb (default_priority peer =? 0)); [discriminate|].
  destruct (negb (type_priority peer =? 0)); [discriminate|].
  destruct (negb (credentials_set peer =? 0)); [discriminate|].
  destruct (handshake (handshakes peer)); [discriminate|].
  pose proof (@verify_certificate_never_aborts E peer hostname) as Hna.
  destruct (verify_certificate peer hostname) as [[]|e|]; [| |contradiction].
  - destruct (receive_ack (incoming w) (events w)) as [[[e|] inc] evs]; [discriminate|].
    intros H. inversion H. split; reflexivity.
  - cbn [Z.eqb]. discriminate.
Qed.

Lemma tcp_connect_up (E : Type) (nv : Z) (server : cstring) (res : list address)
      (sock : Z) (sess : option Z) (errs : list (raised E)) (w : world) fd sess' w' :
  tcp_connect true nv server res sock sess errs w = (ChannelUp fd sess', w') ->
  exists a s errs0 w0,
    In a res /\ reachable a = true /\ fd = fst (socket_ a) /\ sess' = Some s
    /\ negotiate_gnutls_on_connection (E:=E) (tls_side a) nv server w0 = (Some s, errs0, w').
Proof.
  revert sock sess errs w. induction res as [|a res IH]; intros sock sess errs w;
    cbn [tcp_connect]; [discriminate|].
  assert (Hrest : forall sock sess (errs : list (raised E)) w,
             tcp_connect true nv server res sock sess errs w = (ChannelUp fd sess', w') ->
             exists b s errs0 w0,
               In b (a :: res) /\ reachable b = true /\ fd = fst (socket_ b)
               /\ sess' = Some s
               /\ negotiate_gnutls_on_connection (E:=E) (tls_side b) nv server w0
                  = (Some s, errs0, w')).
  { intros sock0 sess0 errs1 w1 H. apply IH in H.
    destruct H as (b & s & errs0 & w0 & Hin & H).
    exists b, s, errs0, w0. split; [right; exact Hin | exact H]. }
  destruct (fst (socket_ a) =? -1) eqn:Hs; [apply Hrest|].
  destruct (fst (connect_ a) =? -1) eqn:Hc; [apply Hrest|].
  destruct (negotiate_gnutls_on_connection (tls_side a) nv server w) as [[[s|] errs0] w1]
    eqn:Hn; [|apply Hrest].
  intros H. inversion H; subst.
  exists a, s, errs0, w. split; [left; reflexivity|].
  split; [unfold reachable; now rewrite Hs, Hc|]. repeat split. exact Hn.
Qed.

Section OpenOverTls.

Context {P : remote_protocol}.
Variable E : Type.
Variable xmlSaveUri : xmlURI -> option cstring.
Variable xdr_remote_error : list octet -> option E.
Context {X : remote_xdr}.

(** X30: with verification on, [remoteOpen] over TLS succeeds only on a
    connection whose certificate [verify_certificate] has accepted for the
    server named in the URI: the handle it installs holds the socket of one
    of the addresses of that server and the session negotiated on it, and
    the certificate chain presented at that address was accepted. *)
Theorem tls_open_needs_accepted_certificate (net : network) (conn : virConnect)
        (uri : option xmlURI) (flags : Z) (w : world) (p : open_params) conn' w' :
  remoteOpen_params E uri = Proceed p ->
  o_transport p = trans_tls ->
  o_no_verify p = 0 ->
  remoteOpen xdr_remote_error (connect_channel net) xmlSaveUri conn uri flags w
  = (VIR_DRV_OPEN_SUCCESS, conn', w') ->
  exists a priv,
    In a (snd (getaddrinfo net (o_server p) (o_port p)))
    /\ reachable a = true
    /\ verify_certificate (E:=E) (tls_side a) (o_server p) = Ok tt
    /\ conn' = Some priv
    /\ magic priv = MAGIC
    /\ uses_tls priv = true
    /\ sock priv = fst (socket_ a)
    /\ session priv = Some (session_handle (tls_side a)).
Proof.
  intros Hp Ht Hnv. unfold remoteOpen. rewrite Hp.
  destruct (match o_name p with NameGiven n => Some n | NameSaved u => xmlSaveUri u end)
    as [nm|]; [|discriminate].
  destruct (connect_channel net (channel_of p flags) w) as [[fd sess|errs fd tls sess] w1]
    eqn:Hch; [|discriminate].
  match goal with
  | |- context [call ?x ?pr ?io ?pn ?a ?rf ?ww] =>
      destruct (call x pr io pn a rf ww) as [[[u|e|] priv1] w2] eqn:Hc
  end; try discriminate.
  apply call_effects in Hc. destruct Hc as [-> _].
  intros H. inversion H; subst conn' w'. clear H.
  revert Hch. unfold channel_of, connect_channel. rewrite Ht, Hnv.
  destruct (fst (initialise_gnutls net)); [discriminate|].
  destruct (getaddrinfo net (o_server p) (o_port p)) as [e res].
  destruct (negb (e =? 0)); [discriminate|].
  intros Hch. apply tcp_connect_up in Hch.
  destruct Hch as (a & s & errs0 & w0 & Hin & Hr & -> & -> & Hn).
  apply negotiate_verified in Hn. destruct Hn as [Hv ->].
  exists a. eexists. split; [exact Hin|]. split; [exact Hr|]. split; [exact Hv|].
  split; [reflexivity|]. cbn. repeat split.
Qed.

End OpenOverTls.

(** X30 at the TLS URI on the system whose first address refuses. *)
Lemma tls_open_needs_accepted_certificate_witness :
  exists a priv,
    In a (snd (getaddrinfo lan (o_server upper_params) (o_port upper_params)))
    /\ reachable a = true
    /\ verify_certificate (E:=Z) (tls_side a) (o_server upper_params) = Ok tt
    /\ Some (mk_priv MAGIC 4 true (Some 42) None 1) = Some priv
    /\ magic priv = MAGIC
    /\ uses_tls priv = true
    /\ sock priv = fst (socket_ a)
    /\ session priv = Some (session_handle (tls_side a)).
Proof.
  apply (@tls_open_needs_accepted_certificate libvirt_protocol Z save_path int_error
           plain_xdr lan None (Some upper_uri) 0 tls_server upper_params
           (Some (mk_priv MAGIC 4 true (Some 42) None 1)) tls_opened).
  - reflexivity.
  - reflexivity.
  - reflexivity.
  - reflexivity.
Defined.

(* ------------------------------------------------------------------ *)
(** ** The arrays of [remoteDomainGetVcpus] *)

Section VcpusProps.

Context {P : remote_protocol}.
Variable E : Type.
Variable xdr_remote_error : list octet -> option E.
Context {V : remote_vcpus}.

(** X22: the bounds of [remoteDomainGetVcpus].  A [maxinfo] above
    [REMOTE_VCPUINFO_MAX], or a product [maxinfo * maplen] above
    [REMOTE_CPUMAPS_MAX], is refused before anything is sent; the product is
    tested as the 32-bit [int] the code computes, so that a product which
    overflows is not refused and the request goes out.  When the operation
    succeeds, the number returned is the number of entries the server sent.
    For a [maxinfo] that is not negative that number is at most [maxinfo]
    and [info] holds [maxinfo] entries, those of the server followed by
    zeros; for a product that is not negative as an [int], [cpumaps] holds
    that many bytes, those of the server followed by zeros.  For a negative
    [maxinfo] the comparison, which is unsigned, bounds the reply by
    [maxinfo + 2^32] only, and what the server sent is stored as it is. *)
Theorem remoteDomainGetVcpus_fills_arrays (priv : private_data) (domain : virDomain)
        (maxinfo maplen : Z) (w : world) :
  magic priv = MAGIC ->
  (REMOTE_VCPUINFO_MAX < maxinfo ->
   remoteDomainGetVcpus xdr_remote_error (Some priv) domain maxinfo maplen w
   = (Fail (error true VIR_ERR_RPC "maxinfo > REMOTE_VCPUINFO_MAX"), Some priv, w))
  /\ (maxinfo <= REMOTE_VCPUINFO_MAX -> REMOTE_CPUMAPS_MAX < int32 (maxinfo * maplen) ->
      remoteDomainGetVcpus xdr_remote_error (Some priv) domain maxinfo maplen w
      = (Fail (error true VIR_ERR_RPC "maxinfo * maplen > REMOTE_CPUMAPS_MAX"),
         Some priv, w))
  /\ (maxinfo <= REMOTE_VCPUINFO_MAX -> int32 (maxinfo * maplen) <= REMOTE_CPUMAPS_MAX ->
      exists o priv1 w1,
        call xdr_remote_error priv false REMOTE_PROC_DOMAIN_GET_VCPUS
             (xdr_remote_domain_get_vcpus_args domain maxinfo maplen)
             xdr_remote_domain_get_vcpus_ret w = (o, priv1, w1)
        /\ snd (fst (remoteDomainGetVcpus xdr_remote_error (Some priv) domain
                                          maxinfo maplen w)) = Some priv1
        /\ snd (remoteDomainGetVcpus xdr_remote_error (Some priv) domain maxinfo maplen w)
           = w1)
  /\ (forall n info cpumaps conn' w',
        remoteDomainGetVcpus xdr_remote_error (Some priv) domain maxinfo maplen w
        = (Ok (n, info, cpumaps), conn', w') ->
        maxinfo <= REMOTE_VCPUINFO_MAX
        /\ int32 (maxinfo * maplen) <= REMOTE_CPUMAPS_MAX
        /\ exists info_val cpumaps_val,
             n = Z.of_nat (length info_val)
             /\ n <= uint32 maxinfo
             /\ Z.of_nat (length cpumaps_val) <= uint32 (int32 (maxinfo * maplen))
             /\ info = (info_val
                        ++ repeat (mk_vcpu 0 0 0 0)
                                  (Z.to_nat maxinfo - length info_val))%list
             /\ cpumaps = (cpumaps_val
                           ++ repeat 0 (Z.to_nat (int32 (maxinfo * maplen))
                                        - length cpumaps_val))%list
             /\ (0 <= maxinfo -> n <= maxinfo /\ Z.of_nat (length info) = maxinfo)
             /\ (0 <= int32 (maxinfo * maplen) ->
                 Z.of_nat (length cpumaps) = int32 (maxinfo * maplen))
             /\ (- 2^31 <= maxinfo < 0 ->
                 uint32 maxinfo = maxinfo + 2^32 /\ info = info_val))
  /\ (maxinfo <= REMOTE_VCPUINFO_MAX -> int32 (maxinfo * maplen) <= REMOTE_CPUMAPS_MAX ->
      forall info_val cpumaps_val priv1 w1,
        call xdr_remote_error priv false REMOTE_PROC_DOMAIN_GET_VCPUS
             (xdr_remote_domain_get_vcpus_args domain maxinfo maplen)
             xdr_remote_domain_get_vcpus_ret w = (Ok (info_val, cpumaps_val), priv1, w1) ->
        remoteDomainGetVcpus xdr_remote_error (Some priv) domain maxinfo maplen w
        = if Z.of_nat (length info_val) >? uint32 maxinfo then
            (Fail (error true VIR_ERR_RPC "ret.info.info_len > maxinfo"), Some priv1, w1)
          else if Z.of_nat (length cpumaps_val) >? uint32 (int32 (maxinfo * maplen)) then
            (Fail (error true VIR_ERR_RPC "ret.cpumaps.cpumaps_len > maxinfo * maplen"),
             Some priv1, w1)
          else
            (Ok (Z.of_nat (length info_val),
                 (info_val
                  ++ repeat (mk_vcpu 0 0 0 0) (Z.to_nat maxinfo - length info_val))%list,
                 (cpumaps_val
                  ++ repeat 0 (Z.to_nat (int32 (maxinfo * maplen))
                               - length cpumaps_val))%list),
             Some priv1, w1)).
Proof.
  intros Hm. unfold remoteDomainGetVcpus, GET_PRIVATE. rewrite Hm.
  change (MAGIC =? DEAD) with false. change (MAGIC =? MAGIC) with true. cbn [negb].
  set (prod := int32 (maxinfo * maplen)).
  split; [|split; [|split; [|split]]].
  - intros Hbig. replace (maxinfo >? REMOTE_VCPUINFO_MAX) with true
      by (symmetry; apply Z.gtb_lt; exact Hbig).
    reflexivity.
  - intros Hok Hbig.
    replace (maxinfo >? REMOTE_VCPUINFO_MAX) with false
      by (symmetry; rewrite Z.gtb_ltb; apply Z.ltb_ge; exact Hok).
    replace (prod >? REMOTE_CPUMAPS_MAX) with true
      by (symmetry; apply Z.gtb_lt; exact Hbig).
    reflexivity.
  - intros Hok1 Hok2.
    replace (maxinfo >? REMOTE_VCPUINFO_MAX) with false
      by (symmetry; rewrite Z.gtb_ltb; apply Z.ltb_ge; exact Hok1).
    replace (prod >? REMOTE_CPUMAPS_MAX) with false
      by (symmetry; rewrite Z.gtb_ltb; apply Z.ltb_ge; exact Hok2).
    destruct (call xdr_remote_error priv false REMOTE_PROC_DOMAIN_GET_VCPUS
                   (xdr_remote_domain_get_vcpus_args domain maxinfo maplen)
                   xdr_remote_domain_get_vcpus_ret w) as [[o priv1] w1].
    exists o, priv1, w1. split; [reflexivity|].
    destruct o as [[info_val cpumaps_val]|e|]; try (split; reflexivity).
    destruct (Z.of_nat (length info_val) >? uint32 maxinfo); [split; reflexivity|].
    destruct (Z.of_nat (length cpumaps_val) >? uint32 prod); split; reflexivity.
  - intros n info cpumaps conn' w'.
    destruct (maxinfo >? REMOTE_VCPUINFO_MAX) eqn:H1; [discriminate|].
    destruct (prod >? REMOTE_CPUMAPS_MAX) eqn:H2; [discriminate|].
    destruct (call xdr_remote_error priv false REMOTE_PROC_DOMAIN_GET_VCPUS
                   (xdr_remote_domain_get_vcpus_args domain maxinfo maplen)
                   xdr_remote_domain_get_vcpus_ret w) as [[o priv1] w1].
    destruct o as [[info_val cpumaps_val]|e|]; try discriminate.
    destruct (Z.of_nat (length info_val) >? uint32 maxinfo) eqn:H3; [discriminate|].
    destruct (Z.of_nat (length cpumaps_val) >? uint32 prod) eqn:H4; [discriminate|].
    intros H. injection H as <- <- <- _ _.
    rewrite Z.gtb_ltb in H1, H2, H3, H4. apply Z.ltb_ge in H1, H2, H3, H4.
    split; [exact H1|]. split; [exact H2|].
    exists info_val, cpumaps_val.
    split; [reflexivity|]. split; [exact H3|]. split; [exact H4|].
    split; [reflexivity|]. split; [reflexivity|].
    rewrite !length_app, !repeat_length.
    split; [|split].
    + intros H0.
      assert (Hu : uint32 maxinfo <= maxinfo)
        by (unfold uint32; apply Z.mod_le; [exact H0 | reflexivity]).
      lia.
    + intros H0.
      assert (Hu : uint32 prod <= prod)
        by (unfold uint32; apply Z.mod_le; [exact H0 | reflexivity]).
      lia.
    + intros H0. split.
      { unfold uint32. change (2^32) with 4294967296 in *.
        change (2^31) with 2147483648 in *. Z.div_mod_to_equations. lia. }
      replace (Z.to_nat maxinfo) with 0%nat by lia.
      cbn [Nat.sub repeat]. now rewrite app_nil_r.
  - intros Hok1 Hok2 info_val cpumaps_val priv1 w1 Hcall.
    replace (maxinfo >? REMOTE_VCPUINFO_MAX) with false
      by (symmetry; rewrite Z.gtb_ltb; apply Z.ltb_ge; exact Hok1).
    replace (prod >? REMOTE_CPUMAPS_MAX) with false
      by (symmetry; rewrite Z.gtb_ltb; apply Z.ltb_ge; exact Hok2).
    rewrite Hcall.
    destruct (Z.of_nat (length info_val) >? uint32 maxinfo); [reflexivity|].
    destruct (Z.of_nat (length cpumaps_val) >? uint32 prod); reflexivity.
Qed.

End VcpusProps.

(** X22 at two entries asked for one virtual CPU reported, at sizes whose
    product is [2^32], and at -1 entries asked for. *)
Lemma remoteDomainGetVcpus_fills_arrays_witness :
  (2 <= REMOTE_VCPUINFO_MAX
   /\ int32 (2 * 1) <= REMOTE_CPUMAPS_MAX
   /\ exists info_val cpumaps_val,
        1 = Z.of_nat (length info_val)
        /\ 1 <= uint32 2
        /\ Z.of_nat (length cpumaps_val) <= uint32 (int32 (2 * 1))
        /\ [mk_vcpu 0 1 1000 2; mk_vcpu 0 0 0 0]%list
           = (info_val ++ repeat (mk_vcpu 0 0 0 0) (Z.to_nat 2 - length info_val))%list
        /\ [4; 0]%list
           = (cpumaps_val
              ++ repeat 0 (Z.to_nat (int32 (2 * 1)) - length cpumaps_val))%list
        /\ (0 <= 2 ->
            1 <= 2 /\ Z.of_nat (length [mk_vcpu 0 1 1000 2; mk_vcpu 0 0 0 0]%list) = 2)
        /\ (0 <= int32 (2 * 1) -> Z.of_nat (length [4; 0]%list) = int32 (2 * 1))
        /\ (- 2^31 <= 2 < 0 ->
            uint32 2 = 2 + 2^32
            /\ [mk_vcpu 0 1 1000 2; mk_vcpu 0 0 0 0]%list = info_val))
  /\ (exists o priv1 w1,
       call int_error up false REMOTE_PROC_DOMAIN_GET_VCPUS
            (xdr_remote_domain_get_vcpus_args guest 2048 2097152)
            xdr_remote_domain_get_vcpus_ret quiet = (o, priv1, w1)
       /\ snd (fst (remoteDomainGetVcpus int_error (Some up) guest 2048 2097152 quiet))
          = Some priv1
       /\ snd (remoteDomainGetVcpus int_error (Some up) guest 2048 2097152 quiet) = w1)
  /\ (remoteDomainGetVcpus int_error (Some up) guest (-1) 1 (reply vcpus_reply)
      = (Ok (1, [mk_vcpu 0 1 1000 2]%list, [4]%list), Some (next_serial up),
         vcpus_read_unbounded)
      /\ uint32 (-1) = -1 + 2^32).
Proof.
  split; [|split].
  - apply (proj1 (proj2 (proj2 (proj2 (@remoteDomainGetVcpus_fills_arrays libvirt_protocol Z
                                  int_error plain_vcpus up guest 2 1 (reply vcpus_reply)
                                  eq_refl))))
                 1 [mk_vcpu 0 1 1000 2; mk_vcpu 0 0 0 0]%list [4; 0]%list
                 (Some (next_serial up)) vcpus_read).
    reflexivity.
  - apply (proj1 (proj2 (proj2 (@remoteDomainGetVcpus_fills_arrays libvirt_protocol Z
                                  int_error plain_vcpus up guest 2048 2097152 quiet
                                  eq_refl)))).
    + vm_compute. discriminate.
    + vm_compute. discriminate.
  - assert (Hrun : remoteDomainGetVcpus int_error (Some up) guest (-1) 1 (reply vcpus_reply)
                   = (Ok (1, [mk_vcpu 0 1 1000 2]%list, [4]%list), Some (next_serial up),
                      vcpus_read_unbounded)) by reflexivity.
    destruct (proj1 (proj2 (proj2 (proj2 (@remoteDomainGetVcpus_fills_arrays
                                            libvirt_protocol Z
                                            int_error plain_vcpus up guest (-1) 1
                                            (reply vcpus_reply) eq_refl))))
                    1 [mk_vcpu 0 1 1000 2]%list [4]%list (Some (next_serial up))
                    vcpus_read_unbounded Hrun)
      as (_ & _ & info_val & cpumaps_val & _ & _ & _ & _ & _ & _ & _ & Hneg).
    split; [exact Hrun|]. apply Hneg. cbn. lia.
Defined.

(* ------------------------------------------------------------------ *)
(** ** The serial numbers on the wire *)

Section SerialProps.

Context {P : remote_protocol}.
Variable E : Type.
Variable xdr_remote_error : list octet -> option E.

Lemma really_write_loop_through tls in_open script p evs :
  writes_through tls script ->
  exists script' evs',
    really_write_loop (E:=E) tls in_open script p evs = (Ok tt, script', evs')
    /\ writes_through tls script'
    /\ wire evs' = (wire evs ++ p)%list.
Proof.
  intros H. revert p evs. induction H as [|ev script Hev Hrest IH]; intros p evs.
  - cbn. eexists. eexists. split; [reflexivity|]. split; [constructor|].
    rewrite wire_app. cbn. now rewrite app_nil_r.
  - destruct ev as [code|n]; cbn [really_write_loop].
    + rewrite Hev. destruct (0 <? Z.of_nat (length p)) eqn:Hp.
      * destruct (IH p (evs ++ [EvWrite [] (WrErr code)])%list)
          as (script' & evs' & Hrun & Hthrough & Hwire).
        exists script', evs'. split; [exact Hrun|]. split; [exact Hthrough|].
        rewrite Hwire, wire_app. cbn. now rewrite app_nil_r.
      * apply Z.ltb_ge in Hp.
        assert (p = []%list) by (destruct p; [reflexivity | cbn in Hp; lia]). subst p.
        eexists. eexists. split; [reflexivity|]. split; [exact Hrest|].
        rewrite wire_app. cbn. reflexivity.
    + destruct (0 <? Z.of_nat (length (skipn n p))) eqn:Hp.
      * destruct (IH (skipn n p)
                     (evs ++ [EvWrite (firstn n p) (WrLen (length (firstn n p)))])%list)
          as (script' & evs' & Hrun & Hthrough & Hwire).
        exists script', evs'. split; [exact Hrun|]. split; [exact Hthrough|].
        rewrite Hwire, wire_app. cbn. rewrite app_nil_r, <- app_assoc.
        now rewrite firstn_skipn.
      * apply Z.ltb_ge in Hp.
        assert (Hs : skipn n p = []%list)
          by (destruct (skipn n p); [reflexivity | cbn in Hp; lia]).
        eexists. eexists. split; [reflexivity|]. split; [exact Hrest|].
        rewrite wire_app. cbn. rewrite app_nil_r.
        rewrite <- (firstn_skipn n p) at 2. now rewrite Hs, app_nil_r.
Qed.

Lemma really_write_through priv in_open bytes w :
  writes_through (uses_tls priv) (outgoing w) ->
  exists w',
    really_write (E:=E) priv in_open bytes w = (Ok tt, w')
    /\ writes_through (uses_tls priv) (outgoing w')
    /\ incoming w' = incoming w
    /\ wire (events w') = (wire (events w) ++ bytes)%list.
Proof.
  intros H. unfold really_write.
  destruct (@really_write_loop_through (uses_tls priv) in_open (outgoing w) bytes
                                       (events w) H)
    as (script' & evs' & Hrun & Hthrough & Hwire).
  rewrite Hrun. eexists. split; [reflexivity|]. repeat split; assumption.
Qed.

Lemma really_read_loop_wire tls in_open script len got evs :
  wire (snd (really_read_loop (E:=E) tls in_open script len got evs)) = wire evs.
Proof.
  revert len got evs. induction script as [|ev script IH]; intros len got evs.
  - cbn. rewrite wire_app. cbn. now rewrite app_nil_r.
  - destruct ev as [code|bs]; cbn.
    + destruct (transient tls code); [destruct (0 <? len)|]; cbn;
        rewrite ?IH, wire_app; cbn; now rewrite app_nil_r.
    + destruct (firstn (Z.to_nat len) bs) as [|b data];
        [cbn; rewrite wire_app; cbn; now rewrite app_nil_r|].
      destruct (0 <? len - Z.of_nat (length (b :: data))); cbn;
        rewrite ?IH, wire_app; cbn; now rewrite app_nil_r.
Qed.

Lemma really_read_keeps priv in_open len w r w' :
  really_read (E:=E) priv in_open len w = (r, w') ->
  outgoing w' = outgoing w /\ wire (events w') = wire (events w).
Proof.
  unfold really_read.
  pose proof (really_read_loop_wire (uses_tls priv) in_open (incoming w) len [] (events w))
    as Hw.
  destruct (really_read_loop (uses_tls priv) in_open (incoming w) len [] (events w))
    as [[r0 inc] evs].
  intros H. inversion H; subst. split; [reflexivity | exact Hw].
Qed.

Lemma call_receive_keeps priv in_open buffer2 w r w' :
  call_receive (E:=E) priv in_open buffer2 w = (r, w') ->
  outgoing w' = outgoing w /\ wire (events w') = wire (events w).
Proof.
  unfold call_receive.
  destruct (xdr_int_decode buffer2) as [[len rest]|];
    [|intros H; inversion H; subst; split; reflexivity].
  destruct ((int32 (len - 4) <? 0) || (int32 (len - 4) >? REMOTE_MESSAGE_MAX));
    [intros H; inversion H; subst; split; reflexivity|].
  destruct (really_read priv in_open (int32 (len - 4)) w) as [[buffer|e|] w1] eqn:Hr;
    apply really_read_keeps in Hr.
  - destruct (xdr_remote_message_header_decode buffer);
      intros H; inversion H; subst; exact Hr.
  - intros H; inversion H; subst; exact Hr.
  - intros H; inversion H; subst; exact Hr.
Qed.

(** A call whose request can be marshalled, on a channel that takes what is
    written, puts its frame on the wire, with the serial it took from the
    counter in the header, whatever becomes of the reply. *)
Lemma call_sends_frame {R} priv in_open proc_nr a (ret_filter : list octet -> option R)
      w o priv' w' :
  24 + Z.of_nat (length a) <= REMOTE_MESSAGE_MAX ->
  writes_through (uses_tls priv) (outgoing w) ->
  call xdr_remote_error priv in_open proc_nr (Some a) ret_filter w = (o, priv', w') ->
  priv' = next_serial priv
  /\ writes_through (uses_tls priv) (outgoing w')
  /\ wire (events w')
     = (wire (events w) ++ request_frame proc_nr (counter priv) (Some a))%list.
Proof.
  intros Hsize Hthrough Hcall.
  pose proof Hcall as Hpriv. apply call_effects in Hpriv. destruct Hpriv as [Hpriv _].
  split; [exact Hpriv|]. clear Hpriv.
  assert (Hex : forall r w1,
             call_exchange (E:=E) (next_serial priv) in_open proc_nr (serial_assigned priv)
                           (Some a) w = (r, w1) ->
             writes_through (uses_tls priv) (outgoing w1)
             /\ wire (events w1)
                = (wire (events w) ++ request_frame proc_nr (counter priv) (Some a))%list).
  { intros r w1. unfold call_exchange, call_send.
    replace (REMOTE_MESSAGE_MAX <? 24) with false by (symmetry; apply Z.ltb_ge; lia).
    replace (REMOTE_MESSAGE_MAX <? 24 + Z.of_nat (length a)) with false
      by (symmetry; apply Z.ltb_ge; lia).
    cbv zeta.
    set (buffer := (xdr_remote_message_header_encode
                      (request_header proc_nr (serial_assigned priv)) ++ a)%list).
    destruct (@really_write_through (next_serial priv) in_open
                (xdr_put32 (Z.of_nat (length buffer) + 4)) w Hthrough)
      as (wa & Hwa & Hta & _ & Hwire_a).
    rewrite Hwa.
    destruct (@really_write_through (next_serial priv) in_open buffer wa Hta)
      as (wb & Hwb & Htb & _ & Hwire_b).
    rewrite Hwb.
    assert (Hsent : wire (events wb)
                    = (wire (events w)
                       ++ request_frame proc_nr (counter priv) (Some a))%list).
    { rewrite Hwire_b, Hwire_a, <- app_assoc. reflexivity. }
    destruct (really_read (next_serial priv) in_open 4 wb) as [[buffer2|e|] wc] eqn:Hr;
      apply really_read_keeps in Hr; destruct Hr as [Ho Hw].
    - intros H. apply call_receive_keeps in H. destruct H as [Ho2 Hw2].
      rewrite Ho2, Ho, Hw2, Hw. split; [exact Htb | exact Hsent].
    - intros H; inversion H; subst. rewrite Ho, Hw. split; [exact Htb | exact Hsent].
    - intros H; inversion H; subst. rewrite Ho, Hw. split; [exact Htb | exact Hsent]. }
  pose proof (Hex _ _ (surjective_pairing _)) as Hx. clear Hex.
  revert Hcall. unfold call.
  destruct (call_exchange (next_serial priv) in_open proc_nr (serial_assigned priv)
                          (Some a) w) as [[[hdr body]|e|] w1]; cbn [snd] in Hx;
    [destruct (check_header in_open proc_nr (serial_assigned priv) hdr)|..];
    intros H; inversion H; subst; exact Hx.
Qed.

Lemma frame_serial_request (proc_nr ser : Z) (a : list octet) :
  REMOTE_MESSAGE_MAX + 4 < 2^32 ->
  24 + Z.of_nat (length a) <= REMOTE_MESSAGE_MAX ->
  frame_serial (request_frame proc_nr ser (Some a)) = Some (uint32 ser).
Proof.
  intros Hmax Hsize. unfold frame_serial, request_frame. cbv zeta.
  rewrite xdr_get32_put32, !length_app, xdr_remote_message_header_encode_length.
  change (length (xdr_put32 (Z.of_nat (24 + length a) + 4))) with 4%nat.
  rewrite uint32_small by lia.
  replace (Z.of_nat (24 + length a) + 4 =? Z.of_nat (4 + (24 + length a))) with true
    by (symmetry; apply Z.eqb_eq; lia).
  rewrite xdr_remote_message_header_round_trip. reflexivity.
Qed.

Lemma run_calls_frames (cs : list rpc) :
  REMOTE_MESSAGE_MAX + 4 < 2^32 ->
  Forall marshalled cs ->
  forall (priv : private_data) (w : world) (i : nat),
    counter priv = int32 (Z.of_nat i) ->
    Z.of_nat i + Z.of_nat (length cs) <= 2^32 ->
    writes_through (uses_tls priv) (outgoing w) ->
    exists frames,
      wire (events (snd (run_calls xdr_remote_error cs priv w)))
      = (wire (events w) ++ concat frames)%list
      /\ map frame_serial frames = map (fun k => Some (Z.of_nat k)) (seq i (length cs))
      /\ Forall2 (fun c frame =>
                    exists ser, frame = request_frame (rpc_proc c) ser (rpc_args c))
                 cs frames.
Proof.
  intros Hmax Hall. induction Hall as [|c cs (a & Ha & Hsize) _ IH];
    intros priv w i Hc Hn Hthrough.
  - exists []%list. cbn. rewrite app_nil_r. repeat split. constructor.
  - cbn [run_calls length seq map]. cbn [length] in Hn.
    destruct (call xdr_remote_error priv (rpc_in_open c) (rpc_proc c) (rpc_args c)
                   (rpc_ret c) w) as [[o priv1] w1] eqn:Hcall.
    rewrite Ha in Hcall.
    destruct (@call_sends_frame _ _ _ _ _ _ _ _ _ _ Hsize Hthrough Hcall)
      as (-> & Ht1 & Hw1).
    destruct (IH (next_serial priv) w1 (S i)) as (frames & Hwire & Hsers & Hshape).
    + cbn [next_serial set_counter counter]. rewrite Hc, int32_add_l. f_equal. lia.
    + lia.
    + exact Ht1.
    + destruct (run_calls xdr_remote_error cs (next_serial priv) w1) as [[sers p2] w2].
      cbn [snd] in *.
      exists (request_frame (rpc_proc c) (counter priv) (Some a) :: frames).
      split; [|split].
      * rewrite Hwire, Hw1. cbn [concat]. now rewrite <- app_assoc.
      * cbn [map]. rewrite Hsers, (@frame_serial_request _ _ _ Hmax Hsize), Hc.
        rewrite uint32_int32, uint32_small by lia. reflexivity.
      * constructor; [|exact Hshape]. exists (counter priv). now rewrite Ha.
Qed.

(** C5 (amended): on private data whose counter is 0, as [remoteOpen] sets
    it up, call number [k] of a run of [n] calls (counting from 0) is given
    the serial [k] as long as the 32 bits of the counter can tell the calls
    apart: as the unsigned value of the header for [n] up to [2^32], as the C
    [int] it is computed in for [n] up to [2^31].  And these are the serials
    on the wire: when every request is marshalled and no write fails for
    good, what the run has written is one frame for each call, in order, and
    the headers of these frames carry the serials [0, 1, ..., n-1],
    whatever becomes of the replies. *)
Theorem serials_dense_from_zero (cs : list rpc) (priv : private_data) (w : world) :
  counter priv = 0 ->
  Z.of_nat (length cs) <= 2^32 ->
  map uint32 (fst (fst (run_calls xdr_remote_error cs priv w)))
  = map Z.of_nat (seq 0 (length cs))
  /\ (Z.of_nat (length cs) <= 2^31 ->
      fst (fst (run_calls xdr_remote_error cs priv w))
      = map Z.of_nat (seq 0 (length cs)))
  /\ (REMOTE_MESSAGE_MAX + 4 < 2^32 ->
      Forall marshalled cs ->
      writes_through (uses_tls priv) (outgoing w) ->
      exists frames,
        wire (events (snd (run_calls xdr_remote_error cs priv w)))
        = (wire (events w) ++ concat frames)%list
        /\ map frame_serial frames = map (fun k => Some (Z.of_nat k)) (seq 0 (length cs))
        /\ Forall2 (fun c frame =>
                      exists ser, frame = request_frame (rpc_proc c) ser (rpc_args c))
                   cs frames).
Proof.
  intros H0 Hn. split; [|split].
  - rewrite run_calls_serials by (rewrite H0; lia). rewrite H0.
    rewrite map_map. apply map_ext_in. intros k Hk. apply in_seq in Hk.
    rewrite uint32_int32. apply uint32_small. lia.
  - intros Hn'. rewrite run_calls_serials by (rewrite H0; lia). rewrite H0.
    apply map_ext_in. intros k Hk. apply in_seq in Hk.
    apply int32_small. lia.
  - intros Hmax Hall Hthrough.
    apply (@run_calls_frames cs Hmax Hall priv w 0%nat);
      [rewrite H0; reflexivity | lia | exact Hthrough].
Qed.

End SerialProps.

(** The theorem at three calls on fresh private data, on a channel that is
    interrupted once and then takes the bytes two at a time. *)
Lemma serials_dense_from_zero_witness :
  map uint32 (fst (fst (run_calls int_error [ping; ping; ping]%list fresh_priv choppy)))
  = [0; 1; 2]%list
  /\ fst (fst (run_calls int_error [ping; ping; ping]%list fresh_priv choppy))
     = [0; 1; 2]%list
  /\ exists frames,
       wire (events (snd (run_calls int_error [ping; ping; ping]%list fresh_priv choppy)))
       = (wire (events choppy) ++ concat frames)%list
       /\ map frame_serial frames = [Some 0; Some 1; Some 2]%list
       /\ Forall2 (fun c frame =>
                     exists ser, frame = request_frame (rpc_proc c) ser (rpc_args c))
                  [ping; ping; ping]%list frames.
Proof.
  destruct (@serials_dense_from_zero libvirt_protocol Z int_error
              [ping; ping; ping]%list fresh_priv choppy)
    as (Huns & Hint & Hwire).
  - reflexivity.
  - cbn. lia.
  - split; [exact Huns|]. split; [apply Hint; cbn; lia|].
    apply Hwire.
    + cbn. lia.
    + repeat constructor; exists []%list; (split; [reflexivity | cbn; lia]).
    + repeat constructor.
Defined.
